(** * Question-level survey alignment: a shallow embedding of
    [question_splitter.py]

    The development follows the source file class by class:
    - [Py]: the few [str] methods the code calls ([strip], [split], [join],
      [replace], [lower]);
    - [Re]: the fragment of regular expressions the numbering patterns use,
      with Python's greedy backtracking order;
    - [Word]: [WordQuestionExtractor];
    - [Xml]: [XMLQuestionExtractor] over an lxml-like element tree;
    - [Matcher]: [QuestionMatcher], scores being IEEE binary64 floats;
    - [Splitter]: [QuestionSplitter.process_survey_pair].

    Text is a list of 8-bit code points (Latin-1).  The third-party
    libraries stay parameters: the three [fuzz] ratios of [fuzzywuzzy] and
    lxml's parser and serializer. *)

From Stdlib Require Import Ascii String.
From Stdlib Require Import List Bool NArith ZArith Lia Permutation Sorted.
From Stdlib Require Import Floats.
Import ListNotations.

Set Implicit Arguments.

(** ** Python strings *)

Module Py.

Definition str := list ascii.

Definition lit (s : string) : str := list_ascii_of_string s.

Definition code (c : ascii) : N := N_of_ascii c.

Definition between (lo hi : N) (c : ascii) : bool :=
  (N.leb lo (code c) && N.leb (code c) hi)%bool.

Definition is_char (n : N) (c : ascii) : bool := N.eqb (code c) n.

Definition newline : ascii := ascii_of_N 10.

Definition is_newline (c : ascii) : bool := is_char 10 c.

(** [str.isspace] on one code point below 256: TAB..CR, FS..US, SPACE,
    NEL and NBSP.  The same set is what [\s] matches in a [str] pattern. *)
Definition is_space (c : ascii) : bool :=
  (between 9 13 c || between 28 32 c || is_char 133 c || is_char 160 c)%bool.

Definition is_digit (c : ascii) : bool := between 48 57 c.

Definition is_upper_az (c : ascii) : bool := between 65 90 c.
Definition is_lower_az (c : ascii) : bool := between 97 122 c.
Definition is_letter_az (c : ascii) : bool := (is_upper_az c || is_lower_az c)%bool.

(** [str.isalnum] below 256, which with the underscore is [\w]. *)
Definition is_alnum (c : ascii) : bool :=
  (is_digit c || is_letter_az c
   || is_char 170 c || is_char 181 c || is_char 186 c
   || is_char 178 c || is_char 179 c || is_char 185 c
   || between 188 190 c
   || between 192 214 c || between 216 246 c || between 248 255 c)%bool.

Definition is_word (c : ascii) : bool := (is_alnum c || is_char 95 c)%bool.

(** [str.lower] on one code point below 256. *)
Definition lower_char (c : ascii) : ascii :=
  if (is_upper_az c || between 192 214 c || between 216 222 c)%bool
  then ascii_of_N (code c + 32) else c.

Definition lower (s : str) : str := map lower_char s.

Fixpoint lstrip (s : str) : str :=
  match s with
  | c :: s' => if is_space c then lstrip s' else s
  | [] => []
  end.

Definition rstrip (s : str) : str := rev (lstrip (rev s)).

Definition strip (s : str) : str := rstrip (lstrip s).

(** [s.split('\n')] *)
Fixpoint split_lines (s : str) : list str :=
  match s with
  | [] => [[]]
  | c :: s' =>
      if is_newline c then [] :: split_lines s'
      else match split_lines s' with
           | l :: ls => (c :: l) :: ls
           | [] => [[c]]
           end
  end.

(** ['\n'.join(lines)] *)
Fixpoint join_lines (lines : list str) : str :=
  match lines with
  | [] => []
  | [l] => l
  | l :: rest => l ++ newline :: join_lines rest
  end.

Definition str_eqb (a b : str) : bool :=
  if list_eq_dec ascii_dec a b then true else false.

Fixpoint starts_with (p s : str) : bool :=
  match p, s with
  | [], _ => true
  | a :: p', b :: s' => (Ascii.eqb a b && starts_with p' s')%bool
  | _ :: _, [] => false
  end.

(** [s.replace(old, new)] for a non-empty [old]: left to right, matches do
    not overlap.  [skip] counts the characters of a match still to drop. *)
Fixpoint replace_from (old new : str) (skip : nat) (s : str) : str :=
  match s with
  | [] => []
  | c :: s' =>
      match skip with
      | S k => replace_from old new k s'
      | O =>
          if starts_with old s
          then new ++ replace_from old new (length old - 1) s'
          else c :: replace_from old new 0 s'
      end
  end.

(** With an empty [old] Python puts [new] before every character and at
    the end. *)
Definition replace (old new s : str) : str :=
  match old with
  | [] => new ++ flat_map (fun c => c :: new) s
  | _ :: _ => replace_from old new 0 s
  end.

(** Truth value of a string: empty is false. *)
Definition truthy (s : str) : bool :=
  match s with [] => false | _ :: _ => true end.

End Py.

(** ** The regular-expression fragment of the numbering patterns *)

Module Re.
Import Py.

(** Every pattern of [question_patterns] is an anchored sequence of
    single-character items, each with a greedy quantifier, closed by the one
    capture group [(.+)].  *)
Inductive quant := Once | Opt | Star | Plus.

Record item := Item { accepts : ascii -> bool; quantifier : quant }.

Definition pattern := list item.

Section Backtracking.
(** [k] is the rest of the pattern; a result is the suffix at which the
    capture group starts. *)
Variable k : str -> option str.

Definition one (cls : ascii -> bool) (s : str) : option str :=
  match s with
  | c :: s' => if cls c then k s' else None
  | [] => None
  end.

Definition opt (cls : ascii -> bool) (s : str) : option str :=
  match s with
  | c :: s' =>
      if cls c
      then match k s' with Some r => Some r | None => k s end
      else k s
  | [] => k []
  end.

(** Greedy: one more character first, the shorter match on failure. *)
Fixpoint star (cls : ascii -> bool) (s : str) : option str :=
  match s with
  | c :: s' =>
      if cls c
      then match star cls s' with Some r => Some r | None => k s end
      else k s
  | [] => k []
  end.
End Backtracking.

(** [.] matches everything but a newline; [(.+)] needs one character and
    then takes all it can, with nothing after it to backtrack for. *)
Definition dot (c : ascii) : bool := negb (is_newline c).

Definition group_start (s : str) : option str :=
  match s with
  | c :: _ => if dot c then Some s else None
  | [] => None
  end.

(** The items of a pattern in order, ending in [k]. *)
Fixpoint run (k : str -> option str) (p : pattern) : str -> option str :=
  match p with
  | [] => k
  | Item cls Once :: p' => one (run k p') cls
  | Item cls Opt :: p' => opt (run k p') cls
  | Item cls Star :: p' => star (run k p') cls
  | Item cls Plus :: p' => one (star (run k p') cls) cls
  end.

Fixpoint take_dots (s : str) : str :=
  match s with
  | c :: s' => if dot c then c :: take_dots s' else []
  | [] => []
  end.

(** [pattern.match(s)]: [Some (group 0, group 1)] or [None]. *)
Definition rmatch (p : pattern) (s : str) : option (str * str) :=
  match run group_start p s with
  | Some rest =>
      let g := take_dots rest in
      Some (firstn (length s - length rest) s ++ g, g)
  | None => None
  end.

End Re.

(** ** WordQuestionExtractor *)

Module Word.
Import Py Re.

(** One entry of the list [extract_questions] returns: the dict with keys
    [number], [text], [full_content], [word_index]. *)
Record question := Question {
  number : str;
  text : str;
  full_content : str;
  word_index : nat
}.

Definition is_qs (c : ascii) : bool :=
  (is_char 113 c || is_char 115 c || is_char 81 c || is_char 83 c)%bool.

(** [[.\)]] *)
Definition is_dot_paren (c : ascii) : bool := (is_char 46 c || is_char 41 c)%bool.

(** [[:\.]] *)
Definition is_colon_dot (c : ascii) : bool := (is_char 58 c || is_char 46 c)%bool.

(** A literal letter under [re.IGNORECASE]. *)
Definition ci (l : string) (c : ascii) : bool :=
  match l with
  | String a _ => Ascii.eqb (lower_char c) (lower_char a)
  | EmptyString => false
  end.

(** [question_patterns], in order; [re.IGNORECASE] is folded into the
    classes: [[A-Z]] also takes a..z. *)
Definition question_patterns : list pattern :=
  [ (* ^\s*[qsQS]\d+[.\)]*\s*(.+) *)
    [Item is_space Star; Item is_qs Once; Item is_digit Plus;
     Item is_dot_paren Star; Item is_space Star];
    (* ^\s*\[?[qsQS]\d+\]?\s*(.+) *)
    [Item is_space Star; Item (is_char 91) Opt; Item is_qs Once;
     Item is_digit Plus; Item (is_char 93) Opt; Item is_space Star];
    (* ^\s*\(?[qsQS]\d+\)?\s*(.+) *)
    [Item is_space Star; Item (is_char 40) Opt; Item is_qs Once;
     Item is_digit Plus; Item (is_char 41) Opt; Item is_space Star];
    (* ^\s*\d+[.\)]\s*(.+) *)
    [Item is_space Star; Item is_digit Plus; Item is_dot_paren Once;
     Item is_space Star];
    (* ^\s*[A-Z]\d+[.\)]*\s*(.+) *)
    [Item is_space Star; Item is_letter_az Once; Item is_digit Plus;
     Item is_dot_paren Star; Item is_space Star];
    (* ^\s*Question\s+\d+[:\.]?\s*(.+) *)
    [Item is_space Star;
     Item (ci "Q") Once; Item (ci "u") Once; Item (ci "e") Once;
     Item (ci "s") Once; Item (ci "t") Once; Item (ci "i") Once;
     Item (ci "o") Once; Item (ci "n") Once;
     Item is_space Plus; Item is_digit Plus; Item is_colon_dot Opt;
     Item is_space Star];
    (* ^\s*[A-Z]+\d*[.\)]\s*(.+) *)
    [Item is_space Star; Item is_letter_az Plus; Item is_digit Star;
     Item is_dot_paren Once; Item is_space Star];
    (* ^\s*\d+\.\d+\s*(.+) *)
    [Item is_space Star; Item is_digit Plus; Item (is_char 46) Once;
     Item is_digit Plus; Item is_space Star] ].

(** The loop [for pattern in self.compiled_patterns: match = ...; if match:]
    shared by the three methods below. *)
Fixpoint first_match (ps : list pattern) (s : str) : option (str * str) :=
  match ps with
  | [] => None
  | p :: ps' =>
      match rmatch p s with
      | Some m => Some m
      | None => first_match ps' s
      end
  end.

Definition is_question_start (paragraph : str) : bool :=
  let paragraph := strip paragraph in
  if negb (truthy paragraph) then false
  else match first_match question_patterns paragraph with
       | Some _ => true
       | None => false
       end.

Definition extract_question_number (paragraph : str) : str :=
  let paragraph := strip paragraph in
  match first_match question_patterns paragraph with
  | Some (full_match, question_text) =>
      strip (replace question_text [] full_match)
  | None => []
  end.

Definition extract_question_text (paragraph : str) : str :=
  let paragraph := strip paragraph in
  match first_match question_patterns paragraph with
  | Some (_, question_text) => strip question_text
  | None => paragraph
  end.

(** The locals of [extract_questions]; [current_question] starts as
    [None]. *)
Record acc := Acc {
  questions : list question;
  current_question : option str;
  current_content : list str;
  current_number : str
}.

Definition start : acc := Acc [] None [] [].

(** [if current_question:] *)
Definition has_question (a : acc) : bool :=
  match current_question a with
  | Some q => truthy q
  | None => false
  end.

(** The [questions.append({...})] of both flushes. *)
Definition flush (a : acc) : list question :=
  if has_question a then
    questions a ++
      [Question (current_number a)
                (match current_question a with Some q => q | None => [] end)
                (join_lines (current_content a))
                (length (questions a))]
  else questions a.

Definition total_chars (content : list str) : Z :=
  Z.of_nat (list_sum (map (@length ascii) content)).

(** The [for] loop; returning without recursing is the [break]. *)
Fixpoint scan (content_limit_chars : Z) (paragraphs : list str) (a : acc) : acc :=
  match paragraphs with
  | [] => a
  | para :: rest =>
      if is_question_start para then
        scan content_limit_chars rest
             (Acc (flush a)
                  (Some (extract_question_text para))
                  [para]
                  (extract_question_number para))
      else if (has_question a && truthy para)%bool then
        let content := current_content a ++ [para] in
        let a' := Acc (questions a) (current_question a) content (current_number a) in
        if (content_limit_chars <? total_chars content)%Z then a'
        else scan content_limit_chars rest a'
      else scan content_limit_chars rest a
  end.

(** [[p.strip() for p in docx_text.split('\n') if p.strip()]] *)
Definition paragraphs_of (docx_text : str) : list str :=
  map strip (filter (fun p => truthy (strip p)) (split_lines docx_text)).

Definition extract_questions (content_limit_chars : Z) (docx_text : str)
  : list question :=
  flush (scan content_limit_chars (paragraphs_of docx_text) start).

End Word.

(** ** XMLQuestionExtractor *)

Module Xml.
Import Py.

(** An lxml element: tag, attributes, the text before the first child, the
    child elements and the text after the closing tag.  Comments and
    processing instructions are left out: [//title[@id]] never selects
    them and they are nobody's parent. *)
#[local] Unset Elimination Schemes.
Inductive element := Element {
  tag : str;
  attrib : list (str * str);
  etext : option str;
  children : list element;
  tail : option str
}.
#[local] Set Elimination Schemes.

(** One entry of the list [extract_questions] returns: the dict with keys
    [id], [text], [full_section], [xml_index]. *)
Record question := Question {
  id : str;
  text : str;
  full_section : str;
  xml_index : nat
}.

(** [element.get(name)] *)
Fixpoint get (name : str) (attrs : list (str * str)) : option str :=
  match attrs with
  | [] => None
  | (k, v) :: rest => if str_eqb k name then Some v else get name rest
  end.

Definition title_tag : str := lit "title".
Definition id_attr : str := lit "id".

(** The node test and predicate of [//title[@id]]. *)
Definition is_title (e : element) : bool :=
  (str_eqb (tag e) title_tag &&
   match get id_attr (attrib e) with Some _ => true | None => false end)%bool.

(** [root.xpath('//title[@id]')]: the selected elements in document order,
    each with its chain of [getparent()] results, nearest first. *)
Fixpoint select_titles (ancestors : list element) (e : element)
  : list (element * list element) :=
  (if is_title e then [(e, ancestors)] else []) ++
  flat_map (select_titles (e :: ancestors)) (children e).

Definition section_tags : list str :=
  [lit "suspend"; lit "page"; lit "question"; lit "exec"].

(** [parent.tag not in ['suspend', 'page', 'question', 'exec']], negated. *)
Definition is_section_tag (t : str) : bool := existsb (str_eqb t) section_tags.

(** The [while] loop over [getparent()]: where it stops, [None] when it
    runs off the root. *)
Fixpoint enclosing_section (chain : list element) : option element :=
  match chain with
  | [] => None
  | parent :: up =>
      if is_section_tag (tag parent) then Some parent
      else enclosing_section up
  end.

Section Extractor.
(** [etree.tostring(_, encoding='unicode', pretty_print=True)] *)
Variable tostring : element -> str.

(** The element whose serialization becomes [full_section]. *)
Definition section_source (title : element) (ancestors : list element) : element :=
  match enclosing_section ancestors with
  | Some parent => parent
  | None =>
      match ancestors with
      | context_parent :: _ => context_parent
      | [] => title
      end
  end.

(** The [for title in title_elements] loop; [seen] is
    [seen_question_ids]. *)
Fixpoint collect (titles : list (element * list element))
                 (seen : list str) (questions : list question)
  : list question :=
  match titles with
  | [] => questions
  | (title, ancestors) :: rest =>
      let question_id :=
        match get id_attr (attrib title) with Some v => v | None => [] end in
      let question_text :=
        match etext title with Some t => t | None => [] end in
      if (existsb (str_eqb question_id) seen
          || negb (truthy (strip question_text)))%bool
      then collect rest seen questions
      else
        collect rest (question_id :: seen)
          (questions ++
             [Question question_id (strip question_text)
                       (tostring (section_source title ancestors))
                       (length questions)])
  end.

(** [extract_questions] after [etree.fromstring]; [None] is a document the
    parser rejects, which the [except] turns into the empty list. *)
Definition extract_questions (parsed : option element) : list question :=
  match parsed with
  | Some root => collect (select_titles [] root) [] []
  | None => []
  end.

End Extractor.
End Xml.

(** ** QuestionMatcher *)

Module Matcher.
Import Py.

(** [re.sub(r'\s+', ' ', text)]; [in_run] says the previous character was
    whitespace. *)
Fixpoint collapse_spaces (in_run : bool) (s : str) : str :=
  match s with
  | [] => []
  | c :: s' =>
      if is_space c then
        if in_run then collapse_spaces true s'
        else ascii_of_N 32 :: collapse_spaces true s'
      else c :: collapse_spaces false s'
  end.

(** Two characters that a literal matches alike under [re.IGNORECASE]. *)
Definition same_letter (a b : ascii) : bool :=
  Ascii.eqb (lower_char a) (lower_char b).

Fixpoint starts_with_ci (p s : str) : bool :=
  match p, s with
  | [], _ => true
  | a :: p', b :: s' => (same_letter a b && starts_with_ci p' s')%bool
  | _ :: _, [] => false
  end.

(** [re.sub(artifact, '', text, flags=re.IGNORECASE)] for a literal
    [artifact]. *)
Fixpoint delete_from (artifact : str) (skip : nat) (s : str) : str :=
  match s with
  | [] => []
  | c :: s' =>
      match skip with
      | S k => delete_from artifact k s'
      | O =>
          if starts_with_ci artifact s
          then delete_from artifact (length artifact - 1) s'
          else c :: delete_from artifact 0 s'
      end
  end.

Definition artifacts : list str :=
  [lit "(please select one)";
   lit "(select all that apply)";
   lit "(check all that apply)";
   lit "(single response)";
   lit "(multiple response)"].

(** [re.sub(r'[^\w\s\?]', ' ', text)] *)
Definition blank_punctuation (s : str) : str :=
  map (fun c => if (is_word c || is_space c || is_char 63 c)%bool
                then c else ascii_of_N 32) s.

Definition normalize_text (text : str) : str :=
  let text := strip (collapse_spaces false text) in
  let text := fold_left (fun t artifact => delete_from artifact 0 t) artifacts text in
  let text := blank_punctuation text in
  let text := strip (collapse_spaces false text) in
  lower text.

(** Python's [int / float] for the integers met here. *)
Definition float_of_int (z : Z) : float :=
  if (z <? 0)%Z then PrimFloat.opp (PrimFloat.of_uint63 (Uint63.of_Z (- z)))
  else PrimFloat.of_uint63 (Uint63.of_Z z).

(** The binary64 values of the literals [0.3] and [0.4]. *)
Definition weight_03 : float := 0x1.3333333333333p-2%float.
Definition weight_04 : float := 0x1.999999999999ap-2%float.

(** The dict appended to [matches]. *)
Record pair := Pair {
  word_question : Word.question;
  xml_question : Xml.question;
  similarity_score : float
}.

(** The dict [match_questions] returns. *)
Record alignment := Alignment {
  matches : list pair;
  unmatched_word : list Word.question;
  unmatched_xml : list Xml.question
}.

(** What a call comes to: the returned value, or the [ValueError] of
    [list.remove]. *)
Inductive outcome (A : Type) :=
| Returns (a : A)
| ValueError.
Arguments ValueError {A}.

Definition xml_eq_dec (a b : Xml.question) : {a = b} + {a <> b}.
Proof.
  decide equality; try apply Nat.eq_dec; apply (list_eq_dec ascii_dec).
Defined.

(** [pool.remove(x)]: the first element equal to [x] goes; [None] is the
    [ValueError] when there is none. *)
Fixpoint list_remove (x : Xml.question) (pool : list Xml.question)
  : option (list Xml.question) :=
  match pool with
  | [] => None
  | y :: rest =>
      if xml_eq_dec x y then Some rest
      else match list_remove x rest with
           | Some rest' => Some (y :: rest')
           | None => None
           end
  end.

Section Scoring.
(** [fuzz.ratio], [fuzz.partial_ratio], [fuzz.token_sort_ratio]: each an
    integer percentage. *)
Variables fuzz_ratio fuzz_partial_ratio fuzz_token_sort_ratio : str -> str -> Z.

Variable similarity_threshold : float.

Definition calculate_similarity (text1 text2 : str) : float :=
  let norm1 := normalize_text text1 in
  let norm2 := normalize_text text2 in
  let ratio := (float_of_int (fuzz_ratio norm1 norm2) / 100)%float in
  let partial_ratio := (float_of_int (fuzz_partial_ratio norm1 norm2) / 100)%float in
  let token_sort_ratio :=
    (float_of_int (fuzz_token_sort_ratio norm1 norm2) / 100)%float in
  (ratio * weight_03 + partial_ratio * weight_03 + token_sort_ratio * weight_04)%float.

(** The [for xml_question in xml_questions] loop, on the pair
    [(best_match, best_score)]. *)
Fixpoint best_of (word_text : str) (xml_questions : list Xml.question)
                 (best : option Xml.question * float)
  : option Xml.question * float :=
  match xml_questions with
  | [] => best
  | xml_question :: rest =>
      let score := calculate_similarity word_text (Xml.text xml_question) in
      if (snd best <? score)%float
      then best_of word_text rest (Some xml_question, score)
      else best_of word_text rest best
  end.

(** The returned tuple keeps [best_match] as the loop left it, [None]
    included. *)
Definition find_best_match (word_question : Word.question)
                           (xml_questions : list Xml.question)
  : option (option Xml.question * float) :=
  let best := best_of (Word.text word_question) xml_questions (None, 0%float) in
  if (similarity_threshold <=? snd best)%float then Some best else None.

(** The [for word_q in word_questions] loop. *)
Fixpoint match_loop (word_questions : list Word.question) (a : alignment)
  : outcome alignment :=
  match word_questions with
  | [] => Returns a
  | word_q :: rest =>
      match find_best_match word_q (unmatched_xml a) with
      | Some (best_match, score) =>
          match best_match with
          | Some xml_q =>
              match list_remove xml_q (unmatched_xml a) with
              | Some pool =>
                  match_loop rest
                    (Alignment (matches a ++ [Pair word_q xml_q score])
                               (unmatched_word a) pool)
              | None => ValueError
              end
          | None => ValueError
          end
      | None =>
          match_loop rest
            (Alignment (matches a) (unmatched_word a ++ [word_q]) (unmatched_xml a))
      end
  end.

Definition match_questions (word_questions : list Word.question)
                           (xml_questions : list Xml.question)
  : outcome alignment :=
  match_loop word_questions (Alignment [] [] xml_questions).

End Scoring.
End Matcher.

(** ** QuestionSplitter *)

Module Splitter.
Import Py Matcher.

Section Pipeline.
Variables fuzz_ratio fuzz_partial_ratio fuzz_token_sort_ratio : str -> str -> Z.
(** [etree.fromstring] and [etree.tostring]. *)
Variable fromstring : str -> option Xml.element.
Variable tostring : Xml.element -> str.
Variable similarity_threshold : float.
Variable content_limit : Z.

(** The returned dict: the alignment and its [survey_title]. *)
Definition process_survey_pair (survey_title word_text xml_content : str)
  : outcome (str * alignment) :=
  let word_questions := Word.extract_questions content_limit word_text in
  let xml_questions := Xml.extract_questions tostring (fromstring xml_content) in
  match word_questions with
  | [] => Returns (survey_title, Alignment [] [] xml_questions)
  | _ :: _ =>
      match xml_questions with
      | [] => Returns (survey_title, Alignment [] word_questions [])
      | _ :: _ =>
          match match_questions fuzz_ratio fuzz_partial_ratio
                  fuzz_token_sort_ratio similarity_threshold
                  word_questions xml_questions with
          | Returns results => Returns (survey_title, results)
          | ValueError => ValueError
          end
      end
  end.

End Pipeline.
End Splitter.

(** ** Vocabulary of the statements *)

Module Vocabulary.
Import Py Matcher.

(** Two question dicts that differ at most in their content block. *)
Definition same_but_content_w (w w' : Word.question) : Prop :=
  Word.number w = Word.number w' /\ Word.text w = Word.text w' /\
  Word.word_index w = Word.word_index w'.

Definition same_but_content_x (x x' : Xml.question) : Prop :=
  Xml.id x = Xml.id x' /\ Xml.text x = Xml.text x' /\
  Xml.xml_index x = Xml.xml_index x'.

Definition same_pair (m m' : pair) : Prop :=
  same_but_content_w (word_question m) (word_question m') /\
  same_but_content_x (xml_question m) (xml_question m') /\
  similarity_score m = similarity_score m'.

Definition same_alignment (a a' : alignment) : Prop :=
  Forall2 same_pair (matches a) (matches a') /\
  Forall2 same_but_content_w (unmatched_word a) (unmatched_word a') /\
  Forall2 same_but_content_x (unmatched_xml a) (unmatched_xml a').

Definition same_outcome (o o' : outcome alignment) : Prop :=
  match o, o' with
  | Returns a, Returns a' => same_alignment a a'
  | ValueError, ValueError => True
  | _, _ => False
  end.

(** [t] is what is left of [s] after some prefix. *)
Definition suffix (t s : str) : Prop := exists pre, s = pre ++ t.

(** The last character, if any, is not whitespace. *)
Fixpoint ends_clean (s : str) : bool :=
  match s with
  | [] => true
  | [c] => negb (is_space c)
  | _ :: s' => ends_clean s'
  end.

(** A pattern whose last item before the capture group is [\s*]. *)
Definition ends_in_spaces (p : Re.pattern) : Prop :=
  exists items, p = items ++ [Re.Item is_space Re.Star].

(** A unit with a question text and a content block. *)
Definition nonempty_word (q : Word.question) : Prop :=
  Word.text q <> [] /\ Word.full_content q <> [].

Definition nonempty_xml (q : Xml.question) : Prop :=
  Xml.text q <> [] /\ Xml.full_section q <> [].

(** A unit opened by a paragraph that matches a numbering pattern: its
    number and text are read off that paragraph, which is the first line of
    its content. *)
Definition opened_by_pattern (q : Word.question) : Prop :=
  exists p rest,
    Word.is_question_start p = true /\
    Word.number q = Word.extract_question_number p /\
    Word.text q = Word.extract_question_text p /\
    Word.full_content q = join_lines (p :: rest).

(** The loop invariant of [extract_questions]: finished units are not
    empty and were opened by a pattern, and so was the open question, whose
    own line is first in [current_content]. *)
Definition acc_ok (a : Word.acc) : Prop :=
  Forall (fun q => nonempty_word q /\ opened_by_pattern q) (Word.questions a) /\
  (Word.has_question a = true ->
   exists p rest,
     Word.current_content a = p :: rest /\
     Word.is_question_start p = true /\
     Word.current_question a = Some (Word.extract_question_text p) /\
     Word.current_number a = Word.extract_question_number p).

(** A line as [paragraphs_of] yields them: trimmed, not empty, without a
    line break. *)
Definition clean_line (p : str) : Prop :=
  strip p = p /\ p <> [] /\ Forall (fun c => is_newline c = false) p.

(** A question line [Q<digits>. <text>] and its label. *)
Definition q_label (digits : str) : str := lit "Q" ++ digits ++ lit ".".

Definition q_line (digits text : str) : str := q_label digits ++ lit " " ++ text.

(** The paragraphs of a document made of question lines, each followed by
    one line of body text. *)
Definition numbered_paragraphs (qb : list (str * str)) : list str :=
  flat_map (fun '(q, b) => [q; b]) qb.

(** The units such a document should yield, counted from [i]. *)
Fixpoint numbered_units (i : nat) (qb : list (str * str)) : list Word.question :=
  match qb with
  | [] => []
  | (q, b) :: rest =>
      Word.Question (Word.extract_question_number q)
                    (Word.extract_question_text q)
                    (join_lines [q; b]) i
      :: numbered_units (S i) rest
  end.

(** What the extractor reads off a title element. *)
Definition title_id (t : Xml.element) : str :=
  match Xml.get Xml.id_attr (Xml.attrib t) with Some v => v | None => [] end.

Definition title_text (t : Xml.element) : str :=
  strip (match Xml.etext t with Some x => x | None => [] end).

(** The unit of a title element with its parent chain, as the [idx]-th
    accepted. *)
Definition unit_of (tostring : Xml.element -> str)
           (ta : Xml.element * list Xml.element) (idx : nat) : Xml.question :=
  Xml.Question (title_id (fst ta)) (title_text (fst ta))
               (tostring (Xml.section_source (fst ta) (snd ta))) idx.

Definition with_id (i : str) (titles : list (Xml.element * list Xml.element))
  : list (Xml.element * list Xml.element) :=
  filter (fun ta => str_eqb (title_id (fst ta)) i) titles.

Definition units_with_id (i : str) (qs : list Xml.question) : list Xml.question :=
  filter (fun q => str_eqb (Xml.id q) i) qs.

Definition has_text (ta : Xml.element * list Xml.element) : bool :=
  truthy (title_text (fst ta)).

(** The title elements the loop accepts, in order: those it does not skip
    as a duplicate or for want of text. *)
Fixpoint accepted_titles (titles : list (Xml.element * list Xml.element))
                         (seen : list str)
  : list (Xml.element * list Xml.element) :=
  match titles with
  | [] => []
  | ta :: rest =>
      if (existsb (str_eqb (title_id (fst ta))) seen || negb (has_text ta))%bool
      then accepted_titles rest seen
      else ta :: accepted_titles rest (title_id (fst ta) :: seen)
  end.

(** Their units, indexed from [i]. *)
Fixpoint units_from (tostring : Xml.element -> str) (i : nat)
                    (accepted : list (Xml.element * list Xml.element))
  : list Xml.question :=
  match accepted with
  | [] => []
  | ta :: rest => unit_of tostring ta i :: units_from tostring (S i) rest
  end.

(** C6 as the specification words it: of two or more title elements with one
    identifier, the first in document order gives the one unit. *)
Definition first_occurrence_wins (tostring : Xml.element -> str)
           (root : Xml.element) : Prop :=
  forall i first others,
    with_id i (Xml.select_titles [] root) = first :: others ->
    others <> [] ->
    exists idx,
      units_with_id i (Xml.extract_questions tostring (Some root))
      = [unit_of tostring first idx].

(** [ancestors] is the chain of parents of [e] up to [root], nearest
    first. *)
Fixpoint parent_chain (root e : Xml.element) (ancestors : list Xml.element) : Prop :=
  match ancestors with
  | [] => e = root
  | parent :: up => In e (Xml.children parent) /\ parent_chain root parent up
  end.

(** The section-boundary tags as the specification names them. *)
Definition section_boundary (t : str) : Prop :=
  t = lit "suspend" \/ t = lit "page" \/ t = lit "question" \/ t = lit "exec".

(** C8 in the specification's words: the nearest ancestor with a tag of the
    section-boundary set; failing that the immediate parent; failing that
    the title itself. *)
Definition fallback_choice (chosen title : Xml.element)
           (ancestors : list Xml.element) : Prop :=
  (exists nearer farther,
      ancestors = nearer ++ chosen :: farther /\
      section_boundary (Xml.tag chosen) /\
      Forall (fun a => ~ section_boundary (Xml.tag a)) nearer)
  \/
  (Forall (fun a => ~ section_boundary (Xml.tag a)) ancestors /\
   exists up, ancestors = chosen :: up)
  \/
  (ancestors = [] /\ chosen = title).

(** [etree.tostring(element, encoding='unicode', pretty_print=True)] as lxml
    puts it together: what libxml2 writes for the element and its
    descendants ([node]); then, [with_tail] being [True] unless the caller
    says otherwise, the text between the closing tag and the next node, as
    libxml2 writes text ([chars]); then the line break of [pretty_print]. *)
Section Serialization.
Variable node : Xml.element -> str.
Variable chars : str -> str.

Definition tail_text (e : Xml.element) : str :=
  match Xml.tail e with Some t => chars t | None => [] end.

Definition tostring_with_tail (e : Xml.element) : str :=
  node e ++ tail_text e ++ [newline].

(** The serialized subtree of the specification: the element and its
    descendants and nothing after them ([with_tail=False]). *)
Definition serialized_subtree (e : Xml.element) : str :=
  node e ++ [newline].

End Serialization.

(** The weighted average of [calculate_similarity] as a function of the
    three percentages. *)
Definition weighted (r p t : Z) : float :=
  (float_of_int r / 100 * weight_03 + float_of_int p / 100 * weight_03
   + float_of_int t / 100 * weight_04)%float.

Definition unit_interval (f : float) : bool :=
  ((0 <=? f)%float && (f <=? 1)%float)%bool.

Definition percentages : list Z := map Z.of_nat (seq 0 101).

Definition every_percentage (P : Z -> bool) : bool := forallb P percentages.

(** The structured units come in the order of their [xml_index]. *)
Definition in_index_order (pool : list Xml.question) : Prop :=
  StronglySorted (fun x y => Xml.xml_index x < Xml.xml_index y) pool.

End Vocabulary.

(** ** Inputs of the examples *)

Module Samples.
Import Py.

(** A stand-in for the three [fuzz] ratios: 100 on equal strings, 0
    otherwise.  The examples compare only equal texts and texts with no
    character in common, where [fuzzywuzzy] returns the same. *)
Definition fuzz_equal (a b : str) : Z := if str_eqb a b then 100%Z else 0%Z.

Definition word_abc : Word.question :=
  Word.Question (lit "Q1.") (lit "abc") (lit "Q1. abc") 0.

Definition word_abc_long : Word.question :=
  Word.Question (lit "Q1.") (lit "abc") (lit "Q1. abc and a line of options") 0.

Definition word_def : Word.question :=
  Word.Question (lit "Q2.") (lit "def") (lit "Q2. def") 1.

Definition xml_abc : Xml.question :=
  Xml.Question (lit "q1") (lit "abc") (lit "<question><title id=q1>abc</title></question>") 0.

Definition xml_abc_page : Xml.question :=
  Xml.Question (lit "q1") (lit "abc") (lit "<page><title id=q1>abc</title></page>") 0.

Definition xml_xyz : Xml.question :=
  Xml.Question (lit "q2") (lit "xyz") (lit "<question><title id=q2>xyz</title></question>") 1.

(** A plain serializer for the examples, standing in for lxml's. *)
Fixpoint serialize (e : Xml.element) : str :=
  lit "<" ++ Xml.tag e ++ lit ">" ++
  match Xml.etext e with Some t => t | None => [] end ++
  flat_map serialize (Xml.children e) ++
  lit "</" ++ Xml.tag e ++ lit ">" ++
  match Xml.tail e with Some t => t | None => [] end.

Definition title_blank : Xml.element :=
  Xml.Element (lit "title") [(lit "id", lit "q1")] (Some (lit "  ")) [] None.

Definition title_age : Xml.element :=
  Xml.Element (lit "title") [(lit "id", lit "q1")] (Some (lit "Age?")) [] None.

Definition question_blank : Xml.element :=
  Xml.Element (lit "question") [] None [title_blank] None.

Definition radio_age : Xml.element :=
  Xml.Element (lit "radio") [] None [title_age] None.

Definition page_age : Xml.element :=
  Xml.Element (lit "page") [] None [radio_age] None.

(** Two title elements with the identifier [q1]; the first has only
    blanks for text. *)
Definition duplicate_ids : Xml.element :=
  Xml.Element (lit "survey") [] None [question_blank; page_age] None.

(** Two numbered questions, each with one line of body text. *)
Definition two_numbered : list (str * str) :=
  [(lit "Q1. a", lit "bbbbbbbb"); (lit "Q2. c", lit "d")].

Definition two_questions : str :=
  join_lines [lit "Q1. a"; lit "bbbbbbbb"; lit "Q2. c"; lit "d"].

(** The same with a first body line of 2000 characters. *)
Definition long_first_answer : str :=
  join_lines [lit "Q1. a"; repeat (ascii_of_N 98) 2000; lit "Q2. c"; lit "d"].

(** The binary64 value of the default threshold [0.8]. *)
Definition default_threshold : float := 0x1.999999999999ap-1%float.

(** A stand-in for what libxml2 writes for an element and its descendants:
    [serialize] without the text after the closing tag. *)
Definition node_only (e : Xml.element) : str :=
  serialize (Xml.Element (Xml.tag e) (Xml.attrib e) (Xml.etext e)
               (Xml.children e) None).

(** [<survey><page><title id="q1">Age?</title></page>trailing</survey>] *)
Definition page_with_tail : Xml.element :=
  Xml.Element (lit "page") [] None [title_age] (Some (lit "trailing")).

Definition survey_with_tail : Xml.element :=
  Xml.Element (lit "survey") [] None [page_with_tail] None.

End Samples.

(** ** QuestionSplitter.create_training_pairs and the loop of main *)

Module Corpus.
Import Py Matcher.

(** The [metadata] dict of a training pair. *)
Record metadata := Metadata {
  word_index : nat;
  xml_index : nat;
  xml_id : str
}.

(** The dict appended to [training_pairs]. *)
Record training_pair := TrainingPair {
  survey_title : str;
  question_number : str;
  natural_language : str;
  xml_code : str;
  similarity_score : float;
  pair_metadata : metadata
}.

Definition create_training_pairs (survey_title : str) (matches : list pair)
  : list training_pair :=
  map (fun m =>
         let word_q := word_question m in
         let xml_q := xml_question m in
         TrainingPair survey_title
                      (Word.number word_q)
                      (Word.full_content word_q)
                      (Xml.full_section xml_q)
                      (Matcher.similarity_score m)
                      (Metadata (Word.word_index word_q)
                                (Xml.xml_index xml_q)
                                (Xml.id xml_q)))
      matches.

(** One entry of the [training_data] that [main] loads: the keys
    [survey_title], [natural_language], [xml_code]. *)
Record survey_data := SurveyData {
  sd_survey_title : str;
  sd_natural_language : str;
  sd_xml_code : str
}.

Section Main.
Variables fuzz_ratio fuzz_partial_ratio fuzz_token_sort_ratio : str -> str -> Z.
Variable fromstring : str -> option Xml.element.
Variable tostring : Xml.element -> str.
(** [args.threshold] *)
Variable threshold : float.

(** [QuestionSplitter(similarity_threshold=args.threshold)]: the content
    limit keeps its default. *)
Definition splitter_process :=
  Splitter.process_survey_pair fuzz_ratio fuzz_partial_ratio
    fuzz_token_sort_ratio fromstring tostring threshold 2000%Z.

(** The loop [for survey_data in training_data] of [main], on the two
    lists it grows; an exception of [process_survey_pair] ends it. *)
Fixpoint main_loop (training_data : list survey_data)
                   (all_training_pairs : list training_pair)
                   (debug_data : list (str * alignment))
  : outcome (list training_pair * list (str * alignment)) :=
  match training_data with
  | [] => Returns (all_training_pairs, debug_data)
  | sd :: rest =>
      match splitter_process (sd_survey_title sd) (sd_natural_language sd)
              (sd_xml_code sd) with
      | Returns results =>
          let all_training_pairs :=
            match matches (snd results) with
            | [] => all_training_pairs
            | _ :: _ =>
                all_training_pairs ++
                create_training_pairs (sd_survey_title sd) (matches (snd results))
            end in
          main_loop rest all_training_pairs (debug_data ++ [results])
      | ValueError => ValueError
      end
  end.

End Main.

(** The three sums of the summary [main] prints. *)
Definition total_matches (debug_data : list (str * alignment)) : nat :=
  list_sum (map (fun survey => length (matches (snd survey))) debug_data).

Definition total_unmatched_word (debug_data : list (str * alignment)) : nat :=
  list_sum (map (fun survey => length (unmatched_word (snd survey))) debug_data).

Definition total_unmatched_xml (debug_data : list (str * alignment)) : nat :=
  list_sum (map (fun survey => length (unmatched_xml (snd survey))) debug_data).

End Corpus.

(** ** More vocabulary *)

Module Notions.
Import Py.

(** No two whitespace characters side by side. *)
Fixpoint single_spaced (s : str) : bool :=
  match s with
  | c :: (d :: _) as s' => (negb (is_space c && is_space d) && single_spaced s')%bool
  | _ => true
  end.

(** The first character, if any, is not whitespace. *)
Definition starts_clean (s : str) : bool :=
  match s with
  | c :: _ => negb (is_space c)
  | [] => true
  end.

(** A character [normalize_text] can leave: a lower-case word character,
    the blank or the question mark. *)
Definition normal_char (c : ascii) : bool :=
  ((is_word c || is_char 32 c || is_char 63 c) && Ascii.eqb (lower_char c) c)%bool.

(** [l] keeps some elements of [m], in their order. *)
Inductive subseq {A : Type} : list A -> list A -> Prop :=
| subseq_nil : subseq [] []
| subseq_keep x l m : subseq l m -> subseq (x :: l) (x :: m)
| subseq_drop x l m : subseq l m -> subseq l (x :: m).

(** [m] deals its elements, in order, to [l1] and [l2]. *)
Inductive dealt {A : Type} : list A -> list A -> list A -> Prop :=
| dealt_nil : dealt [] [] []
| dealt_left x l1 l2 m : dealt l1 l2 m -> dealt (x :: l1) l2 (x :: m)
| dealt_right x l1 l2 m : dealt l1 l2 m -> dealt l1 (x :: l2) (x :: m).

(** The lines of a content block but the last. *)
Definition but_last (lines : list str) : list str := removelast lines.

(** A content block within the limit, up to its last line: one or two
    lines, or all lines but the last within [limit]. *)
Definition overshoots_by_a_line (limit : Z) (content : str) : Prop :=
  let lines := split_lines content in
  length lines <= 2 \/ (Word.total_chars (but_last lines) <= limit)%Z.

(** A content block that fits: the question line alone, or all lines
    within [limit]. *)
Definition fits (limit : Z) (content : str) : Prop :=
  let lines := split_lines content in
  length lines <= 1 \/ (Word.total_chars lines <= limit)%Z.

End Notions.

(** ** Documents of numbered questions *)

Module Documents.
Import Py Word Vocabulary.

(** A question text as it is written after the label: trimmed, on one
    line, and starting with a character that cannot be read as part of the
    label or found in it. *)
Definition plain_text (text : str) : Prop :=
  match text with
  | c :: _ =>
      is_space c = false /\ is_digit c = false /\ is_dot_paren c = false /\
      Ascii.eqb c (ascii_of_N 81) = false
  | [] => False
  end /\
  ends_clean text = true /\
  Forall (fun x => is_newline x = false) text.

(** A written question: the digits of its label, its text and one line of
    body. *)
Definition entry : Type := (str * str * str)%type.

Definition entry_lines (e : entry) : list str :=
  let '(digits, text, body) := e in [q_line digits text; body].

Definition document (entries : list entry) : str :=
  join_lines (flat_map entry_lines entries).

Definition entry_unit (i : nat) (e : entry) : question :=
  let '(digits, text, body) := e in
  Question (q_label digits) text (join_lines [q_line digits text; body]) i.

Fixpoint entry_units (i : nat) (entries : list entry) : list question :=
  match entries with
  | [] => []
  | e :: rest => entry_unit i e :: entry_units (S i) rest
  end.

(** An entry the segmenter can take back as written, under the limit. *)
Definition written (limit : Z) (e : entry) : Prop :=
  let '(digits, text, body) := e in
  digits <> [] /\ Forall (fun d => is_digit d = true) digits /\
  plain_text text /\
  clean_line body /\ is_question_start body = false /\
  (total_chars [q_line digits text; body] <= limit)%Z.

(** The state of the loop of [extract_questions] while it runs: closed
    units fit, and so does the open one. *)
Definition within (limit : Z) (content : list str) : Prop :=
  length content <= 1 \/ (total_chars content <= limit)%Z.

Definition running (limit : Z) (a : acc) : Prop :=
  Forall (fun q => Notions.fits limit (full_content q)) (questions a) /\
  Forall clean_line (current_content a) /\
  (has_question a = true -> current_content a <> [] /\ within limit (current_content a)).

(** The state after the [break]: the open unit is one line over. *)
Definition broken (limit : Z) (a : acc) : Prop :=
  Forall (fun q => Notions.fits limit (full_content q)) (questions a) /\
  has_question a = true /\
  exists content para,
    current_content a = content ++ [para] /\
    Forall clean_line (content ++ [para]) /\
    within limit content.

Definition sample_entries : list entry :=
  [ (lit "1", lit "Age?", lit "Years"); (lit "2", lit "City?", lit "Name it") ].

(** A stand-in for [etree.fromstring] in the examples: every text but the
    empty one parses to the same small tree. *)
Definition parse_page (xml_content : str) : option Xml.element :=
  if truthy xml_content then Some Samples.page_age else None.

Definition sample_survey : Corpus.survey_data :=
  Corpus.SurveyData (lit "Census") (document sample_entries) (lit "<page/>").

Definition empty_survey : Corpus.survey_data :=
  Corpus.SurveyData (lit "Blank") (lit "no question here") [].

(** What [process_survey_pair] makes of [sample_survey] with the stand-ins
    of the examples. *)
Definition sample_alignment : Matcher.alignment :=
  Matcher.Alignment
    [Matcher.Pair
       (Question (lit "Q1.") (lit "Age?")
          (join_lines [lit "Q1. Age?"; lit "Years"]) 0)
       (Xml.Question (lit "q1") (lit "Age?")
          (Samples.serialize Samples.page_age) 0)
       1%float]
    [Question (lit "Q2.") (lit "City?")
       (join_lines [lit "Q2. City?"; lit "Name it"]) 1]
    [].

End Documents.

(** * Properties *)

(** ** Order of binary64 comparisons

    Python's [<] and [>=] on floats are the IEEE comparisons; what the
    matcher needs of them follows from their specification. *)

Module FloatOrder.

Ltac sf_cases :=
  repeat match goal with
         | x : spec_float |- _ => destruct x
         | b : bool |- _ => destruct b
         end;
  cbn in *; try congruence;
  repeat match goal with
         | H : context [Pos.compare_cont Eq ?a ?b] |- _ =>
             change (Pos.compare_cont Eq a b) with (Pos.compare a b) in H
         | |- context [Pos.compare_cont Eq ?a ?b] =>
             change (Pos.compare_cont Eq a b) with (Pos.compare a b)
         end;
  repeat match goal with
         | H : context [Z.compare ?a ?b] |- _ =>
             destruct (Z.compare_spec a b); cbn in *; try congruence
         | |- context [Z.compare ?a ?b] =>
             destruct (Z.compare_spec a b); cbn in *; try congruence
         | H : context [Pos.compare ?a ?b] |- _ =>
             destruct (Pos.compare_spec a b); cbn in *; try congruence
         | |- context [Pos.compare ?a ?b] =>
             destruct (Pos.compare_spec a b); cbn in *; try congruence
         end;
  subst; try congruence; try lia.

Lemma SFltb_trans a b c :
  SFltb a b = true -> SFltb b c = true -> SFltb a c = true.
Proof. unfold SFltb, SFcompare. intros; sf_cases. Qed.

Lemma SFltb_irrefl a : SFltb a a = false.
Proof. unfold SFltb, SFcompare. sf_cases. Qed.

Lemma SFleb_ltb_trans a b c :
  SFleb a b = true -> SFltb b c = true -> SFltb a c = true.
Proof. unfold SFltb, SFleb, SFcompare. intros; sf_cases. Qed.

Lemma SFltb_leb_trans a b c :
  SFltb a b = true -> SFleb b c = true -> SFltb a c = true.
Proof. unfold SFltb, SFleb, SFcompare. intros; sf_cases. Qed.

Lemma SFleb_trans a b c :
  SFleb a b = true -> SFleb b c = true -> SFleb a c = true.
Proof. unfold SFleb, SFcompare. intros; sf_cases. Qed.

Lemma SFleb_total a b :
  SFleb a a = true -> SFleb b b = true -> SFltb a b = false -> SFleb b a = true.
Proof. unfold SFltb, SFleb, SFcompare. intros; sf_cases. Qed.

Lemma SFleb_number a b : SFleb a b = true -> SFleb b b = true.
Proof. unfold SFleb, SFcompare. intros; sf_cases. Qed.

Lemma SFltb_number a b : SFltb a b = true -> SFleb b b = true.
Proof. unfold SFltb, SFleb, SFcompare. intros; sf_cases. Qed.

Lemma SFltb_not_leb a b : SFltb a b = true -> SFleb b a = false.
Proof. unfold SFltb, SFleb, SFcompare. intros; sf_cases. Qed.

Lemma ltb_trans a b c :
  (a <? b)%float = true -> (b <? c)%float = true -> (a <? c)%float = true.
Proof. rewrite !ltb_spec. apply SFltb_trans. Qed.

Lemma ltb_irrefl a : (a <? a)%float = false.
Proof. rewrite ltb_spec. apply SFltb_irrefl. Qed.

Lemma leb_ltb_trans a b c :
  (a <=? b)%float = true -> (b <? c)%float = true -> (a <? c)%float = true.
Proof. rewrite !ltb_spec, leb_spec. apply SFleb_ltb_trans. Qed.

Lemma ltb_leb_trans a b c :
  (a <? b)%float = true -> (b <=? c)%float = true -> (a <? c)%float = true.
Proof. rewrite !ltb_spec, leb_spec. apply SFltb_leb_trans. Qed.

Lemma leb_trans a b c :
  (a <=? b)%float = true -> (b <=? c)%float = true -> (a <=? c)%float = true.
Proof. rewrite !leb_spec. apply SFleb_trans. Qed.

(** [x <=? x] holds of every float but NaN. *)
Lemma leb_total a b :
  (a <=? a)%float = true -> (b <=? b)%float = true ->
  (a <? b)%float = false -> (b <=? a)%float = true.
Proof. rewrite ltb_spec, !leb_spec. apply SFleb_total. Qed.

Lemma leb_number a b : (a <=? b)%float = true -> (b <=? b)%float = true.
Proof. rewrite !leb_spec. apply SFleb_number. Qed.

Lemma ltb_number a b : (a <? b)%float = true -> (b <=? b)%float = true.
Proof. rewrite ltb_spec, leb_spec. apply SFltb_number. Qed.

Lemma ltb_not_leb a b : (a <? b)%float = true -> (b <=? a)%float = false.
Proof. rewrite ltb_spec, leb_spec. apply SFltb_not_leb. Qed.

End FloatOrder.

(** ** Strings and patterns *)

Module TextFacts.
Import Py Re Vocabulary.

Lemma newline_is_space c : is_newline c = true -> is_space c = true.
Proof.
  unfold is_newline, is_space, is_char, between. intros H.
  apply N.eqb_eq in H. rewrite H. reflexivity.
Qed.

Lemma nonspace_dot c : is_space c = false -> dot c = true.
Proof.
  unfold dot. intros H. destruct (is_newline c) eqn:E; [|reflexivity].
  apply newline_is_space in E. congruence.
Qed.

Lemma lstrip_keeps c s : In c s -> is_space c = false -> In c (lstrip s).
Proof.
  induction s as [|d s IH]; cbn; intros Hin Hc; [assumption|].
  destruct (is_space d) eqn:E; [|exact Hin].
  destruct Hin as [->|Hin]; [congruence | auto].
Qed.

Lemma strip_keeps c s : In c s -> is_space c = false -> In c (strip s).
Proof.
  intros Hin Hc. unfold strip, rstrip.
  apply in_rev. rewrite rev_involutive.
  apply lstrip_keeps; [|exact Hc].
  apply in_rev. rewrite rev_involutive.
  apply lstrip_keeps; assumption.
Qed.

Lemma lstrip_head s : lstrip s = [] \/ exists c r, lstrip s = c :: r /\ is_space c = false.
Proof.
  induction s as [|d s IH]; cbn; [now left|].
  destruct (is_space d) eqn:E; [exact IH|]. right. eauto.
Qed.

Lemma ends_clean_last r c : ends_clean (r ++ [c]) = negb (is_space c).
Proof.
  induction r as [|d r IH]; [reflexivity|].
  cbn [app]. destruct (r ++ [c]) eqn:E.
  - destruct r; discriminate.
  - rewrite <- IH. reflexivity.
Qed.

Lemma ends_clean_rstrip s : ends_clean (rstrip s) = true.
Proof.
  unfold rstrip.
  destruct (lstrip_head (rev s)) as [->|(c & r & -> & Hc)]; [reflexivity|].
  cbn [rev]. rewrite ends_clean_last, Hc. reflexivity.
Qed.

Lemma ends_clean_strip s : ends_clean (strip s) = true.
Proof. apply ends_clean_rstrip. Qed.

Lemma ends_clean_tail c s : s <> [] -> ends_clean (c :: s) = ends_clean s.
Proof. destruct s; [congruence | reflexivity]. Qed.

Lemma ends_clean_suffix t s : suffix t s -> ends_clean s = true -> ends_clean t = true.
Proof.
  intros (pre & ->). induction pre as [|c pre IH]; [auto|].
  destruct t as [|d t]; [reflexivity|].
  cbn [app]. rewrite ends_clean_tail; [exact IH|].
  destruct pre; discriminate.
Qed.

Lemma suffix_refl s : suffix s s.
Proof. now exists []. Qed.

Lemma suffix_cons c t s : suffix t s -> suffix t (c :: s).
Proof. intros (pre & ->). now exists (c :: pre). Qed.

Lemma suffix_trans a b c : suffix a b -> suffix b c -> suffix a c.
Proof. intros (p & ->) (q & ->). exists (q ++ p). now rewrite app_assoc. Qed.

(** *** Where a match calls the rest of the pattern *)

Section Continuation.
Variable k : str -> option str.

Lemma one_suffix cls s r :
  one k cls s = Some r -> exists t, suffix t s /\ k t = Some r.
Proof.
  destruct s as [|c s]; cbn; [discriminate|].
  destruct (cls c); [|discriminate].
  intros H. exists s. split; [apply suffix_cons, suffix_refl | exact H].
Qed.

Lemma opt_suffix cls s r :
  opt k cls s = Some r -> exists t, suffix t s /\ k t = Some r.
Proof.
  destruct s as [|c s]; cbn.
  - intros H. exists []. split; [apply suffix_refl | exact H].
  - destruct (cls c).
    + destruct (k s) as [r'|] eqn:E.
      * intros H. injection H as <-. exists s.
        split; [apply suffix_cons, suffix_refl | exact E].
      * intros H. exists (c :: s). split; [apply suffix_refl | exact H].
    + intros H. exists (c :: s). split; [apply suffix_refl | exact H].
Qed.

Lemma star_suffix cls s r :
  star k cls s = Some r -> exists t, suffix t s /\ k t = Some r.
Proof.
  induction s as [|c s IH]; cbn.
  - intros H. exists []. split; [apply suffix_refl | exact H].
  - destruct (cls c).
    + destruct (star k cls s) as [r'|] eqn:E.
      * intros H. injection H as <-.
        destruct (IH eq_refl) as (t & Ht & Hk).
        exists t. split; [apply suffix_cons, Ht | exact Hk].
      * intros H. exists (c :: s). split; [apply suffix_refl | exact H].
    + intros H. exists (c :: s). split; [apply suffix_refl | exact H].
Qed.

End Continuation.

Lemma item_suffix k cls q p s r :
  run k (Item cls q :: p) s = Some r ->
  exists t, suffix t s /\ run k p t = Some r.
Proof.
  destruct q; cbn [run]; intros H.
  - now apply one_suffix in H.
  - now apply opt_suffix in H.
  - now apply star_suffix in H.
  - apply one_suffix in H. destruct H as (t & Ht & H).
    apply star_suffix in H. destruct H as (u & Hu & H).
    exists u. split; [eapply suffix_trans; eassumption | exact H].
Qed.

(** *** The capture group after [\s*] *)

Lemma spaces_then_group_succeeds s :
  s <> [] -> ends_clean s = true -> star group_start is_space s <> None.
Proof.
  induction s as [|c s IH]; [congruence|]. intros _ Hs. cbn [star].
  destruct (is_space c) eqn:E.
  - destruct s as [|d s].
    + cbn in Hs. rewrite E in Hs. discriminate.
    + rewrite ends_clean_tail in Hs by discriminate.
      specialize (IH ltac:(discriminate) Hs).
      destruct (star group_start is_space (d :: s)); [discriminate|].
      now contradiction IH.
  - cbn. rewrite (nonspace_dot _ E). discriminate.
Qed.

Lemma spaces_then_group s r :
  ends_clean s = true ->
  star group_start is_space s = Some r ->
  exists c r', r = c :: r' /\ is_space c = false.
Proof.
  induction s as [|c s IH]; intros Hs; cbn [star].
  - discriminate.
  - destruct (is_space c) eqn:E.
    + destruct s as [|d s].
      * cbn in Hs. rewrite E in Hs. discriminate.
      * rewrite ends_clean_tail in Hs by discriminate.
        destruct (star group_start is_space (d :: s)) eqn:F.
        -- intros H. injection H as <-. apply IH; auto.
        -- exfalso.
           apply (@spaces_then_group_succeeds (d :: s)); auto. discriminate.
    + cbn. rewrite (nonspace_dot _ E). intros H. injection H as <-. eauto.
Qed.

Lemma group_after_spaces items :
  forall s r,
    ends_clean s = true ->
    run group_start (items ++ [Item is_space Star]) s = Some r ->
    exists c r', r = c :: r' /\ is_space c = false.
Proof.
  induction items as [|[cls q] items IH]; intros s r Hs H.
  - cbn in H. eapply spaces_then_group; eassumption.
  - cbn [app] in H. apply item_suffix in H. destruct H as (t & Ht & H).
    apply (IH t); [|exact H]. eapply ends_clean_suffix; eassumption.
Qed.

(** The captured group of a match on trimmed text keeps a character that
    is not whitespace. *)
Lemma rmatch_group p s full g :
  ends_in_spaces p -> ends_clean s = true ->
  rmatch p s = Some (full, g) ->
  exists c, In c g /\ is_space c = false.
Proof.
  intros (items & ->) Hs. unfold rmatch.
  destruct (run group_start _ s) as [rest|] eqn:E; [|discriminate].
  intros H. injection H as _ <-.
  destruct (group_after_spaces _ _ Hs E) as (c & r' & -> & Hc).
  exists c. cbn. rewrite (nonspace_dot _ Hc). split; [now left | exact Hc].
Qed.

End TextFacts.

(** ** The natural-language segmenter *)

Module WordFacts.
Import Py Re Word Vocabulary TextFacts.

Lemma question_patterns_end : Forall ends_in_spaces question_patterns.
Proof.
  unfold question_patterns.
  repeat constructor;
    match goal with
    | |- ends_in_spaces ?p => exists (removelast p); reflexivity
    end.
Qed.

Lemma first_match_group ps s full g :
  Forall ends_in_spaces ps -> ends_clean s = true ->
  first_match ps s = Some (full, g) ->
  exists c, In c g /\ is_space c = false.
Proof.
  intros Hps Hs. induction Hps as [|p ps Hp _ IH]; cbn; [discriminate|].
  destruct (rmatch p s) as [[full' g']|] eqn:E; [|exact IH].
  intros H. injection H as -> ->.
  eapply rmatch_group; eassumption.
Qed.

Lemma truthy_nonempty s : truthy s = true <-> s <> [].
Proof. destruct s; cbn; split; congruence. Qed.

(** A paragraph that starts a question has a captured remainder that is
    not empty after trimming. *)
Lemma question_text_nonempty para :
  is_question_start para = true -> extract_question_text para <> [].
Proof.
  unfold is_question_start, extract_question_text.
  destruct (truthy (strip para)); cbn [negb]; [|intros H; discriminate H].
  destruct (first_match question_patterns (strip para)) as [[full g]|] eqn:E;
    [|intros H; discriminate H].
  intros _.
  destruct (@first_match_group _ _ _ _ question_patterns_end (ends_clean_strip para) E)
    as (c & Hin & Hc).
  intros F. apply (@strip_keeps _ _ Hin) in Hc. rewrite F in Hc. destruct Hc.
Qed.

Lemma question_start_nonempty para :
  is_question_start para = true -> para <> [].
Proof. intros H ->. discriminate. Qed.

Lemma join_lines_nonempty p rest : p <> [] -> join_lines (p :: rest) <> [].
Proof.
  destruct p as [|c p]; [congruence|]. intros _.
  destruct rest; cbn; discriminate.
Qed.

(** *** Units are never empty *)

Lemma start_ok : acc_ok start.
Proof. split; [constructor | discriminate]. Qed.

Lemma flush_ok a :
  acc_ok a ->
  Forall (fun q => nonempty_word q /\ opened_by_pattern q) (flush a).
Proof.
  intros [Hq Hc]. unfold flush.
  destruct (has_question a) eqn:E; [|exact Hq].
  apply Forall_app. split; [exact Hq|].
  constructor; [|constructor].
  destruct (Hc eq_refl) as (p & rest & Hcontent & Hp & Hcur & Hnum).
  rewrite Hcur, Hcontent, Hnum. split.
  - split; cbn.
    + now apply question_text_nonempty.
    + apply join_lines_nonempty. now apply question_start_nonempty.
  - exists p, rest. cbn. auto.
Qed.

Lemma scan_ok limit paragraphs :
  forall a, acc_ok a -> acc_ok (scan limit paragraphs a).
Proof.
  induction paragraphs as [|para rest IH]; intros a Ha; cbn [scan]; [exact Ha|].
  destruct (is_question_start para) eqn:E.
  - apply IH. split; cbn.
    + now apply flush_ok.
    + intros _. exists para, []. auto.
  - destruct (has_question a && truthy para)%bool eqn:F; [|now apply IH].
    apply andb_true_iff in F. destruct F as [F _].
    assert (Ha' : acc_ok (Acc (questions a) (current_question a)
                              (current_content a ++ [para]) (current_number a))).
    { destruct Ha as [Hq Hc]. split; [exact Hq|]. intros _.
      destruct (Hc F) as (p & r & -> & Hp). exists p, (r ++ [para]). auto. }
    cbv zeta.
    destruct (_ <? _)%Z; [exact Ha' | now apply IH].
Qed.

Lemma word_questions_nonempty limit docx_text :
  Forall (fun q => nonempty_word q /\ opened_by_pattern q)
         (extract_questions limit docx_text).
Proof. apply flush_ok, scan_ok, start_ok. Qed.

(** *** The content limit *)

(** When a body line takes the running count past the limit the loop is
    left: no later paragraph is looked at. *)
Lemma scan_break limit para rest a :
  is_question_start para = false ->
  has_question a = true -> truthy para = true ->
  (limit < total_chars (current_content a ++ [para]))%Z ->
  scan limit (para :: rest) a =
  Acc (questions a) (current_question a) (current_content a ++ [para])
      (current_number a).
Proof.
  intros E Ha Hp Hlim. cbn [scan]. rewrite E, Ha, Hp. cbn [andb]. cbv zeta.
  apply Z.ltb_lt in Hlim. rewrite Hlim. reflexivity.
Qed.

(** *** Documents of numbered questions within the limit *)

Lemma flush_opened qs q content num :
  q <> [] ->
  flush (Acc qs (Some q) content num) =
  qs ++ [Question num q (join_lines content) (length qs)].
Proof.
  intros Hq. unfold flush, has_question. cbn.
  apply truthy_nonempty in Hq. rewrite Hq. reflexivity.
Qed.

Lemma scan_numbered limit qb :
  Forall (fun '(q, b) =>
            is_question_start q = true /\ is_question_start b = false /\
            b <> [] /\ (total_chars [q; b] <= limit)%Z) qb ->
  forall a,
    flush (scan limit (numbered_paragraphs qb) a) =
    flush a ++ numbered_units (length (flush a)) qb.
Proof.
  induction 1 as [|[q b] qb (Hq & Hb & Hne & Hlim) _ IH]; intros a.
  - cbn. now rewrite app_nil_r.
  - cbn [numbered_paragraphs flat_map app scan]. rewrite Hq, Hb.
    unfold has_question at 1. cbn [current_question].
    assert (Ht := @question_text_nonempty _ Hq).
    apply truthy_nonempty in Ht, Hne. rewrite Ht, Hne. cbn [andb].
    cbv zeta. cbn [current_content questions current_number app].
    apply Z.leb_le in Hlim. rewrite Z.leb_antisym in Hlim.
    apply negb_true_iff in Hlim. rewrite Hlim.
    fold (numbered_paragraphs qb). rewrite IH.
    rewrite flush_opened by now apply truthy_nonempty.
    rewrite <- app_assoc. cbn [app numbered_units].
    rewrite length_app. cbn [length]. rewrite Nat.add_1_r. reflexivity.
Qed.

Lemma split_lines_line l :
  Forall (fun c => is_newline c = false) l -> split_lines l = [l].
Proof.
  induction 1 as [|c l Hc _ IH]; [reflexivity|].
  cbn. now rewrite Hc, IH.
Qed.

Lemma split_lines_break l s :
  Forall (fun c => is_newline c = false) l ->
  split_lines (l ++ newline :: s) = l :: split_lines s.
Proof.
  induction 1 as [|c l Hc _ IH]; [reflexivity|].
  cbn [app split_lines]. now rewrite Hc, IH.
Qed.

Lemma split_join_lines ps :
  ps <> [] -> Forall clean_line ps -> split_lines (join_lines ps) = ps.
Proof.
  intros Hne H. induction H as [|p ps (_ & _ & Hp) Hps IH]; [congruence|].
  destruct ps as [|p2 ps].
  - cbn. now apply split_lines_line.
  - change (join_lines (p :: p2 :: ps))
      with (p ++ newline :: join_lines (p2 :: ps)).
    rewrite split_lines_break by assumption.
    rewrite IH by discriminate. reflexivity.
Qed.

Lemma paragraphs_of_join ps :
  Forall clean_line ps -> paragraphs_of (join_lines ps) = ps.
Proof.
  intros H. unfold paragraphs_of.
  destruct ps as [|p ps]; [reflexivity|].
  rewrite split_join_lines by (discriminate || assumption).
  induction H as [|q qs (Hs & Hq & _) _ IH]; [reflexivity|].
  cbn [filter]. rewrite Hs. apply truthy_nonempty in Hq. rewrite Hq.
  cbn [map]. rewrite Hs, IH. reflexivity.
Qed.

Lemma numbered_paragraphs_clean qb :
  Forall (fun '(q, b) => clean_line q /\ clean_line b) qb ->
  Forall clean_line (numbered_paragraphs qb).
Proof.
  induction 1 as [|[q b] qb [Hq Hb] _ IH]; cbn; [constructor|].
  constructor; [exact Hq|]. constructor; [exact Hb | exact IH].
Qed.

(** A document of [N] numbered question lines, each followed by one body
    line and staying within the limit with it, yields the [N] units in
    order, indexed from 0. *)
Lemma extract_questions_numbered limit qb :
  Forall (fun '(q, b) => clean_line q /\ clean_line b) qb ->
  Forall (fun '(q, b) =>
            is_question_start q = true /\ is_question_start b = false /\
            b <> [] /\ (total_chars [q; b] <= limit)%Z) qb ->
  extract_questions limit (join_lines (numbered_paragraphs qb)) =
  numbered_units 0 qb.
Proof.
  intros Hclean H. unfold extract_questions.
  rewrite paragraphs_of_join by now apply numbered_paragraphs_clean.
  now rewrite scan_numbered.
Qed.

(** *** Lines of the form [Q<digits>. <text>] *)

Lemma star_skip k cls c s : cls c = false -> star k cls (c :: s) = k (c :: s).
Proof. intros H. cbn. now rewrite H. Qed.

Lemma star_all k cls l s r :
  Forall (fun c => cls c = true) l ->
  star k cls s = Some r -> star k cls (l ++ s) = Some r.
Proof.
  induction 1 as [|c l Hc _ IH]; intros H; [exact H|].
  cbn. now rewrite Hc, (IH H).
Qed.

Lemma take_dots_line s :
  Forall (fun c => is_newline c = false) s -> take_dots s = s.
Proof.
  induction 1 as [|c s Hc _ IH]; [reflexivity|].
  cbn. unfold dot. now rewrite Hc, IH.
Qed.

Lemma firstn_prefix (pre t : str) :
  firstn (length (pre ++ t) - length t) (pre ++ t) = pre.
Proof.
  rewrite length_app, Nat.add_sub.
  rewrite firstn_app, Nat.sub_diag, firstn_all. cbn. apply app_nil_r.
Qed.

Lemma replace_from_skip old new s : replace_from old new (length s) s = [].
Proof. induction s; cbn; auto. Qed.

(** [str.replace] takes out a suffix whose first character does not occur
    before it. *)
Lemma replace_suffix c t pre :
  Forall (fun x => Ascii.eqb c x = false) pre ->
  replace (c :: t) [] (pre ++ c :: t) = pre.
Proof.
  intros H. cbn [replace].
  induction H as [|x pre Hx _ IH].
  - cbn [app replace_from starts_with]. rewrite Ascii.eqb_refl. cbn [andb].
    assert (E : starts_with t t = true).
    { clear. induction t; cbn; [reflexivity|].
      now rewrite Ascii.eqb_refl. }
    rewrite E. cbn [app].
    replace (length (c :: t) - 1) with (length t) by (cbn [length]; lia).
    apply replace_from_skip.
  - cbn [app replace_from starts_with]. rewrite Hx. cbn [andb].
    now rewrite IH.
Qed.

Lemma rstrip_clean s : s <> [] -> ends_clean s = true -> rstrip s = s.
Proof.
  intros Hne Hs. destruct (exists_last Hne) as (r & c & ->).
  rewrite ends_clean_last in Hs. apply negb_true_iff in Hs.
  unfold rstrip. rewrite rev_unit. cbn [lstrip]. rewrite Hs.
  cbn [rev]. now rewrite rev_involutive.
Qed.

Lemma ends_clean_app pre t : t <> [] -> ends_clean (pre ++ t) = ends_clean t.
Proof.
  intros Ht. induction pre as [|c pre IH]; [reflexivity|].
  cbn [app]. rewrite ends_clean_tail; [exact IH|].
  destruct pre, t; cbn; congruence.
Qed.

(** On such a line, with digits for [<digits>] and a text that is trimmed,
    has no line break and starts with a character that is neither a digit,
    [.], [)] nor [Q], the first pattern matches, the number is the label
    and the text is the text. *)
Lemma q_line_parts digits c t :
  digits <> [] -> Forall (fun d => is_digit d = true) digits ->
  is_space c = false -> is_digit c = false -> is_dot_paren c = false ->
  Ascii.eqb c (ascii_of_N 81) = false ->
  ends_clean (c :: t) = true ->
  Forall (fun x => is_newline x = false) (c :: t) ->
  is_question_start (q_line digits (c :: t)) = true /\
  extract_question_number (q_line digits (c :: t)) = q_label digits /\
  extract_question_text (q_line digits (c :: t)) = c :: t.
Proof.
  intros Hne Hd Hsp Hdg Hdp HQ Hclean Hnl.
  set (text := c :: t) in *.
  set (pre := lit "Q" ++ digits ++ lit "." ++ lit " ").
  assert (Hline : q_line digits text = pre ++ text).
  { unfold q_line, q_label, pre. cbn [lit list_ascii_of_string app].
    rewrite <- !app_assoc. reflexivity. }
  assert (Hstrip : strip (q_line digits text) = q_line digits text).
  { unfold strip. rewrite Hline. unfold pre. cbn [lit list_ascii_of_string app lstrip].
    change (is_space "Q"%char) with false. cbv iota.
    apply rstrip_clean; [discriminate|].
    change ("Q"%char :: (digits ++ ["."%char; " "%char]) ++ text)
      with (("Q"%char :: digits ++ ["."%char; " "%char]) ++ text).
    rewrite ends_clean_app by (unfold text; discriminate).
    exact Hclean. }
  assert (Hrun : rmatch (hd [] question_patterns) (q_line digits text)
                 = Some (q_line digits text, text)).
  { unfold rmatch. cbn [hd question_patterns run].
    assert (E : star (one (one (star (star (star group_start is_space) is_dot_paren)
                                   is_digit) is_digit) is_qs) is_space
                  (q_line digits text) = Some text).
    { rewrite Hline. unfold pre. cbn [lit list_ascii_of_string app].
      rewrite <- app_assoc. cbn [app].
      rewrite star_skip by reflexivity.
      cbn [one]. change (is_qs "Q"%char) with true. cbv iota.
      destruct digits as [|d ds]; [congruence|].
      inversion Hd as [|? ? Hd1 Hds]; subst.
      cbn [app one]. rewrite Hd1.
      apply star_all; [exact Hds|].
      rewrite star_skip by reflexivity.
      apply (@star_all _ _ ["."%char]); [repeat constructor|].
      rewrite star_skip by reflexivity.
      apply (@star_all _ _ [" "%char]); [repeat constructor|].
      unfold text. rewrite star_skip by exact Hsp.
      cbn [group_start]. now rewrite (TextFacts.nonspace_dot _ Hsp). }
    rewrite E. rewrite (take_dots_line Hnl).
    rewrite Hline at 1 2. now rewrite firstn_prefix, <- Hline. }
  assert (Hfirst : first_match question_patterns (q_line digits text)
                   = Some (q_line digits text, text)).
  { unfold question_patterns in *. cbn [first_match hd] in *. now rewrite Hrun. }
  unfold is_question_start, extract_question_number, extract_question_text.
  rewrite Hstrip, Hfirst.
  split; [|split].
  - rewrite Hline. reflexivity.
  - rewrite Hline at 1. unfold text at 1 2. rewrite replace_suffix.
    + unfold pre, q_label. cbn [lit list_ascii_of_string app].
      unfold strip. cbn [lstrip]. change (is_space "Q"%char) with false. cbv iota.
      change ("Q"%char :: digits ++ ["."%char; " "%char])
        with ("Q"%char :: digits ++ ["."%char] ++ [" "%char]).
      rewrite app_assoc, app_comm_cons. unfold rstrip.
      rewrite rev_unit. cbn [lstrip]. change (is_space " "%char) with true. cbv iota.
      rewrite app_comm_cons, rev_unit. cbn [lstrip].
      change (is_space "."%char) with false. cbv iota.
      rewrite <- rev_unit, rev_involutive. reflexivity.
    + unfold pre. cbn [lit list_ascii_of_string app].
      constructor; [exact HQ|]. apply Forall_app. split.
      * eapply Forall_impl; [|exact Hd]. cbn. intros d Hdig.
        destruct (Ascii.eqb c d) eqn:E; [|reflexivity].
        apply Ascii.eqb_eq in E. subst d. congruence.
      * constructor; [|constructor; [|constructor]].
        -- destruct (Ascii.eqb c "."%char) eqn:E; [|reflexivity].
           apply Ascii.eqb_eq in E. subst c. discriminate Hdp.
        -- destruct (Ascii.eqb c " "%char) eqn:E; [|reflexivity].
           apply Ascii.eqb_eq in E. subst c. discriminate Hsp.
  - unfold strip. unfold text. cbn [lstrip]. rewrite Hsp.
    apply rstrip_clean; [discriminate | exact Hclean].
Qed.

(** *** Statements about the segmenter *)

(** C1, where a body line takes a question past [content_limit_chars].
    The specification has the later questions still segmented.  The [break]
    leaves the paragraph loop: the unit of [Q1] is emitted with the
    content gathered so far, and [Q2], a question start, yields no unit;
    with the limit 5 on [two_questions], and with the default limit 2000
    on [long_first_answer]. *)
Theorem content_limit_ends_extraction :
  is_question_start (lit "Q2. c") = true /\
  extract_questions 5 Samples.two_questions =
    [Question (lit "Q1.") (lit "a") (join_lines [lit "Q1. a"; lit "bbbbbbbb"]) 0] /\
  map number (extract_questions 2000 Samples.long_first_answer) = [lit "Q1."].
Proof. split; [|split]; vm_compute; reflexivity. Qed.

Lemma two_numbered_shape :
  Forall (fun '(q, b) =>
            (clean_line q /\ clean_line b) /\
            is_question_start q = true /\ is_question_start b = false)
         Samples.two_numbered.
Proof.
  repeat constructor; try (vm_compute; reflexivity); discriminate.
Qed.

(** C5, for [N = 2] and a limit the first question exceeds.
    [two_questions] is two numbered question lines, each followed by one
    body line.  Under the limit 2000 the segmenter returns the two units in
    order with indices 0 and 1; under the limit 5 the [break] of C1 leaves
    one unit where the specification has two, and so does the default limit on
    [long_first_answer], two numbered questions as well. *)
Theorem numbered_document_loses_units :
  Samples.two_questions = join_lines (numbered_paragraphs Samples.two_numbered) /\
  extract_questions 2000 Samples.two_questions
    = numbered_units 0 Samples.two_numbered /\
  map number (extract_questions 2000 Samples.two_questions)
    = [lit "Q1."; lit "Q2."] /\
  map number (extract_questions 5 Samples.two_questions) = [lit "Q1."] /\
  length (extract_questions 5 Samples.two_questions) <> length Samples.two_numbered /\
  length (extract_questions 2000 Samples.long_first_answer) = 1.
Proof.
  split; [|split; [|split; [|split; [|split]]]]; try (vm_compute; reflexivity).
  vm_compute. discriminate.
Qed.

(** The scenario of the specification: one unit, identifier [Q1.], the
    question text without it, all three lines as content. *)
Example age_question :
  extract_questions 2000
    (join_lines [lit "Q1. What is your age?"; lit "18-24"; lit "25-34"])
  = [Question (lit "Q1.") (lit "What is your age?")
       (join_lines [lit "Q1. What is your age?"; lit "18-24"; lit "25-34"]) 0].
Proof. vm_compute. reflexivity. Qed.

(** [str.replace] drops every occurrence of the captured text, also one
    inside the label. *)
Remark number_drops_repeated_text :
  extract_question_number (lit "Q1. 1") = lit "Q.".
Proof. vm_compute. reflexivity. Qed.

End WordFacts.

(** ** The structured extractor *)

Module XmlFacts.
Import Py Xml Vocabulary.

Lemma element_induction (P : element -> Prop) :
  (forall t a x cs tl, Forall P cs -> P (Element t a x cs tl)) ->
  forall e, P e.
Proof.
  intros H. fix IH 1. intros [t a x cs tl]. apply H.
  induction cs as [|c cs IHcs]; constructor; [apply IH | exact IHcs].
Qed.

Lemma str_eqb_eq a b : str_eqb a b = true <-> a = b.
Proof.
  unfold str_eqb. destruct (list_eq_dec ascii_dec a b); split; congruence.
Qed.

Lemma str_eqb_refl a : str_eqb a a = true.
Proof. now apply str_eqb_eq. Qed.

Lemma str_eqb_neq a b : str_eqb a b = false <-> a <> b.
Proof.
  unfold str_eqb. destruct (list_eq_dec ascii_dec a b); split; congruence.
Qed.

(** *** The selected titles and their parents *)

Lemma select_titles_chain e :
  forall above t anc,
    In (t, anc) (select_titles above e) ->
    exists path, anc = path ++ above /\ parent_chain e t path.
Proof.
  induction e as [tg a x cs tl IH] using element_induction.
  intros above t anc Hin. cbn [select_titles] in Hin.
  apply in_app_or in Hin. destruct Hin as [Hin|Hin].
  - destruct (is_title _); [|destruct Hin].
    destruct Hin as [E|[]].
    assert (E1 := f_equal fst E). assert (E2 := f_equal snd E).
    cbn in E1, E2. subst t anc.
    exists []. split; reflexivity.
  - apply in_flat_map in Hin. destruct Hin as (c & Hc & Hin).
    cbn [children] in Hc.
    rewrite Forall_forall in IH.
    destruct (IH c Hc _ _ _ Hin) as (path & -> & Hpath).
    exists (path ++ [Element tg a x cs tl]).
    split; [now rewrite <- app_assoc|].
    clear - Hc Hpath. revert t Hpath.
    induction path as [|p path IHp]; cbn; intros t Hpath.
    + subst t. split; [exact Hc | reflexivity].
    + destruct Hpath as [H1 H2]. split; [exact H1 | now apply IHp].
Qed.

(** *** Where the section comes from *)

Lemma enclosing_section_some chain p :
  enclosing_section chain = Some p ->
  exists nearer farther,
    chain = nearer ++ p :: farther /\ is_section_tag (tag p) = true /\
    Forall (fun a => is_section_tag (tag a) = false) nearer.
Proof.
  induction chain as [|a chain IH]; cbn [enclosing_section]; [discriminate|].
  destruct (is_section_tag (tag a)) eqn:E.
  - intros H. injection H as <-. exists [], chain. auto.
  - intros H. destruct (IH H) as (n & f & -> & Hp & Hn).
    exists (a :: n), f. auto.
Qed.

Lemma enclosing_section_none chain :
  enclosing_section chain = None ->
  Forall (fun a => is_section_tag (tag a) = false) chain.
Proof.
  induction chain as [|a chain IH]; cbn [enclosing_section]; [constructor|].
  destruct (is_section_tag (tag a)) eqn:E; [discriminate|]. auto.
Qed.

(** The membership test of the loop is membership in the set the
    specification names. *)
Lemma is_section_tag_spec t : is_section_tag t = true <-> section_boundary t.
Proof.
  unfold is_section_tag, section_tags, section_boundary. cbn [existsb].
  rewrite !orb_true_iff, !str_eqb_eq. intuition discriminate.
Qed.

Lemma is_section_tag_not t : is_section_tag t = false -> ~ section_boundary t.
Proof.
  intros H Hb. apply is_section_tag_spec in Hb. rewrite Hb in H. discriminate.
Qed.

Lemma section_source_fallback title ancestors :
  fallback_choice (section_source title ancestors) title ancestors.
Proof.
  unfold section_source, fallback_choice.
  destruct (enclosing_section ancestors) as [p|] eqn:E.
  - left. destruct (enclosing_section_some _ E) as (nearer & farther & Ha & Hp & Hn).
    exists nearer, farther. split; [exact Ha|]. split.
    + now apply is_section_tag_spec.
    + eapply Forall_impl; [|exact Hn]. intros a. apply is_section_tag_not.
  - right. apply enclosing_section_none in E.
    assert (Hall : Forall (fun a => ~ section_boundary (tag a)) ancestors).
    { eapply Forall_impl; [|exact E]. intros a. apply is_section_tag_not. }
    destruct ancestors as [|p up]; [right | left]; eauto.
Qed.

(** The chain names one element. *)
Lemma nearest_unique (P : element -> Prop) nearer :
  forall chosen farther nearer' chosen' farther',
    nearer ++ chosen :: farther = nearer' ++ chosen' :: farther' ->
    P chosen -> Forall (fun a => ~ P a) nearer ->
    P chosen' -> Forall (fun a => ~ P a) nearer' ->
    chosen = chosen'.
Proof.
  induction nearer as [|a nearer IH];
    intros chosen farther [|a' nearer'] chosen' farther' E Hc Hn Hc' Hn';
    cbn [app] in E.
  - now injection E.
  - injection E as -> _. inversion Hn'; subst. contradiction.
  - injection E as -> _. inversion Hn; subst. contradiction.
  - injection E as _ E. inversion Hn; subst. inversion Hn'; subst.
    eapply IH; eassumption.
Qed.

Lemma fallback_choice_unique chosen chosen' title ancestors :
  fallback_choice chosen title ancestors ->
  fallback_choice chosen' title ancestors ->
  chosen = chosen'.
Proof.
  intros [(n & f & E & Hc & Hn) | [(Hall & up & E) | (E & Ht)]]
         [(n' & f' & E' & Hc' & Hn') | [(Hall' & up' & E') | (E' & Ht')]].
  - rewrite E in E'.
    exact (@nearest_unique (fun a => section_boundary (tag a)) n _ _ _ _ _
             E' Hc Hn Hc' Hn').
  - rewrite E in Hall'. apply Forall_app in Hall'. destruct Hall' as [_ Hall'].
    inversion Hall'; subst. contradiction.
  - rewrite E in E'. destruct n; discriminate.
  - rewrite E' in Hall. apply Forall_app in Hall. destruct Hall as [_ Hall].
    inversion Hall; subst. contradiction.
  - rewrite E in E'. now injection E'.
  - rewrite E in E'. discriminate.
  - rewrite E' in E. destruct n'; discriminate.
  - rewrite E' in E. discriminate.
  - congruence.
Qed.

(** What follows the subtree in [tostring] is the tail text and nothing
    else. *)
Lemma tostring_is_subtree (node : element -> str) (chars : str -> str) e :
  tostring_with_tail node chars e = serialized_subtree node e <->
  tail_text chars e = [].
Proof.
  unfold tostring_with_tail, serialized_subtree. split.
  - intros H. apply app_inv_head in H.
    apply (f_equal (@length ascii)) in H. rewrite length_app in H.
    destruct (tail_text chars e); [reflexivity | cbn in H; lia].
  - intros ->. reflexivity.
Qed.

(** *** The accepting loop *)

Section Collect.
Variable tostring : element -> str.

Lemma collect_cons t anc rest seen qs :
  collect tostring ((t, anc) :: rest) seen qs =
  if (existsb (str_eqb (title_id t)) seen || negb (has_text (t, anc)))%bool
  then collect tostring rest seen qs
  else collect tostring rest (title_id t :: seen)
         (qs ++ [unit_of tostring (t, anc) (length qs)]).
Proof. reflexivity. Qed.

(** Every unit comes from a selected title with text. *)
Lemma collect_origin titles :
  forall seen qs q,
    In q (collect tostring titles seen qs) ->
    In q qs \/
    exists ta idx, In ta titles /\ has_text ta = true /\ q = unit_of tostring ta idx.
Proof.
  induction titles as [|[t anc] rest IH]; intros seen qs q Hin.
  - now left.
  - rewrite collect_cons in Hin.
    destruct (existsb _ seen || negb (has_text (t, anc)))%bool eqn:E.
    + destruct (IH _ _ _ Hin) as [H|(ta & idx & H1 & H2)]; [now left|].
      right. exists ta, idx. split; [now right | exact H2].
    + apply orb_false_iff in E. destruct E as [_ E].
      apply negb_false_iff in E.
      destruct (IH _ _ _ Hin) as [H|(ta & idx & H1 & H2)].
      * apply in_app_or in H. destruct H as [H|[<-|[]]]; [now left|].
        right. exists (t, anc), (length qs). repeat split; auto. now left.
      * right. exists ta, idx. split; [now right | exact H2].
Qed.

Lemma units_with_id_app i qs qs' :
  units_with_id i (qs ++ qs') = units_with_id i qs ++ units_with_id i qs'.
Proof. apply filter_app. Qed.

(** The units of one identifier: none once it is in [seen]; otherwise the
    first title of that identifier that has text, if there is one. *)
Lemma collect_with_id i titles :
  forall seen qs,
    exists new,
      units_with_id i (collect tostring titles seen qs) = units_with_id i qs ++ new /\
      (existsb (str_eqb i) seen = true -> new = []) /\
      (existsb (str_eqb i) seen = false ->
       match find has_text (with_id i titles) with
       | Some ta => exists idx, new = [unit_of tostring ta idx]
       | None => new = []
       end).
Proof.
  induction titles as [|[t anc] rest IH]; intros seen qs.
  - exists []. cbn. rewrite app_nil_r. auto.
  - rewrite collect_cons. unfold with_id. cbn [filter fst].
    fold (with_id i rest).
    destruct (str_eqb (title_id t) i) eqn:Ei.
    + apply str_eqb_eq in Ei. rewrite Ei.
      destruct (existsb (str_eqb i) seen) eqn:Es; cbn [orb].
      * destruct (IH seen qs) as (new & H1 & H2 & _).
        exists new. repeat split; auto. discriminate.
      * cbn [find]. destruct (has_text (t, anc)) eqn:Et; cbn [negb].
        -- destruct (IH (i :: seen) (qs ++ [unit_of tostring (t, anc) (length qs)]))
             as (new & H1 & H2 & _).
           rewrite H2 in H1 by (cbn; now rewrite str_eqb_refl).
           exists [unit_of tostring (t, anc) (length qs)].
           rewrite H1, units_with_id_app, app_nil_r.
           repeat split; [|discriminate|eauto].
           f_equal. unfold units_with_id. cbn. rewrite Ei, str_eqb_refl.
           reflexivity.
        -- destruct (IH seen qs) as (new & H1 & _ & H3).
           exists new. repeat split; auto. congruence.
           intros _. now apply H3.
    + destruct (existsb (str_eqb (title_id t)) seen || negb (has_text (t, anc)))%bool.
      * apply IH.
      * destruct (IH (title_id t :: seen)
                     (qs ++ [unit_of tostring (t, anc) (length qs)]))
          as (new & H1 & H2 & H3).
        assert (En : str_eqb i (title_id t) = false).
        { apply str_eqb_neq. apply str_eqb_neq in Ei. congruence. }
        exists new. rewrite H1, units_with_id_app.
        unfold units_with_id at 2. cbn [filter unit_of id fst]. rewrite Ei.
        rewrite app_nil_r.
        cbn [existsb] in H2, H3. rewrite En in H2, H3. cbn [orb] in H2, H3.
        auto.
Qed.

(** The loop emits the units of the accepted titles, one each, in
    order. *)
Lemma collect_accepted titles :
  forall seen qs,
    collect tostring titles seen qs =
    qs ++ units_from tostring (length qs) (accepted_titles titles seen).
Proof.
  induction titles as [|[t anc] rest IH]; intros seen qs.
  - cbn. now rewrite app_nil_r.
  - rewrite collect_cons. cbn [accepted_titles fst].
    destruct (_ || _)%bool; [apply IH|].
    rewrite IH, <- app_assoc, length_app. cbn [length app units_from].
    now rewrite Nat.add_1_r.
Qed.

Lemma units_from_nth accepted :
  forall i k ta,
    nth_error accepted k = Some ta ->
    nth_error (units_from tostring i accepted) k
    = Some (unit_of tostring ta (i + k)).
Proof.
  induction accepted as [|a accepted IH]; intros i [|k] ta H; try discriminate.
  - cbn in H. injection H as ->. cbn. now rewrite Nat.add_0_r.
  - cbn in H. cbn. rewrite (IH (S i) k ta H). f_equal. f_equal. lia.
Qed.

Lemma collect_indices titles :
  forall seen qs,
    map xml_index qs = seq 0 (length qs) ->
    map xml_index (collect tostring titles seen qs)
    = seq 0 (length (collect tostring titles seen qs)).
Proof.
  induction titles as [|[t anc] rest IH]; intros seen qs Hqs; [exact Hqs|].
  rewrite collect_cons.
  destruct (_ || _)%bool; apply IH; [exact Hqs|].
  rewrite map_app, length_app, Hqs. cbn [map length unit_of xml_index].
  rewrite Nat.add_1_r, seq_S. reflexivity.
Qed.

End Collect.

Lemma indices_in_order l :
  forall n, map xml_index l = seq n (length l) -> in_index_order l.
Proof.
  unfold in_index_order.
  induction l as [|x l IH]; intros n H; [constructor|].
  cbn in H. injection H as Hx Hl.
  constructor; [now apply (IH (S n))|].
  apply Forall_forall. intros y Hy.
  assert (Hin : In (xml_index y) (seq (S n) (length l))).
  { rewrite <- Hl. now apply in_map. }
  apply in_seq in Hin. lia.
Qed.

(** The extractor hands its units over in the order of their
    [xml_index]. *)
Lemma extract_questions_in_index_order tostring parsed :
  in_index_order (extract_questions tostring parsed).
Proof.
  apply (indices_in_order _ 0).
  destruct parsed as [root|]; [|reflexivity].
  now apply collect_indices.
Qed.

(** C6, as the code has it.  For every tree and identifier the extractor
    emits at most one unit with that identifier: the unit of the first
    title element, in document order, that carries the identifier and has
    text left after trimming; and none when no such element has text. *)
Theorem first_occurrence_with_text_wins (tostring : element -> str) root i :
  match find has_text (with_id i (select_titles [] root)) with
  | Some ta =>
      exists idx,
        units_with_id i (extract_questions tostring (Some root))
        = [unit_of tostring ta idx]
  | None => units_with_id i (extract_questions tostring (Some root)) = []
  end.
Proof.
  unfold extract_questions.
  destruct (collect_with_id tostring i (select_titles [] root) [] [])
    as (new & H1 & _ & H3).
  specialize (H3 eq_refl). cbn [units_with_id filter app] in H1.
  destruct (find has_text _) as [ta|].
  - destruct H3 as (idx & ->). eauto.
  - now subst new.
Qed.

(** C6 as worded fails on [duplicate_ids]: the first title with identifier
    [q1] has no text, and the unit emitted for [q1] is the second one's. *)
Lemma first_occurrence_does_not_win :
  ~ first_occurrence_wins Samples.serialize Samples.duplicate_ids.
Proof.
  intros H.
  destruct (H (lit "q1") (Samples.title_blank, [Samples.question_blank; Samples.duplicate_ids])
              [(Samples.title_age,
                [Samples.radio_age; Samples.page_age; Samples.duplicate_ids])])
    as (idx & E).
  - vm_compute. reflexivity.
  - discriminate.
  - vm_compute in E. discriminate E.
Qed.

Lemma accepted_titles_selected titles :
  forall seen ta, In ta (accepted_titles titles seen) -> In ta titles.
Proof.
  induction titles as [|a rest IH]; intros seen ta H; [destruct H|].
  cbn [accepted_titles] in H. destruct (_ || _)%bool.
  - right. eapply IH. exact H.
  - destruct H as [->|H]; [now left | right; eapply IH; exact H].
Qed.

(** The units and the titles they come from, one way round: every unit
    is that of a selected title with text. *)
Lemma unit_origin (tostring : element -> str) root q :
  In q (extract_questions tostring (Some root)) ->
  exists title ancestors idx,
    In (title, ancestors) (select_titles [] root) /\
    parent_chain root title ancestors /\
    q = unit_of tostring (title, ancestors) idx.
Proof.
  intros Hin. apply collect_origin in Hin.
  destruct Hin as [[]|([t anc] & idx & Hta & _ & ->)].
  exists t, anc, idx. repeat split; auto.
  destruct (select_titles_chain _ _ _ _ Hta) as (path & -> & Hp).
  now rewrite app_nil_r.
Qed.

(** C8, as the code has it.  For the [k]-th title element the extractor
    accepts, with its chain of parents up to the root, the fallback chain
    names exactly one element: the nearest ancestor with a tag among
    [suspend], [page], [question], [exec]; without one, the immediate
    parent; without a parent, the title element itself.  The [k]-th unit
    emitted has that title's identifier and trimmed text, and as
    [full_section] what [tostring] writes for the chosen element: its
    serialized subtree, then the text that follows its closing tag, then the
    line break of [pretty_print].  That is the serialized subtree alone
    exactly when no text follows the closing tag. *)
Theorem full_section_by_fallback_chain
  (node : element -> str) (chars : str -> str) root k title ancestors :
  nth_error (accepted_titles (select_titles [] root) []) k
    = Some (title, ancestors) ->
  parent_chain root title ancestors /\
  exists chosen,
    fallback_choice chosen title ancestors /\
    (forall other, fallback_choice other title ancestors -> other = chosen) /\
    nth_error (extract_questions (tostring_with_tail node chars) (Some root)) k
    = Some (Question (title_id title) (title_text title)
              (node chosen ++ tail_text chars chosen ++ [newline]) k) /\
    (node chosen ++ tail_text chars chosen ++ [newline]
     = serialized_subtree node chosen <-> tail_text chars chosen = []).
Proof.
  intros H. split.
  - apply nth_error_In, accepted_titles_selected in H.
    destruct (select_titles_chain _ _ _ _ H) as (path & -> & Hp).
    now rewrite app_nil_r.
  - exists (section_source title ancestors).
    split; [apply section_source_fallback|]. split; [|split].
    + intros other Ho.
      exact (fallback_choice_unique Ho (section_source_fallback title ancestors)).
    + unfold extract_questions. rewrite collect_accepted. cbn [app length].
      now rewrite (units_from_nth (tostring_with_tail node chars) _ 0 k H).
    + apply tostring_is_subtree.
Qed.

Lemma full_section_by_fallback_chain_witness :
  nth_error (accepted_titles (select_titles [] Samples.duplicate_ids) []) 0
    = Some (Samples.title_age,
            [Samples.radio_age; Samples.page_age; Samples.duplicate_ids]) /\
  (parent_chain Samples.duplicate_ids Samples.title_age
     [Samples.radio_age; Samples.page_age; Samples.duplicate_ids] /\
   exists chosen,
     fallback_choice chosen Samples.title_age
       [Samples.radio_age; Samples.page_age; Samples.duplicate_ids] /\
     (forall other,
         fallback_choice other Samples.title_age
           [Samples.radio_age; Samples.page_age; Samples.duplicate_ids] ->
         other = chosen) /\
     nth_error (extract_questions
                  (tostring_with_tail Samples.node_only (fun t => t))
                  (Some Samples.duplicate_ids)) 0
     = Some (Question (title_id Samples.title_age) (title_text Samples.title_age)
               (Samples.node_only chosen ++ tail_text (fun t => t) chosen
                ++ [newline]) 0) /\
     (Samples.node_only chosen ++ tail_text (fun t => t) chosen ++ [newline]
      = serialized_subtree Samples.node_only chosen
      <-> tail_text (fun t => t) chosen = [])).
Proof.
  assert (H : nth_error (accepted_titles (select_titles [] Samples.duplicate_ids) []) 0
              = Some (Samples.title_age,
                      [Samples.radio_age; Samples.page_age; Samples.duplicate_ids])).
  { vm_compute. reflexivity. }
  split; [exact H|].
  exact (@full_section_by_fallback_chain Samples.node_only (fun t => t)
           Samples.duplicate_ids 0 _ _ H).
Defined.

(** C8 as worded fails on [survey_with_tail]: the chain names the [page]
    element, and the content block is its serialized subtree followed by
    the text [trailing] that stands after [</page>]. *)
Lemma full_section_is_not_the_subtree :
  fallback_choice Samples.page_with_tail Samples.title_age
    [Samples.page_with_tail; Samples.survey_with_tail] /\
  map full_section
      (extract_questions (tostring_with_tail Samples.node_only (fun t => t))
         (Some Samples.survey_with_tail))
  = [Samples.node_only Samples.page_with_tail ++ lit "trailing" ++ [newline]] /\
  Samples.node_only Samples.page_with_tail ++ lit "trailing" ++ [newline]
  <> serialized_subtree Samples.node_only Samples.page_with_tail.
Proof.
  split; [|split].
  - left. exists [], [Samples.survey_with_tail].
    split; [reflexivity|]. split; [|constructor].
    right. left. reflexivity.
  - vm_compute. reflexivity.
  - vm_compute. discriminate.
Qed.

(** On [duplicate_ids] the chain passes the parent [radio] and stops at
    [page]. *)
Example page_is_the_section :
  map full_section (extract_questions Samples.serialize (Some Samples.duplicate_ids))
  = [Samples.serialize Samples.page_age].
Proof. vm_compute. reflexivity. Qed.

(** *** Units are never empty *)

Lemma xml_questions_nonempty (tostring : element -> str) parsed :
  (forall e, tostring e <> []) ->
  Forall nonempty_xml (extract_questions tostring parsed).
Proof.
  intros Hts. apply Forall_forall. intros q Hin.
  destruct parsed as [root|]; [|destruct Hin].
  apply collect_origin in Hin.
  destruct Hin as [[]|(ta & idx & _ & Ht & ->)].
  split; cbn.
  - unfold has_text in Ht. destruct (title_text (fst ta)); [discriminate|].
    discriminate.
  - apply Hts.
Qed.

(** C9.  With a serializer that never yields the empty string, every unit
    of either extractor has a question text and a content block that are
    not empty; every unit of the segmenter was opened by a paragraph that
    matches a numbering pattern; and such a paragraph has a captured
    remainder that is not empty after trimming. *)
Theorem extractors_emit_nonempty_units (tostring : element -> str) :
  (forall e, tostring e <> []) ->
  (forall limit docx_text q,
      In q (Word.extract_questions limit docx_text) ->
      (Word.text q <> [] /\ Word.full_content q <> []) /\
      opened_by_pattern q) /\
  (forall parsed q,
      In q (extract_questions tostring parsed) ->
      Xml.text q <> [] /\ full_section q <> []) /\
  (forall para,
      Word.is_question_start para = true ->
      Word.extract_question_text para <> []).
Proof.
  intros Hts. split; [|split].
  - intros limit docx_text q Hin.
    pose proof (WordFacts.word_questions_nonempty limit docx_text) as Hall.
    rewrite Forall_forall in Hall. now apply Hall.
  - intros parsed q Hin.
    pose proof (@xml_questions_nonempty tostring parsed Hts) as Hall.
    rewrite Forall_forall in Hall. now apply Hall.
  - apply WordFacts.question_text_nonempty.
Qed.

Lemma serialize_nonempty e : Samples.serialize e <> [].
Proof. destruct e; discriminate. Defined.

Lemma extractors_emit_nonempty_units_witness :
  (forall limit docx_text q,
      In q (Word.extract_questions limit docx_text) ->
      (Word.text q <> [] /\ Word.full_content q <> []) /\
      opened_by_pattern q) /\
  (forall parsed q,
      In q (extract_questions Samples.serialize parsed) ->
      Xml.text q <> [] /\ full_section q <> []) /\
  (forall para,
      Word.is_question_start para = true ->
      Word.extract_question_text para <> []).
Proof.
  exact (@extractors_emit_nonempty_units Samples.serialize serialize_nonempty).
Defined.

End XmlFacts.

(** ** The matcher *)

Module MatcherFacts.
Import Py Matcher FloatOrder.

#[local] Arguments calculate_similarity : simpl never.

(** *** [list.remove] *)

Lemma list_remove_split x pre post :
  (forall y, In y pre -> y <> x) ->
  list_remove x (pre ++ x :: post) = Some (pre ++ post).
Proof.
  induction pre as [|y pre IH]; intros Hpre; cbn.
  - destruct (xml_eq_dec x x); congruence.
  - destruct (xml_eq_dec x y) as [->|_].
    + exfalso. apply (Hpre y); [now left | reflexivity].
    + rewrite IH; [reflexivity|]. intros z Hz. apply Hpre. now right.
Qed.

Lemma list_remove_perm x pool pool' :
  list_remove x pool = Some pool' -> Permutation (x :: pool') pool.
Proof.
  revert pool'. induction pool as [|y pool IH]; intros pool' H; cbn in H.
  - discriminate.
  - destruct (xml_eq_dec x y) as [->|_].
    + injection H as <-. apply Permutation_refl.
    + destruct (list_remove x pool) as [rest|]; [|discriminate].
      injection H as <-.
      eapply perm_trans; [apply perm_swap|].
      apply perm_skip, IH. reflexivity.
Qed.

Lemma list_remove_in x pool :
  In x pool -> exists pool', list_remove x pool = Some pool'.
Proof.
  induction pool as [|y pool IH]; intros Hin; cbn.
  - destruct Hin.
  - destruct (xml_eq_dec x y) as [->|Hne]; [eauto|].
    destruct Hin as [->|Hin]; [congruence|].
    destruct (IH Hin) as [rest ->]. eauto.
Qed.

Section Facts.
Variables fuzz_ratio fuzz_partial_ratio fuzz_token_sort_ratio : str -> str -> Z.
Variable similarity_threshold : float.

Abbreviation similarity :=
  (calculate_similarity fuzz_ratio fuzz_partial_ratio fuzz_token_sort_ratio).
Abbreviation best_of := (best_of fuzz_ratio fuzz_partial_ratio fuzz_token_sort_ratio).
Abbreviation find_best_match :=
  (find_best_match fuzz_ratio fuzz_partial_ratio fuzz_token_sort_ratio
     similarity_threshold).
Abbreviation match_loop :=
  (match_loop fuzz_ratio fuzz_partial_ratio fuzz_token_sort_ratio
     similarity_threshold).
Abbreviation match_questions :=
  (match_questions fuzz_ratio fuzz_partial_ratio fuzz_token_sort_ratio
     similarity_threshold).

(** *** The candidate loop picks from the pool *)

Lemma best_of_cons wt z pool best :
  best_of wt (z :: pool) best =
  if (snd best <? similarity wt (Xml.text z))%float
  then best_of wt pool (Some z, similarity wt (Xml.text z))
  else best_of wt pool best.
Proof. reflexivity. Qed.

Lemma best_of_in wt pool b0 s0 x :
  fst (best_of wt pool (b0, s0)) = Some x -> b0 = Some x \/ In x pool.
Proof.
  revert b0 s0. induction pool as [|z pool IH]; intros b0 s0 H.
  - now left.
  - rewrite best_of_cons in H. destruct (PrimFloat.ltb _ _).
    + destruct (IH _ _ H) as [E|E]; [injection E as ->|]; right; cbn; auto.
    + destruct (IH _ _ H) as [E|E]; [now left | right; cbn; auto].
Qed.

Lemma find_best_match_in w pool x s :
  find_best_match w pool = Some (Some x, s) -> In x pool.
Proof.
  unfold Matcher.find_best_match. cbn zeta.
  destruct (PrimFloat.leb _ _); [|discriminate].
  intros H. injection H as H.
  destruct (@best_of_in (Word.text w) pool None 0%float x) as [E|E];
    [rewrite H; reflexivity | discriminate | exact E].
Qed.

(** *** Partition of the structured side *)

Lemma match_loop_partition ws :
  forall a r,
    match_loop ws a = Returns r ->
    Permutation (map xml_question (matches r) ++ unmatched_xml r)
                (map xml_question (matches a) ++ unmatched_xml a).
Proof.
  induction ws as [|w ws IH]; intros a r H; cbn in H.
  - injection H as <-. apply Permutation_refl.
  - destruct (find_best_match w (unmatched_xml a)) as [[[x|] s]|] eqn:Hf.
    + destruct (list_remove x (unmatched_xml a)) as [pool|] eqn:Hr;
        [|discriminate].
      apply IH in H. cbn in H.
      eapply perm_trans; [exact H|].
      rewrite map_app, <- app_assoc. cbn.
      apply Permutation_app_head.
      apply list_remove_perm. exact Hr.
    + discriminate.
    + apply IH in H. exact H.
Qed.

(** *** Which candidate the loop keeps

    [R] relates the candidates of two runs; all it must preserve is the
    question text.  With [R := eq] the lemma describes a single run. *)

Section Related.
Variable R : Xml.question -> Xml.question -> Prop.
Hypothesis R_text : forall x x', R x x' -> Xml.text x = Xml.text x'.

Lemma best_of_related wt pool pool' :
  Forall2 R pool pool' ->
  forall b0 b0' s0,
    (best_of wt pool (b0, s0) = (b0, s0) /\
     best_of wt pool' (b0', s0) = (b0', s0) /\
     Forall (fun y => (s0 <? similarity wt (Xml.text y))%float = false) pool)
    \/
    (exists pre x post pre' x' post',
        pool = pre ++ x :: post /\ pool' = pre' ++ x' :: post' /\
        Forall2 R pre pre' /\ R x x' /\ Forall2 R post post' /\
        best_of wt pool (b0, s0) = (Some x, similarity wt (Xml.text x)) /\
        best_of wt pool' (b0', s0) = (Some x', similarity wt (Xml.text x)) /\
        (s0 <? similarity wt (Xml.text x))%float = true /\
        Forall (fun y => (similarity wt (Xml.text x)
                          <? similarity wt (Xml.text y))%float = false) post /\
        Forall (fun y =>
                  (similarity wt (Xml.text x)
                   <? similarity wt (Xml.text y))%float = false /\
                  similarity wt (Xml.text y) <> similarity wt (Xml.text x) /\
                  ((s0 <=? s0)%float = true ->
                   (similarity wt (Xml.text y)
                    <=? similarity wt (Xml.text y))%float = true ->
                   (similarity wt (Xml.text y)
                    <? similarity wt (Xml.text x))%float = true)) pre).
Proof.
  induction 1 as [|z z' pool pool' Hz Hpool IH]; intros b0 b0' s0.
  - left. cbn. auto.
  - rewrite !best_of_cons. cbn [snd]. rewrite <- (R_text Hz).
    set (sz := similarity wt (Xml.text z)).
    destruct (s0 <? sz)%float eqn:E.
    + destruct (IH (Some z) (Some z') sz)
        as [(H1 & H2 & H3) | (pre & x & post & pre' & x' & post' & Hp & Hp' &
                               Rpre & Rx & Rpost & H1 & H2 & Hlt & Hpost & Hpre)].
      * right. exists [], z, pool, [], z', pool'.
        repeat split; auto.
      * right. exists (z :: pre), x, post, (z' :: pre'), x', post'.
        subst pool pool'.
        repeat split; auto.
        -- eapply ltb_trans; eassumption.
        -- constructor.
           ++ repeat split.
              ** fold sz.
                 destruct (similarity wt (Xml.text x) <? sz)%float eqn:E2;
                   [|reflexivity].
                 pose proof (ltb_trans Hlt E2) as F.
                 rewrite ltb_irrefl in F. discriminate.
              ** intros F. fold sz in F. rewrite F, ltb_irrefl in Hlt.
                 discriminate.
              ** intros _ _. exact Hlt.
           ++ eapply Forall_impl; [|exact Hpre].
              cbn. intros y (A & B & C). repeat split; auto.
              intros _ Hy. apply C; [|exact Hy].
              eapply ltb_number; exact E.
    + destruct (IH b0 b0' s0)
        as [(H1 & H2 & H3) | (pre & x & post & pre' & x' & post' & Hp & Hp' &
                               Rpre & Rx & Rpost & H1 & H2 & Hlt & Hpost & Hpre)].
      * left. repeat split; auto.
      * right. exists (z :: pre), x, post, (z' :: pre'), x', post'.
        subst pool pool'.
        repeat split; auto.
        constructor; [|exact Hpre].
        repeat split.
        -- fold sz.
                 destruct (similarity wt (Xml.text x) <? sz)%float eqn:E2;
                   [|reflexivity].
           pose proof (ltb_trans Hlt E2) as F.
           rewrite E in F. discriminate.
        -- intros F. fold sz in F. rewrite <- F, E in Hlt. discriminate.
        -- intros H0 Hsz.
           eapply leb_ltb_trans; [|exact Hlt].
           apply leb_total; assumption.
Qed.

Lemma related_differs wt x pre pre' :
  Forall2 R pre pre' ->
  Forall (fun y => similarity wt (Xml.text y) <> similarity wt (Xml.text x)) pre ->
  forall x', R x x' -> forall y', In y' pre' -> y' <> x'.
Proof.
  induction 1 as [|y y' pre pre' Hy Hpre IH]; intros Hall x' Hx z Hz.
  - destruct Hz.
  - inversion Hall as [|? ? Hy0 Hall']; subst.
    destruct Hz as [<-|Hz]; [|now apply IH].
    intros ->. apply Hy0.
    rewrite (R_text Hy), (R_text Hx). reflexivity.
Qed.

(** One call of [find_best_match] in each of two related runs: both keep
    nothing, or both keep the candidate at the same place, and then
    [list.remove] takes it out at that place. *)
Lemma find_best_match_related w w' pool pool' :
  Word.text w = Word.text w' ->
  Forall2 R pool pool' ->
  (Forall (fun y => (0 <? similarity (Word.text w) (Xml.text y))%float = false) pool /\
   ((similarity_threshold <=? 0)%float = true /\
    find_best_match w pool = Some (None, 0%float) /\
    find_best_match w' pool' = Some (None, 0%float)
    \/
    (similarity_threshold <=? 0)%float = false /\
    find_best_match w pool = None /\ find_best_match w' pool' = None))
  \/
  (exists pre x post pre' x' post',
      pool = pre ++ x :: post /\ pool' = pre' ++ x' :: post' /\
      Forall2 R pre pre' /\ R x x' /\ Forall2 R post post' /\
      (0 <? similarity (Word.text w) (Xml.text x))%float = true /\
      Forall (fun y => (similarity (Word.text w) (Xml.text x)
                        <? similarity (Word.text w) (Xml.text y))%float = false)
             pool /\
      Forall (fun y =>
                (similarity (Word.text w) (Xml.text y) <=?
                 similarity (Word.text w) (Xml.text y))%float = true ->
                (similarity (Word.text w) (Xml.text y)
                 <? similarity (Word.text w) (Xml.text x))%float = true) pre /\
      list_remove x pool = Some (pre ++ post) /\
      list_remove x' pool' = Some (pre' ++ post') /\
      ((similarity_threshold <=? similarity (Word.text w) (Xml.text x))%float = true /\
       find_best_match w pool =
         Some (Some x, similarity (Word.text w) (Xml.text x)) /\
       find_best_match w' pool' =
         Some (Some x', similarity (Word.text w) (Xml.text x))
       \/
       (similarity_threshold <=? similarity (Word.text w) (Xml.text x))%float = false /\
       find_best_match w pool = None /\ find_best_match w' pool' = None)).
Proof.
  intros Hw Hpool. unfold Matcher.find_best_match. cbn zeta. rewrite <- Hw.
  destruct (best_of_related (Word.text w) Hpool None None 0%float)
    as [(H1 & H2 & H3) | (pre & x & post & pre' & x' & post' & Hp & Hp' &
                           Rpre & Rx & Rpost & H1 & H2 & Hlt & Hpost & Hpre)].
  - left. split; [exact H3|]. rewrite H1, H2. cbn [snd].
    destruct (similarity_threshold <=? 0)%float; [left | right]; auto.
  - right. exists pre, x, post, pre', x', post'.
    rewrite H1, H2. cbn [snd].
    assert (Hne : Forall (fun y => similarity (Word.text w) (Xml.text y)
                                   <> similarity (Word.text w) (Xml.text x)) pre).
    { eapply Forall_impl; [|exact Hpre]. cbn. tauto. }
    repeat split; auto.
    + subst pool. apply Forall_app. split.
      * eapply Forall_impl; [|exact Hpre]. cbn. tauto.
      * constructor; [apply ltb_irrefl | exact Hpost].
    + eapply Forall_impl; [|exact Hpre]. cbn. intros y (_ & _ & C) Hy.
      apply C; [reflexivity | exact Hy].
    + subst pool. apply list_remove_split.
      intros y Hy ->. rewrite Forall_forall in Hne. now apply (Hne x).
    + subst pool'. apply list_remove_split.
      eapply related_differs; eassumption.
    + destruct (similarity_threshold <=? _)%float; [left | right]; auto.
Qed.

End Related.

Lemma match_loop_cons w ws a :
  match_loop (w :: ws) a =
  match find_best_match w (unmatched_xml a) with
  | Some (Some xml_q, score) =>
      match list_remove xml_q (unmatched_xml a) with
      | Some pool =>
          match_loop ws
            (Alignment (matches a ++ [Pair w xml_q score]) (unmatched_word a) pool)
      | None => ValueError
      end
  | Some (None, _) => ValueError
  | None =>
      match_loop ws
        (Alignment (matches a) (unmatched_word a ++ [w]) (unmatched_xml a))
  end.
Proof.
  cbn [Matcher.match_loop].
  destruct (find_best_match w (unmatched_xml a)) as [[[x|] sc]|]; reflexivity.
Qed.

(** *** Content blocks do not steer the loop *)

Lemma same_but_content_x_text x x' :
  Vocabulary.same_but_content_x x x' -> Xml.text x = Xml.text x'.
Proof. intros (_ & H & _). exact H. Qed.

Lemma match_loop_related ws ws' :
  Forall2 Vocabulary.same_but_content_w ws ws' ->
  forall a a',
    Vocabulary.same_alignment a a' ->
    Vocabulary.same_outcome (match_loop ws a) (match_loop ws' a').
Proof.
  induction 1 as [|w w' ws ws' Hw Hws IH]; intros a a' (Hm & Hu & Hx).
  - cbn. repeat split; assumption.
  - rewrite !match_loop_cons.
    assert (Ht : Word.text w = Word.text w') by apply Hw.
    destruct (find_best_match_related same_but_content_x_text w w' Ht Hx)
      as [(_ & [(_ & -> & ->) | (_ & -> & ->)])
         | (pre & x & post & pre' & x' & post' & _ & _ & Rpre & Rx & Rpost & _ & _ & _
            & Hr & Hr' & [(_ & -> & ->) | (_ & -> & ->)])].
    + exact I.
    + apply IH. repeat split; cbn; auto.
      apply Forall2_app; auto.
    + rewrite Hr, Hr'. apply IH. repeat split; cbn; auto.
      * apply Forall2_app; auto. constructor; [|constructor].
        repeat split; cbn; try apply Hw; apply Rx.
      * apply Forall2_app; assumption.
    + apply IH. repeat split; cbn; auto.
      apply Forall2_app; auto.
Qed.

(** *** The loop on its own *)

Lemma eq_text (x x' : Xml.question) : x = x' -> Xml.text x = Xml.text x'.
Proof. now intros ->. Qed.

Lemma Forall2_eq_refl (l : list Xml.question) : Forall2 eq l l.
Proof. induction l; constructor; auto. Qed.

(** A positive threshold never meets the tuple [(None, 0.0)]. *)
Lemma match_loop_returns ws :
  (0 <? similarity_threshold)%float = true ->
  forall a, exists r, match_loop ws a = Returns r.
Proof.
  intros Hth. induction ws as [|w ws IH]; intros a.
  - cbn. eauto.
  - rewrite match_loop_cons.
    destruct (find_best_match_related eq_text w w eq_refl
                (Forall2_eq_refl (unmatched_xml a)))
      as [(_ & [(Hle & _) | (_ & -> & _)])
         | (pre & x & post & pre' & x' & post' & _ & _ & _ & _ & _ & _ & _ & _
            & Hr & _ & [(_ & -> & _) | (_ & -> & _)])].
    + rewrite (ltb_not_leb Hth) in Hle. discriminate.
    + apply IH.
    + rewrite Hr. apply IH.
    + apply IH.
Qed.

(** A threshold at or below zero does: when no candidate scores above
    zero the call ends in [list.remove(None)]. *)
Lemma match_loop_raises w ws a :
  (similarity_threshold <=? 0)%float = true ->
  Forall (fun y => (0 <? similarity (Word.text w) (Xml.text y))%float = false)
         (unmatched_xml a) ->
  find_best_match w (unmatched_xml a) = Some (None, 0%float) /\
  match_loop (w :: ws) a = ValueError.
Proof.
  intros Hth Hall. rewrite match_loop_cons.
  destruct (find_best_match_related eq_text w w eq_refl
              (Forall2_eq_refl (unmatched_xml a)))
    as [(_ & [(_ & E & _) | (Hle & _)])
       | (pre & x & post & pre' & x' & post' & Hp & _ & _ & _ & _ & Hlt & _)].
  - rewrite E. split; reflexivity.
  - rewrite Hth in Hle. discriminate.
  - rewrite Hp in Hall. apply Forall_app in Hall. destruct Hall as [_ Hall].
    inversion Hall as [|? ? Hx _]; subst. rewrite Hlt in Hx. discriminate.
Qed.

(** *** Scores *)

Lemma calculate_similarity_weighted text1 text2 :
  similarity text1 text2 =
  Vocabulary.weighted
    (fuzz_ratio (normalize_text text1) (normalize_text text2))
    (fuzz_partial_ratio (normalize_text text1) (normalize_text text2))
    (fuzz_token_sort_ratio (normalize_text text1) (normalize_text text2)).
Proof. reflexivity. Qed.

Lemma match_loop_accepts (P : float -> Prop) ws :
  (forall w x, (similarity_threshold <=? similarity (Word.text w) (Xml.text x))%float
                 = true ->
               P (similarity (Word.text w) (Xml.text x))) ->
  forall a r,
    match_loop ws a = Returns r ->
    Forall (fun m => P (similarity_score m)) (matches a) ->
    Forall (fun m => P (similarity_score m)) (matches r).
Proof.
  intros HP. induction ws as [|w ws IH]; intros a r H Ha.
  - cbn in H. injection H as <-. exact Ha.
  - rewrite match_loop_cons in H.
    destruct (find_best_match_related eq_text w w eq_refl
                (Forall2_eq_refl (unmatched_xml a)))
      as [(_ & [(_ & E & _) | (_ & E & _)])
         | (pre & x & post & pre' & x' & post' & _ & _ & _ & _ & _ & _ & _ & _
            & Hr & _ & [(Hle & E & _) | (_ & E & _)])];
      rewrite E in H.
    + discriminate.
    + apply IH in H; assumption.
    + rewrite Hr in H. apply IH in H; [assumption|]. cbn.
      apply Forall_app. split; [assumption|].
      constructor; [|constructor]. cbn. apply HP. exact Hle.
    + apply IH in H; assumption.
Qed.

Lemma match_loop_scored ws :
  forall a r,
    match_loop ws a = Returns r ->
    Forall (fun m => similarity_score m =
                     similarity (Word.text (word_question m))
                                (Xml.text (xml_question m))) (matches a) ->
    Forall (fun m => similarity_score m =
                     similarity (Word.text (word_question m))
                                (Xml.text (xml_question m))) (matches r).
Proof.
  induction ws as [|w ws IH]; intros a r H Ha.
  - cbn in H. injection H as <-. exact Ha.
  - rewrite match_loop_cons in H.
    destruct (find_best_match_related eq_text w w eq_refl
                (Forall2_eq_refl (unmatched_xml a)))
      as [(_ & [(_ & E & _) | (_ & E & _)])
         | (pre & x & post & pre' & x' & post' & _ & _ & _ & _ & _ & _ & _ & _
            & Hr & _ & [(Hle & E & _) | (_ & E & _)])];
      rewrite E in H.
    + discriminate.
    + apply IH in H; assumption.
    + rewrite Hr in H. apply IH in H; [assumption|]. cbn.
      apply Forall_app. split; [assumption|].
      constructor; [reflexivity | constructor].
    + apply IH in H; assumption.
Qed.

End Facts.

(** *** Index order of the pool *)

Lemma in_index_order_split pre x post :
  Vocabulary.in_index_order (pre ++ x :: post) ->
  Forall (fun y => Xml.xml_index x < Xml.xml_index y) post.
Proof.
  unfold Vocabulary.in_index_order.
  induction pre as [|z pre IH]; cbn; intros H;
    apply StronglySorted_inv in H; destruct H as [H1 H2]; auto.
Qed.

Lemma in_index_order_remove pre x post :
  Vocabulary.in_index_order (pre ++ x :: post) ->
  Vocabulary.in_index_order (pre ++ post).
Proof.
  unfold Vocabulary.in_index_order.
  induction pre as [|z pre IH]; cbn; intros H;
    apply StronglySorted_inv in H; destruct H as [H1 H2]; auto.
  constructor; [auto|].
  apply Forall_app in H2. destruct H2 as [A B].
  inversion B; subst. apply Forall_app. auto.
Qed.

(** *** The weighted average stays in the unit interval

    There are 101 percentages, so the bound is checked on every triple. *)

Lemma every_percentage_spec P :
  Vocabulary.every_percentage P = true ->
  forall z, (0 <= z <= 100)%Z -> P z = true.
Proof.
  unfold Vocabulary.every_percentage. intros H z Hz.
  rewrite forallb_forall in H. apply H.
  unfold Vocabulary.percentages. apply in_map_iff.
  exists (Z.to_nat z). split; [lia|]. apply in_seq. lia.
Qed.

Lemma weighted_checked :
  Vocabulary.every_percentage (fun r =>
    Vocabulary.every_percentage (fun p =>
      Vocabulary.every_percentage (fun t =>
        Vocabulary.unit_interval (Vocabulary.weighted r p t)))) = true.
Proof. vm_compute. reflexivity. Qed.

Lemma weighted_unit_interval r p t :
  (0 <= r <= 100)%Z -> (0 <= p <= 100)%Z -> (0 <= t <= 100)%Z ->
  Vocabulary.unit_interval (Vocabulary.weighted r p t) = true.
Proof.
  intros Hr Hp Ht.
  pose proof (every_percentage_spec _ weighted_checked Hr) as H1.
  cbv beta in H1.
  pose proof (every_percentage_spec _ H1 Hp) as H2. cbv beta in H2.
  exact (every_percentage_spec _ H2 Ht).
Qed.


(** *** With percentages for ratios and a positive threshold *)

Section Positive.
Variables fuzz_ratio fuzz_partial_ratio fuzz_token_sort_ratio : str -> str -> Z.
Variable similarity_threshold : float.
Hypothesis ratio_range : forall a b, (0 <= fuzz_ratio a b <= 100)%Z.
Hypothesis partial_ratio_range : forall a b, (0 <= fuzz_partial_ratio a b <= 100)%Z.
Hypothesis token_sort_ratio_range :
  forall a b, (0 <= fuzz_token_sort_ratio a b <= 100)%Z.

Abbreviation similarity' :=
  (calculate_similarity fuzz_ratio fuzz_partial_ratio fuzz_token_sort_ratio).
Abbreviation find_best_match' :=
  (Matcher.find_best_match fuzz_ratio fuzz_partial_ratio fuzz_token_sort_ratio
     similarity_threshold).

Lemma similarity_unit_interval text1 text2 :
  Vocabulary.unit_interval (similarity' text1 text2) = true.
Proof.
  rewrite calculate_similarity_weighted.
  apply weighted_unit_interval; auto.
Qed.

Lemma similarity_bounds text1 text2 :
  (0 <=? similarity' text1 text2)%float = true /\
  (similarity' text1 text2 <=? 1)%float = true.
Proof.
  pose proof (similarity_unit_interval text1 text2) as H.
  unfold Vocabulary.unit_interval in H.
  apply andb_true_iff in H. exact H.
Qed.

Lemma similarity_number text1 text2 :
  (similarity' text1 text2 <=? similarity' text1 text2)%float = true.
Proof. eapply leb_number. apply similarity_bounds. Qed.

(** What one call of [find_best_match] returns when the threshold is
    positive: the first of the candidates that none outscores, if it
    reaches the threshold; nothing if no candidate reaches it. *)
Lemma find_best_match_positive w pool :
  (0 <? similarity_threshold)%float = true ->
  (exists pre x post,
      pool = pre ++ x :: post /\
      find_best_match' w pool = Some (Some x, similarity' (Word.text w) (Xml.text x)) /\
      (similarity_threshold <=? similarity' (Word.text w) (Xml.text x))%float = true /\
      Forall (fun y => (similarity' (Word.text w) (Xml.text y)
                        <=? similarity' (Word.text w) (Xml.text x))%float = true) pool /\
      Forall (fun y => (similarity' (Word.text w) (Xml.text y)
                        <? similarity' (Word.text w) (Xml.text x))%float = true) pre /\
      list_remove x pool = Some (pre ++ post))
  \/
  (find_best_match' w pool = None /\
   Forall (fun y => (similarity_threshold
                     <=? similarity' (Word.text w) (Xml.text y))%float = false) pool).
Proof.
  intros Hth.
  destruct (find_best_match_related fuzz_ratio fuzz_partial_ratio
              fuzz_token_sort_ratio similarity_threshold eq_text w w eq_refl
              (Forall2_eq_refl pool))
    as [(Hall & [(Hle & _) | (Hle & E & _)])
       | (pre & x & post & pre' & x' & post' & Hp & _ & _ & _ & _ & _ & Hmax & Hpre
          & Hr & _ & [(Hle & E & _) | (Hle & E & _)])].
  - rewrite (ltb_not_leb Hth) in Hle. discriminate.
  - right. split; [exact E|].
    eapply Forall_impl; [|exact Hall]. cbn. intros y Hy.
    destruct (similarity_threshold <=? similarity' (Word.text w) (Xml.text y))%float
      eqn:F; [|reflexivity].
    assert (G : (similarity' (Word.text w) (Xml.text y) <=? 0)%float = true).
    { apply leb_total; [reflexivity | apply similarity_number | exact Hy]. }
    rewrite (leb_trans F G) in Hle. discriminate.
  - left. exists pre, x, post. repeat split; auto.
    + eapply Forall_impl; [|exact Hmax]. cbn. intros y Hy.
      apply leb_total; auto using similarity_number.
    + eapply Forall_impl; [|exact Hpre]. cbn. intros y Hy.
      apply Hy, similarity_number.
  - right. split; [exact E|].
    eapply Forall_impl; [|exact Hmax]. cbn. intros y Hy.
    destruct (similarity_threshold <=? similarity' (Word.text w) (Xml.text y))%float
      eqn:F; [|reflexivity].
    assert (G : (similarity' (Word.text w) (Xml.text y)
                 <=? similarity' (Word.text w) (Xml.text x))%float = true).
    { apply leb_total; auto using similarity_number. }
    rewrite (leb_trans F G) in Hle. discriminate.
Qed.

(** One turn of the [for word_q] loop under the same assumptions: the
    kept candidate is matched and leaves the pool, which stays in index
    order, and ties go to the smallest [xml_index]; or the word question
    goes to the unmatched list and the pool is untouched. *)
Lemma match_loop_turn w ws a :
  (0 <? similarity_threshold)%float = true ->
  (exists pre x post,
      unmatched_xml a = pre ++ x :: post /\
      (similarity_threshold <=? similarity' (Word.text w) (Xml.text x))%float = true /\
      Forall (fun y => (similarity' (Word.text w) (Xml.text y)
                        <=? similarity' (Word.text w) (Xml.text x))%float = true)
             (unmatched_xml a) /\
      (Vocabulary.in_index_order (unmatched_xml a) ->
       Forall (fun y => (similarity' (Word.text w) (Xml.text x)
                         <=? similarity' (Word.text w) (Xml.text y))%float = true ->
                        Xml.xml_index x <= Xml.xml_index y) (unmatched_xml a) /\
       Vocabulary.in_index_order (pre ++ post)) /\
      Matcher.match_loop fuzz_ratio fuzz_partial_ratio fuzz_token_sort_ratio
        similarity_threshold (w :: ws) a =
      Matcher.match_loop fuzz_ratio fuzz_partial_ratio fuzz_token_sort_ratio
        similarity_threshold ws
        (Alignment (matches a ++ [Pair w x (similarity' (Word.text w) (Xml.text x))])
                   (unmatched_word a) (pre ++ post)))
  \/
  (Forall (fun y => (similarity_threshold
                     <=? similarity' (Word.text w) (Xml.text y))%float = false)
          (unmatched_xml a) /\
   Matcher.match_loop fuzz_ratio fuzz_partial_ratio fuzz_token_sort_ratio
     similarity_threshold (w :: ws) a =
   Matcher.match_loop fuzz_ratio fuzz_partial_ratio fuzz_token_sort_ratio
     similarity_threshold ws
     (Alignment (matches a) (unmatched_word a ++ [w]) (unmatched_xml a))).
Proof.
  intros Hth. rewrite match_loop_cons.
  destruct (find_best_match_positive w (unmatched_xml a) Hth)
    as [(pre & x & post & Hp & E & Hle & Hmax & Hpre & Hr) | (E & Hall)].
  - left. exists pre, x, post. rewrite E, Hr.
    split; [exact Hp|]. split; [exact Hle|]. split; [exact Hmax|].
    split; [|reflexivity].
    intros Hord. rewrite Hp in Hord |- *. split.
    + apply Forall_app. split.
      * eapply Forall_impl; [|exact Hpre]. cbn. intros y Hy Hxy.
        rewrite (ltb_not_leb Hy) in Hxy. discriminate.
      * constructor; [auto|].
        eapply Forall_impl; [|exact (in_index_order_split _ _ _ Hord)].
        cbn. intros y Hy _. lia.
    + exact (in_index_order_remove _ _ _ Hord).
  - right. rewrite E. auto.
Qed.

(** The scenario of the specification: of two candidates the later one
    scores higher and reaches the threshold; it is matched and the earlier
    one stays unmatched. *)
Lemma higher_candidate_wins w a b :
  (0 <? similarity' (Word.text w) (Xml.text a))%float = true ->
  (similarity' (Word.text w) (Xml.text a)
   <? similarity' (Word.text w) (Xml.text b))%float = true ->
  (similarity_threshold <=? similarity' (Word.text w) (Xml.text b))%float = true ->
  Matcher.match_questions fuzz_ratio fuzz_partial_ratio fuzz_token_sort_ratio
    similarity_threshold [w] [a; b]
  = Returns (Alignment [Pair w b (similarity' (Word.text w) (Xml.text b))] [] [a]).
Proof.
  intros Ha Hab Hb.
  unfold Matcher.match_questions. rewrite match_loop_cons.
  unfold Matcher.find_best_match. cbn [unmatched_xml].
  rewrite !best_of_cons. cbn [snd]. rewrite Ha. cbn [snd]. rewrite Hab.
  cbn [Matcher.best_of snd]. rewrite Hb.
  cbn [list_remove].
  destruct (xml_eq_dec b a) as [->|_].
  - rewrite ltb_irrefl in Hab. discriminate.
  - destruct (xml_eq_dec b b); [reflexivity | congruence].
Qed.

(** With a positive threshold [match_questions] always returns. *)
Lemma match_questions_returns word_questions xml_questions :
  (0 <? similarity_threshold)%float = true ->
  exists r,
    Matcher.match_questions fuzz_ratio fuzz_partial_ratio fuzz_token_sort_ratio
      similarity_threshold word_questions xml_questions = Returns r.
Proof. intros Hth. now apply match_loop_returns. Qed.

End Positive.

(** *** Empty sides *)

Section EmptySides.
Variables fuzz_ratio fuzz_partial_ratio fuzz_token_sort_ratio : str -> str -> Z.
Variable similarity_threshold : float.

Lemma match_questions_no_words xml_questions :
  Matcher.match_questions fuzz_ratio fuzz_partial_ratio fuzz_token_sort_ratio
    similarity_threshold [] xml_questions
  = Returns (Alignment [] [] xml_questions).
Proof. reflexivity. Qed.

Lemma match_loop_no_candidates ws :
  (similarity_threshold <=? 0)%float = false ->
  forall ms us,
    Matcher.match_loop fuzz_ratio fuzz_partial_ratio fuzz_token_sort_ratio
      similarity_threshold ws (Alignment ms us [])
    = Returns (Alignment ms (us ++ ws) []).
Proof.
  intros Hth. induction ws as [|w ws IH]; intros ms us.
  - cbn. now rewrite app_nil_r.
  - rewrite match_loop_cons. unfold Matcher.find_best_match.
    cbn [unmatched_xml Matcher.best_of snd]. rewrite Hth.
    rewrite IH. cbn. now rewrite <- app_assoc.
Qed.

Lemma match_questions_no_candidates word_questions :
  (similarity_threshold <=? 0)%float = false ->
  Matcher.match_questions fuzz_ratio fuzz_partial_ratio fuzz_token_sort_ratio
    similarity_threshold word_questions []
  = Returns (Alignment [] word_questions []).
Proof.
  intros Hth. unfold Matcher.match_questions.
  now rewrite match_loop_no_candidates.
Qed.

End EmptySides.

(** *** Statements about the aligner *)

(** C2, at a threshold of zero or below.  The specification has the best
    candidate matched and removed whenever its score reaches the threshold.  When no
    candidate in the pool scores above zero, [find_best_match] instead
    returns the tuple [(None, 0.0)], and [match_questions] ends in the
    [ValueError] of [unmatched_xml.remove(None)]. *)
Theorem find_best_match_returns_no_unit
  (fuzz_ratio fuzz_partial_ratio fuzz_token_sort_ratio : str -> str -> Z)
  (similarity_threshold : float) w ws xml_questions :
  (similarity_threshold <=? 0)%float = true ->
  Forall (fun y =>
            (0 <? calculate_similarity fuzz_ratio fuzz_partial_ratio
                    fuzz_token_sort_ratio (Word.text w) (Xml.text y))%float = false)
         xml_questions ->
  find_best_match fuzz_ratio fuzz_partial_ratio fuzz_token_sort_ratio
    similarity_threshold w xml_questions = Some (None, 0%float) /\
  match_questions fuzz_ratio fuzz_partial_ratio fuzz_token_sort_ratio
    similarity_threshold (w :: ws) xml_questions = ValueError.
Proof.
  intros Hth Hall.
  exact (@match_loop_raises fuzz_ratio fuzz_partial_ratio fuzz_token_sort_ratio
           similarity_threshold w ws (Alignment [] [] xml_questions) Hth Hall).
Qed.

Lemma find_best_match_returns_no_unit_witness :
  ((0 <=? 0)%float = true /\
   Forall (fun y =>
             (0 <? calculate_similarity Samples.fuzz_equal Samples.fuzz_equal
                     Samples.fuzz_equal (Word.text Samples.word_abc)
                     (Xml.text y))%float = false)
          [Samples.xml_xyz]) /\
  (find_best_match Samples.fuzz_equal Samples.fuzz_equal Samples.fuzz_equal
     0%float Samples.word_abc [Samples.xml_xyz] = Some (None, 0%float) /\
   match_questions Samples.fuzz_equal Samples.fuzz_equal Samples.fuzz_equal
     0%float [Samples.word_abc] [Samples.xml_xyz] = ValueError).
Proof.
  assert (H1 : (0 <=? 0)%float = true) by reflexivity.
  assert (H2 : Forall (fun y =>
             (0 <? calculate_similarity Samples.fuzz_equal Samples.fuzz_equal
                     Samples.fuzz_equal (Word.text Samples.word_abc)
                     (Xml.text y))%float = false)
          [Samples.xml_xyz]).
  { constructor; [vm_compute; reflexivity | constructor]. }
  split; [split; assumption|].
  exact (@find_best_match_returns_no_unit Samples.fuzz_equal Samples.fuzz_equal
           Samples.fuzz_equal 0%float Samples.word_abc [] [Samples.xml_xyz] H1 H2).
Defined.

(** C3.  Whatever the threshold, when [match_questions] returns, the
    structured units of the matches together with [unmatched_xml] are the
    input list up to order, each occurrence once; so a unit is in at most
    one match, and without duplicates in the input there are none in the
    output. *)
Theorem match_questions_partition
  (fuzz_ratio fuzz_partial_ratio fuzz_token_sort_ratio : str -> str -> Z)
  (similarity_threshold : float) word_questions xml_questions r :
  match_questions fuzz_ratio fuzz_partial_ratio fuzz_token_sort_ratio
    similarity_threshold word_questions xml_questions = Returns r ->
  Permutation (map xml_question (matches r) ++ unmatched_xml r) xml_questions /\
  (NoDup xml_questions ->
   NoDup (map xml_question (matches r) ++ unmatched_xml r)).
Proof.
  intros H. apply match_loop_partition in H. cbn in H.
  split; [exact H|].
  intros Hnd. eapply Permutation_NoDup; [|exact Hnd].
  apply Permutation_sym. exact H.
Qed.

Lemma match_questions_partition_witness :
  match_questions Samples.fuzz_equal Samples.fuzz_equal Samples.fuzz_equal
    Samples.default_threshold [Samples.word_abc; Samples.word_def]
    [Samples.xml_xyz; Samples.xml_abc]
  = Returns (Alignment [Pair Samples.word_abc Samples.xml_abc 1%float]
                       [Samples.word_def] [Samples.xml_xyz]) /\
  (Permutation [Samples.xml_abc; Samples.xml_xyz] [Samples.xml_xyz; Samples.xml_abc] /\
   (NoDup [Samples.xml_xyz; Samples.xml_abc] ->
    NoDup [Samples.xml_abc; Samples.xml_xyz])).
Proof.
  assert (H : match_questions Samples.fuzz_equal Samples.fuzz_equal
                Samples.fuzz_equal Samples.default_threshold
                [Samples.word_abc; Samples.word_def]
                [Samples.xml_xyz; Samples.xml_abc]
              = Returns (Alignment [Pair Samples.word_abc Samples.xml_abc 1%float]
                                   [Samples.word_def] [Samples.xml_xyz])).
  { vm_compute. reflexivity. }
  split; [exact H|].
  exact (@match_questions_partition _ _ _ _ _ _ _ H).
Defined.

(** C4.  With the three ratios percentages, [calculate_similarity] lies in
    [0, 1] for every two texts, and every match [match_questions] returns
    carries a score between the threshold and 1. *)
Theorem accepted_scores_between_threshold_and_one
  (fuzz_ratio fuzz_partial_ratio fuzz_token_sort_ratio : str -> str -> Z)
  (similarity_threshold : float) :
  (forall a b, (0 <= fuzz_ratio a b <= 100)%Z) ->
  (forall a b, (0 <= fuzz_partial_ratio a b <= 100)%Z) ->
  (forall a b, (0 <= fuzz_token_sort_ratio a b <= 100)%Z) ->
  (forall text1 text2,
      (0 <=? calculate_similarity fuzz_ratio fuzz_partial_ratio
               fuzz_token_sort_ratio text1 text2)%float = true /\
      (calculate_similarity fuzz_ratio fuzz_partial_ratio
         fuzz_token_sort_ratio text1 text2 <=? 1)%float = true) /\
  (forall word_questions xml_questions r,
      match_questions fuzz_ratio fuzz_partial_ratio fuzz_token_sort_ratio
        similarity_threshold word_questions xml_questions = Returns r ->
      Forall (fun m =>
                (similarity_threshold <=? similarity_score m)%float = true /\
                (similarity_score m <=? 1)%float = true) (matches r)).
Proof.
  intros Hr Hp Ht. split.
  - intros. apply similarity_bounds; assumption.
  - intros ws xs r H.
    eapply match_loop_accepts
      with (P := fun s => (similarity_threshold <=? s)%float = true /\
                          (s <=? 1)%float = true) in H.
    + exact H.
    + intros w x Hle. split; [exact Hle|]. apply similarity_bounds; assumption.
    + constructor.
Qed.

Lemma fuzz_equal_range a b : (0 <= Samples.fuzz_equal a b <= 100)%Z.
Proof. unfold Samples.fuzz_equal. destruct (str_eqb a b); lia. Defined.

Lemma accepted_scores_between_threshold_and_one_witness :
  (forall text1 text2,
      (0 <=? calculate_similarity Samples.fuzz_equal Samples.fuzz_equal
               Samples.fuzz_equal text1 text2)%float = true /\
      (calculate_similarity Samples.fuzz_equal Samples.fuzz_equal
         Samples.fuzz_equal text1 text2 <=? 1)%float = true) /\
  (forall word_questions xml_questions r,
      match_questions Samples.fuzz_equal Samples.fuzz_equal Samples.fuzz_equal
        Samples.default_threshold word_questions xml_questions = Returns r ->
      Forall (fun m =>
                (Samples.default_threshold <=? similarity_score m)%float = true /\
                (similarity_score m <=? 1)%float = true) (matches r)).
Proof.
  exact (@accepted_scores_between_threshold_and_one Samples.fuzz_equal
           Samples.fuzz_equal Samples.fuzz_equal Samples.default_threshold
           fuzz_equal_range fuzz_equal_range fuzz_equal_range).
Defined.

(** C10.  Two runs of [match_questions] whose word questions and
    structured units agree pairwise on everything but the content block
    ([full_content], [full_section]) end alike: both raise, or both return
    alignments that agree pairwise in the same way, match for match with
    equal scores.  The score itself is [calculate_similarity] of the two
    [text] fields. *)
Theorem match_questions_ignores_content_blocks
  (fuzz_ratio fuzz_partial_ratio fuzz_token_sort_ratio : str -> str -> Z)
  (similarity_threshold : float) ws ws' xs xs' :
  Forall2 Vocabulary.same_but_content_w ws ws' ->
  Forall2 Vocabulary.same_but_content_x xs xs' ->
  Vocabulary.same_outcome
    (match_questions fuzz_ratio fuzz_partial_ratio fuzz_token_sort_ratio
       similarity_threshold ws xs)
    (match_questions fuzz_ratio fuzz_partial_ratio fuzz_token_sort_ratio
       similarity_threshold ws' xs') /\
  (forall r, match_questions fuzz_ratio fuzz_partial_ratio fuzz_token_sort_ratio
               similarity_threshold ws xs = Returns r ->
             Forall (fun m =>
                       similarity_score m =
                       calculate_similarity fuzz_ratio fuzz_partial_ratio
                         fuzz_token_sort_ratio
                         (Word.text (word_question m))
                         (Xml.text (xml_question m))) (matches r)).
Proof.
  intros Hw Hx. split.
  - apply match_loop_related; [exact Hw|].
    repeat split; cbn; auto.
  - intros r H. unfold match_questions in H.
    eapply match_loop_scored; [exact H | constructor].
Qed.

Lemma match_questions_ignores_content_blocks_witness :
  (Forall2 Vocabulary.same_but_content_w [Samples.word_abc] [Samples.word_abc_long] /\
   Forall2 Vocabulary.same_but_content_x [Samples.xml_abc; Samples.xml_xyz]
           [Samples.xml_abc_page; Samples.xml_xyz]) /\
  (Vocabulary.same_outcome
     (match_questions Samples.fuzz_equal Samples.fuzz_equal Samples.fuzz_equal
        Samples.default_threshold [Samples.word_abc]
        [Samples.xml_abc; Samples.xml_xyz])
     (match_questions Samples.fuzz_equal Samples.fuzz_equal Samples.fuzz_equal
        Samples.default_threshold [Samples.word_abc_long]
        [Samples.xml_abc_page; Samples.xml_xyz]) /\
   (forall r, match_questions Samples.fuzz_equal Samples.fuzz_equal
                Samples.fuzz_equal Samples.default_threshold [Samples.word_abc]
                [Samples.xml_abc; Samples.xml_xyz] = Returns r ->
              Forall (fun m =>
                        similarity_score m =
                        calculate_similarity Samples.fuzz_equal Samples.fuzz_equal
                          Samples.fuzz_equal
                          (Word.text (word_question m))
                          (Xml.text (xml_question m))) (matches r))).
Proof.
  assert (Hw : Forall2 Vocabulary.same_but_content_w
                 [Samples.word_abc] [Samples.word_abc_long]).
  { repeat constructor. }
  assert (Hx : Forall2 Vocabulary.same_but_content_x
                 [Samples.xml_abc; Samples.xml_xyz]
                 [Samples.xml_abc_page; Samples.xml_xyz]).
  { repeat constructor. }
  split; [split; assumption|].
  exact (@match_questions_ignores_content_blocks Samples.fuzz_equal
           Samples.fuzz_equal Samples.fuzz_equal Samples.default_threshold
           _ _ _ _ Hw Hx).
Defined.

End MatcherFacts.

(** ** The driver *)

Module SplitterFacts.
Import Py Matcher Splitter.

Section Guards.
Variables fuzz_ratio fuzz_partial_ratio fuzz_token_sort_ratio : str -> str -> Z.
Variable fromstring : str -> option Xml.element.
Variable tostring : Xml.element -> str.
Variable similarity_threshold : float.
Variable content_limit : Z.

Abbreviation run_pair :=
  (process_survey_pair fuzz_ratio fuzz_partial_ratio fuzz_token_sort_ratio
     fromstring tostring similarity_threshold content_limit).



End Guards.



End SplitterFacts.

(** ** normalize_text *)

Module NormalizeFacts.
Import Py Matcher Notions.

(** There are 256 characters: a fact about one character is checked on
    each. *)
Ltac each_char c := destruct c as [[] [] [] [] [] [] [] []]; reflexivity.

Lemma lower_char_idem c : lower_char (lower_char c) = lower_char c.
Proof. each_char c. Qed.

Lemma is_space_lower c : is_space (lower_char c) = is_space c.
Proof. each_char c. Qed.

Lemma is_word_lower c : is_word (lower_char c) = is_word c.
Proof. each_char c. Qed.

Lemma is_qmark_lower c : is_char 63 (lower_char c) = is_char 63 c.
Proof. each_char c. Qed.

Lemma is_blank_lower c : is_char 32 (lower_char c) = is_char 32 c.
Proof. each_char c. Qed.

Lemma space_not_word c : (is_space c && (is_word c || is_char 63 c))%bool = false.
Proof. each_char c. Qed.

Lemma blank_is_space c : is_char 32 c = true -> is_space c = true.
Proof.
  unfold is_char. intros H. apply N.eqb_eq in H.
  unfold is_space, between, is_char. rewrite H. reflexivity.
Qed.

Lemma is_char_eq n c : (n < 256)%N -> is_char n c = true -> c = ascii_of_N n.
Proof.
  unfold is_char, code. intros Hn H. apply N.eqb_eq in H.
  rewrite <- H. symmetry. apply ascii_N_embedding.
Qed.

(** *** The stages, one by one *)

Lemma lstrip_suffix s : exists pre, s = pre ++ lstrip s.
Proof.
  induction s as [|c s (pre & IH)]; [now exists []|].
  cbn. destruct (is_space c).
  - exists (c :: pre). cbn. now rewrite <- IH.
  - now exists [].
Qed.

Lemma rstrip_prefix s : exists post, s = rstrip s ++ post.
Proof.
  unfold rstrip. destruct (lstrip_suffix (rev s)) as (pre & H).
  exists (rev pre). rewrite <- rev_app_distr, <- H. now rewrite rev_involutive.
Qed.

(** What [strip] returns sits inside its argument. *)
Lemma strip_inside s : exists pre post, s = pre ++ strip s ++ post.
Proof.
  unfold strip. destruct (lstrip_suffix s) as (pre & H).
  destruct (rstrip_prefix (lstrip s)) as (post & H').
  exists pre, post. now rewrite <- H', <- H.
Qed.

Lemma lstrip_starts_clean s : starts_clean (lstrip s) = true.
Proof.
  induction s as [|c s IH]; [reflexivity|].
  cbn [lstrip]. destruct (is_space c) eqn:E; [exact IH|].
  cbn. now rewrite E.
Qed.

Lemma starts_clean_prefix s post :
  s <> [] -> starts_clean (s ++ post) = true -> starts_clean s = true.
Proof. destruct s; [congruence | auto]. Qed.

Lemma strip_starts_clean s : starts_clean (strip s) = true.
Proof.
  unfold strip. destruct (rstrip_prefix (lstrip s)) as (post & H).
  destruct (rstrip (lstrip s)) as [|c r] eqn:E; [reflexivity|].
  apply (@starts_clean_prefix _ post); [discriminate|].
  rewrite <- H. apply lstrip_starts_clean.
Qed.

Lemma single_spaced_cons c d r :
  single_spaced (c :: d :: r)
  = (negb (is_space c && is_space d) && single_spaced (d :: r))%bool.
Proof. reflexivity. Qed.

Lemma single_spaced_suffix pre s :
  single_spaced (pre ++ s) = true -> single_spaced s = true.
Proof.
  induction pre as [|c pre IH]; [auto|].
  cbn [app]. intros H. apply IH.
  destruct (pre ++ s); [reflexivity|].
  rewrite single_spaced_cons in H. apply andb_true_iff in H. apply H.
Qed.

Lemma single_spaced_prefix s post :
  single_spaced (s ++ post) = true -> single_spaced s = true.
Proof.
  induction s as [|c s IH]; [reflexivity|].
  cbn [app]. intros H. destruct s as [|d s]; [reflexivity|].
  cbn [app] in H. rewrite single_spaced_cons in H |- *.
  apply andb_true_iff in H. destruct H as [H1 H2].
  rewrite H1. cbn [andb]. apply IH. exact H2.
Qed.

(** [collapse_spaces] leaves no two whitespace characters side by side, and
    none in front after a whitespace character. *)
Lemma collapse_spaces_single s :
  forall in_run,
    single_spaced (collapse_spaces in_run s) = true /\
    (in_run = true -> starts_clean (collapse_spaces in_run s) = true).
Proof.
  induction s as [|c s IH]; intros in_run; [split; reflexivity|].
  cbn [collapse_spaces]. destruct (is_space c) eqn:E.
  - destruct in_run.
    + apply IH.
    + split; [|discriminate].
      destruct (IH true) as [H1 H2]. specialize (H2 eq_refl).
      destruct (collapse_spaces true s) as [|d r]; [reflexivity|].
      rewrite single_spaced_cons, H1.
      cbn in H2. apply negb_true_iff in H2. rewrite H2.
      now rewrite andb_false_r.
  - split.
    + destruct (IH false) as [H1 _].
      destruct (collapse_spaces false s) as [|d r]; [reflexivity|].
      now rewrite single_spaced_cons, H1, E.
    + intros _. cbn. now rewrite E.
Qed.

(** After [blank_punctuation]: word characters, whitespace and question
    marks. *)
Lemma blank_punctuation_chars s :
  Forall (fun c => (is_word c || is_space c || is_char 63 c)%bool = true)
         (blank_punctuation s).
Proof.
  unfold blank_punctuation. induction s as [|c s IH]; cbn; constructor; auto.
  destruct (is_word c || is_space c || is_char 63 c)%bool eqn:E; [exact E|].
  reflexivity.
Qed.

(** After [collapse_spaces] on that: word characters, the blank and
    question marks. *)
Lemma collapse_spaces_chars s :
  Forall (fun c => (is_word c || is_space c || is_char 63 c)%bool = true) s ->
  forall in_run,
    Forall (fun c => (is_word c || is_char 32 c || is_char 63 c)%bool = true)
           (collapse_spaces in_run s).
Proof.
  induction 1 as [|c s Hc _ IH]; intros in_run; [constructor|].
  cbn [collapse_spaces]. destruct (is_space c) eqn:E.
  - destruct in_run; [apply IH|]. constructor; [reflexivity | apply IH].
  - constructor; [|apply IH].
    rewrite orb_false_r in Hc.
    apply orb_true_iff in Hc. destruct Hc as [-> | ->]; [reflexivity|].
    now rewrite !orb_true_r.
Qed.

Lemma Forall_inside (P : ascii -> Prop) pre s post :
  Forall P (pre ++ s ++ post) -> Forall P s.
Proof.
  intros H. apply Forall_app in H. destruct H as [_ H].
  apply Forall_app in H. apply H.
Qed.

Lemma strip_chars (P : ascii -> Prop) s : Forall P s -> Forall P (strip s).
Proof.
  destruct (strip_inside s) as (pre & post & H). rewrite H at 1.
  apply Forall_inside.
Qed.

Lemma strip_single_spaced s : single_spaced s = true -> single_spaced (strip s) = true.
Proof.
  destruct (strip_inside s) as (pre & post & H). rewrite H at 1.
  intros Hs. apply single_spaced_suffix in Hs.
  now apply single_spaced_prefix in Hs.
Qed.

Lemma ends_clean_lower s :
  Vocabulary.ends_clean (lower s) = Vocabulary.ends_clean s.
Proof.
  unfold lower. induction s as [|c s IH]; [reflexivity|].
  destruct s as [|d s].
  - cbn. now rewrite is_space_lower.
  - change (map lower_char (c :: d :: s))
      with (lower_char c :: map lower_char (d :: s)).
    rewrite (@TextFacts.ends_clean_tail (lower_char c) (map lower_char (d :: s)))
      by discriminate.
    rewrite (@TextFacts.ends_clean_tail c (d :: s)) by discriminate.
    exact IH.
Qed.

Lemma single_spaced_lower s : single_spaced (lower s) = single_spaced s.
Proof.
  unfold lower. induction s as [|c s IH]; [reflexivity|].
  destruct s as [|d s]; [reflexivity|].
  change (map lower_char (c :: d :: s))
    with (lower_char c :: lower_char d :: map lower_char s).
  rewrite !single_spaced_cons, !is_space_lower. f_equal. exact IH.
Qed.

Lemma starts_clean_lower s : starts_clean (lower s) = starts_clean s.
Proof. destruct s; cbn; [reflexivity|]. now rewrite is_space_lower. Qed.

Lemma normal_after_lower c :
  (is_word c || is_char 32 c || is_char 63 c)%bool = true ->
  normal_char (lower_char c) = true.
Proof.
  intros H. unfold normal_char.
  rewrite is_word_lower, is_blank_lower, is_qmark_lower, H, lower_char_idem.
  now rewrite Ascii.eqb_refl.
Qed.

(** *** What comes out *)

Lemma normalize_text_unfold text :
  normalize_text text =
  lower (strip (collapse_spaces false
          (blank_punctuation
             (fold_left (fun t artifact => delete_from artifact 0 t) artifacts
                (strip (collapse_spaces false text)))))).
Proof. reflexivity. Qed.

Lemma normalize_text_normal text :
  Forall (fun c => normal_char c = true) (normalize_text text) /\
  single_spaced (normalize_text text) = true /\
  starts_clean (normalize_text text) = true /\
  Vocabulary.ends_clean (normalize_text text) = true.
Proof.
  rewrite normalize_text_unfold.
  set (t := blank_punctuation _).
  split; [|split; [|split]].
  - unfold lower. apply Forall_map.
    eapply Forall_impl; [intros c; apply normal_after_lower|].
    apply strip_chars, collapse_spaces_chars, blank_punctuation_chars.
  - rewrite single_spaced_lower. apply strip_single_spaced.
    apply collapse_spaces_single.
  - rewrite starts_clean_lower. apply strip_starts_clean.
  - rewrite ends_clean_lower. apply TextFacts.ends_clean_strip.
Qed.

(** X1.  On text of code points below 256, what [normalize_text] returns
    is made of lower-case word characters, question marks and single
    blanks, with no blank in front or at the end. *)
Theorem normalize_text_shape text :
  Forall (fun c => normal_char c = true) (normalize_text text) /\
  single_spaced (normalize_text text) = true /\
  starts_clean (normalize_text text) = true /\
  Vocabulary.ends_clean (normalize_text text) = true.
Proof. apply normalize_text_normal. Qed.

(** *** Normal text is left alone *)

Lemma normal_space_is_blank c :
  normal_char c = true -> is_space c = true -> c = ascii_of_N 32.
Proof.
  intros Hn Hs. apply is_char_eq; [reflexivity|].
  unfold normal_char in Hn. apply andb_true_iff in Hn. destruct Hn as [Hn _].
  pose proof (space_not_word c) as Hw. rewrite Hs in Hw. cbn [andb] in Hw.
  apply orb_false_iff in Hw. destruct Hw as [Hw Hq].
  rewrite Hw, Hq in Hn. cbn in Hn. now rewrite orb_false_r in Hn.
Qed.

Lemma collapse_spaces_fixed s :
  Forall (fun c => normal_char c = true) s ->
  forall in_run,
    single_spaced s = true ->
    (in_run = true -> starts_clean s = true) ->
    collapse_spaces in_run s = s.
Proof.
  induction 1 as [|c s Hc Hs IH]; intros in_run Hsingle Hstart; [reflexivity|].
  cbn [collapse_spaces]. destruct (is_space c) eqn:E.
  - destruct in_run.
    + specialize (Hstart eq_refl). cbn in Hstart. rewrite E in Hstart. discriminate.
    + rewrite <- (normal_space_is_blank _ Hc E). f_equal.
      destruct s as [|d s]; [reflexivity|].
      rewrite single_spaced_cons, E in Hsingle. cbn [andb] in Hsingle.
      apply andb_true_iff in Hsingle. destruct Hsingle as [Hd Hsingle].
      apply IH; [exact Hsingle|]. intros _. exact Hd.
  - f_equal. apply IH; [|discriminate].
    destruct s as [|d s]; [reflexivity|].
    rewrite single_spaced_cons in Hsingle.
    apply andb_true_iff in Hsingle. apply Hsingle.
Qed.

Lemma strip_fixed s :
  starts_clean s = true -> Vocabulary.ends_clean s = true -> strip s = s.
Proof.
  intros Hstart Hend. unfold strip.
  destruct s as [|c s]; [reflexivity|].
  cbn in Hstart. apply negb_true_iff in Hstart.
  cbn [lstrip]. rewrite Hstart.
  apply WordFacts.rstrip_clean; [discriminate | exact Hend].
Qed.

Lemma normal_not_paren c :
  normal_char c = true -> same_letter (ascii_of_N 40) c = false.
Proof.
  intros H. destruct (same_letter (ascii_of_N 40) c) eqn:E; [|reflexivity].
  exfalso. revert H E.
  destruct c as [[] [] [] [] [] [] [] []]; cbv; congruence.
Qed.

Lemma delete_from_fixed a artifact s :
  Forall (fun c => same_letter a c = false) s ->
  delete_from (a :: artifact) 0 s = s.
Proof.
  induction 1 as [|c s Hc _ IH]; [reflexivity|].
  cbn [delete_from starts_with_ci]. rewrite Hc. cbn [andb]. now rewrite IH.
Qed.

Lemma artifacts_fixed s :
  Forall (fun c => normal_char c = true) s ->
  fold_left (fun t artifact => delete_from artifact 0 t) artifacts s = s.
Proof.
  intros H.
  assert (Hp : Forall (fun c => same_letter (ascii_of_N 40) c = false) s).
  { eapply Forall_impl; [|exact H]. apply normal_not_paren. }
  unfold artifacts. cbn [fold_left lit list_ascii_of_string].
  change "("%char with (ascii_of_N 40).
  now rewrite !(@delete_from_fixed _ _ _ Hp).
Qed.

Lemma blank_punctuation_fixed s :
  Forall (fun c => normal_char c = true) s -> blank_punctuation s = s.
Proof.
  unfold blank_punctuation. induction 1 as [|c s Hc _ IH]; [reflexivity|].
  cbn [map]. rewrite IH. f_equal.
  unfold normal_char in Hc. apply andb_true_iff in Hc. destruct Hc as [Hc _].
  destruct (is_word c) eqn:Ew; [reflexivity|].
  destruct (is_char 63 c) eqn:Eq; [now rewrite orb_true_r|].
  cbn in Hc. rewrite orb_false_r in Hc.
  now rewrite (blank_is_space _ Hc).
Qed.

Lemma lower_fixed s : Forall (fun c => normal_char c = true) s -> lower s = s.
Proof.
  unfold lower. induction 1 as [|c s Hc _ IH]; [reflexivity|].
  cbn [map]. rewrite IH. f_equal.
  unfold normal_char in Hc. apply andb_true_iff in Hc. destruct Hc as [_ Hc].
  now apply Ascii.eqb_eq.
Qed.

Lemma normalize_text_fixed s :
  Forall (fun c => normal_char c = true) s ->
  single_spaced s = true -> starts_clean s = true ->
  Vocabulary.ends_clean s = true ->
  normalize_text s = s.
Proof.
  intros Hc Hsingle Hstart Hend. rewrite normalize_text_unfold.
  assert (E : collapse_spaces false s = s).
  { apply collapse_spaces_fixed; [exact Hc | exact Hsingle | discriminate]. }
  assert (F : strip s = s) by now apply strip_fixed.
  rewrite E, F, (artifacts_fixed Hc), (blank_punctuation_fixed Hc), E, F.
  apply lower_fixed, Hc.
Qed.

(** X2.  On text of code points below 256 [normalize_text] is
    idempotent: normalizing a normalized text changes nothing. *)
Theorem normalize_text_idempotent text :
  normalize_text (normalize_text text) = normalize_text text.
Proof.
  destruct (normalize_text_normal text) as (H1 & H2 & H3 & H4).
  now apply normalize_text_fixed.
Qed.

(** *** Letter case is ignored *)

Lemma collapse_spaces_lower s :
  forall in_run, collapse_spaces in_run (lower s) = lower (collapse_spaces in_run s).
Proof.
  unfold lower. induction s as [|c s IH]; intros in_run; [reflexivity|].
  cbn [map collapse_spaces]. rewrite is_space_lower.
  destruct (is_space c); [destruct in_run|]; cbn [map]; now rewrite IH.
Qed.

Lemma lstrip_lower s : lstrip (lower s) = lower (lstrip s).
Proof.
  unfold lower. induction s as [|c s IH]; [reflexivity|].
  cbn [map lstrip]. rewrite is_space_lower.
  destruct (is_space c); [exact IH | reflexivity].
Qed.

Lemma rev_lower s : rev (lower s) = lower (rev s).
Proof. unfold lower. symmetry. apply map_rev. Qed.

Lemma strip_lower s : strip (lower s) = lower (strip s).
Proof.
  unfold strip, rstrip.
  now rewrite lstrip_lower, rev_lower, lstrip_lower, rev_lower.
Qed.

Lemma same_letter_lower a c : same_letter a (lower_char c) = same_letter a c.
Proof. unfold same_letter. now rewrite lower_char_idem. Qed.

Lemma starts_with_ci_lower artifact s :
  starts_with_ci artifact (lower s) = starts_with_ci artifact s.
Proof.
  unfold lower. revert s. induction artifact as [|a artifact IH]; intros s.
  - now destruct s.
  - destruct s as [|c s]; [reflexivity|].
    cbn [map starts_with_ci]. now rewrite same_letter_lower, IH.
Qed.

Lemma delete_from_lower artifact s :
  forall skip,
    delete_from artifact skip (lower s) = lower (delete_from artifact skip s).
Proof.
  induction s as [|c s IH]; intros skip; [reflexivity|].
  change (lower (c :: s)) with (lower_char c :: lower s).
  cbn [delete_from]. destruct skip as [|k]; [|apply IH].
  change (lower_char c :: lower s) with (lower (c :: s)).
  rewrite starts_with_ci_lower.
  destruct (starts_with_ci artifact (c :: s)); [apply IH|].
  change (lower (c :: delete_from artifact 0 s))
    with (lower_char c :: lower (delete_from artifact 0 s)).
  now rewrite IH.
Qed.

Lemma artifacts_lower (arts : list str) :
  forall s,
    fold_left (fun t artifact => delete_from artifact 0 t) arts (lower s)
    = lower (fold_left (fun t artifact => delete_from artifact 0 t) arts s).
Proof.
  induction arts as [|a arts IH]; intros s; [reflexivity|].
  cbn [fold_left]. now rewrite delete_from_lower, IH.
Qed.

Lemma blank_punctuation_lower s :
  blank_punctuation (lower s) = lower (blank_punctuation s).
Proof.
  unfold blank_punctuation, lower. rewrite !map_map. apply map_ext.
  intros c. rewrite is_word_lower, is_space_lower, is_qmark_lower.
  now destruct (_ || _ || _)%bool.
Qed.

Lemma lower_lower s : lower (lower s) = lower s.
Proof. unfold lower. rewrite map_map. apply map_ext, lower_char_idem. Qed.

Lemma normalize_text_lower text :
  normalize_text (lower text) = normalize_text text.
Proof.
  rewrite !normalize_text_unfold.
  rewrite collapse_spaces_lower, strip_lower, artifacts_lower,
    blank_punctuation_lower, collapse_spaces_lower, strip_lower.
  apply lower_lower.
Qed.

(** X3.  On text of code points below 256 letter case does not count:
    lower-casing a text changes neither what [normalize_text] returns nor,
    for either argument, the score of [calculate_similarity]. *)
Theorem similarity_ignores_case
  (fuzz_ratio fuzz_partial_ratio fuzz_token_sort_ratio : str -> str -> Z)
  text1 text2 :
  normalize_text (lower text1) = normalize_text text1 /\
  calculate_similarity fuzz_ratio fuzz_partial_ratio fuzz_token_sort_ratio
    (lower text1) (lower text2)
  = calculate_similarity fuzz_ratio fuzz_partial_ratio fuzz_token_sort_ratio
      text1 text2.
Proof.
  split; [apply normalize_text_lower|].
  unfold calculate_similarity. now rewrite !normalize_text_lower.
Qed.

End NormalizeFacts.

(** ** More on the segmenter *)

Module SegmenterFacts.
Import Py Re Word Vocabulary Notions Documents.

(** *** What a question start must contain *)

(** A match of a pattern that has the item [cls] or [cls+] has read a
    character of the class. *)
Lemma run_needs cls p :
  forall k s r,
    In (Item cls Once) p \/ In (Item cls Plus) p ->
    run k p s = Some r ->
    exists c, In c s /\ cls c = true.
Proof.
  induction p as [|[cls' q] p IH]; intros k s r Hin H.
  - destruct Hin as [[]|[]].
  - assert (Hhere : Item cls' q = Item cls Once \/ Item cls' q = Item cls Plus
                    \/ (In (Item cls Once) p \/ In (Item cls Plus) p)).
    { destruct Hin as [[E|Hin]|[E|Hin]]; auto. }
    destruct Hhere as [E|[E|Hp]].
    + injection E as -> ->. cbn [run] in H.
      destruct s as [|c s]; cbn in H; [discriminate|].
      destruct (cls c) eqn:Ec; [|discriminate].
      exists c. split; [now left | exact Ec].
    + injection E as -> ->. cbn [run] in H.
      destruct s as [|c s]; cbn in H; [discriminate|].
      destruct (cls c) eqn:Ec; [|discriminate].
      exists c. split; [now left | exact Ec].
    + apply TextFacts.item_suffix in H. destruct H as (t & (pre & ->) & H).
      destruct (IH _ _ _ Hp H) as (c & Hc & Hcls).
      exists c. split; [|exact Hcls]. apply in_or_app. now right.
Qed.

Lemma question_patterns_need :
  Forall (fun p => (In (Item is_digit Once) p \/ In (Item is_digit Plus) p) \/
                   (In (Item is_dot_paren Once) p \/ In (Item is_dot_paren Plus) p))
         question_patterns.
Proof.
  unfold question_patterns.
  repeat (apply Forall_cons); [.. | apply Forall_nil]; cbn [In].
  - left; right. right; right; left. reflexivity.
  - left; right. right; right; right; left. reflexivity.
  - left; right. right; right; right; left. reflexivity.
  - left; right. right; left. reflexivity.
  - left; right. right; right; left. reflexivity.
  - left; right. do 10 right. left. reflexivity.
  - right; left. right; right; right; left. reflexivity.
  - left; right. right; left. reflexivity.
Qed.

Lemma first_match_needs ps s m :
  Forall (fun p => (In (Item is_digit Once) p \/ In (Item is_digit Plus) p) \/
                   (In (Item is_dot_paren Once) p \/ In (Item is_dot_paren Plus) p))
         ps ->
  first_match ps s = Some m ->
  (exists c, In c s /\ is_digit c = true) \/
  (exists c, In c s /\ is_dot_paren c = true).
Proof.
  induction 1 as [|p ps Hp _ IH]; cbn [first_match]; [discriminate|].
  destruct (rmatch p s) as [m'|] eqn:E; [|exact IH].
  intros _. unfold rmatch in E.
  destruct (run group_start p s) as [rest|] eqn:F; [|discriminate].
  destruct Hp as [Hp|Hp]; [left | right]; eapply run_needs; eassumption.
Qed.

Lemma in_strip c s : In c (strip s) -> In c s.
Proof.
  destruct (NormalizeFacts.strip_inside s) as (pre & post & H).
  intros Hin. rewrite H. apply in_or_app. right. apply in_or_app. now left.
Qed.

(** X4.  A paragraph that starts a question has a digit, a full stop or a
    closing bracket: a line of plain words is never taken for one. *)
Theorem question_start_has_digit_or_stop paragraph :
  is_question_start paragraph = true ->
  (existsb is_digit paragraph || existsb is_dot_paren paragraph)%bool = true.
Proof.
  unfold is_question_start. cbv zeta.
  destruct (negb (truthy (strip paragraph))); [discriminate|].
  destruct (first_match question_patterns (strip paragraph)) as [m|] eqn:E;
    [|discriminate].
  intros _. apply orb_true_iff.
  destruct (@first_match_needs _ _ _ question_patterns_need E) as [(c & Hc & H)|(c & Hc & H)];
    [left | right]; apply existsb_exists; exists c;
    (split; [now apply in_strip | exact H]).
Qed.

Lemma question_start_has_digit_or_stop_witness :
  is_question_start (lit "Q1. a") = true /\
  (existsb is_digit (lit "Q1. a") || existsb is_dot_paren (lit "Q1. a"))%bool = true.
Proof.
  assert (H : is_question_start (lit "Q1. a") = true) by (vm_compute; reflexivity).
  split; [exact H|].
  exact (@question_start_has_digit_or_stop (lit "Q1. a") H).
Defined.

(** *** Documents without a question *)

Lemma scan_no_question limit paragraphs :
  Forall (fun p => is_question_start p = false) paragraphs ->
  scan limit paragraphs start = start.
Proof.
  induction 1 as [|p ps Hp _ IH]; [reflexivity|].
  cbn [scan]. rewrite Hp. cbn. exact IH.
Qed.

Lemma flush_some a :
  has_question a = true \/ questions a <> [] -> flush a <> [].
Proof.
  unfold flush. intros [H|H].
  - rewrite H. intros E. apply app_eq_nil in E. destruct E as [_ E]. discriminate.
  - destruct (has_question a); [|exact H].
    intros E. apply app_eq_nil in E. destruct E as [_ E]. discriminate.
Qed.

Lemma scan_some limit paragraphs :
  forall a,
    has_question a = true \/ questions a <> [] ->
    has_question (scan limit paragraphs a) = true \/
    questions (scan limit paragraphs a) <> [].
Proof.
  induction paragraphs as [|p ps IH]; intros a Ha; [exact Ha|].
  cbn [scan]. destruct (is_question_start p) eqn:E.
  - apply IH. right. cbn. now apply flush_some.
  - destruct (has_question a && truthy p)%bool eqn:F; [|now apply IH].
    apply andb_true_iff in F. destruct F as [F _]. cbv zeta.
    destruct (_ <? _)%Z; [|apply IH]; left; exact F.
Qed.

Lemma scan_first_question limit pre q post :
  Forall (fun p => is_question_start p = false) pre ->
  is_question_start q = true ->
  flush (scan limit (pre ++ q :: post) start) <> [].
Proof.
  intros Hpre Hq. apply flush_some.
  induction Hpre as [|p ps Hp _ IH].
  - cbn [app scan]. rewrite Hq. apply scan_some. left.
    unfold has_question. cbn.
    apply WordFacts.truthy_nonempty. now apply WordFacts.question_text_nonempty.
  - cbn [app scan]. rewrite Hp. cbn. exact IH.
Qed.

Lemma first_question (paragraphs : list str) :
  Forall (fun p => is_question_start p = false) paragraphs \/
  exists pre q post,
    paragraphs = pre ++ q :: post /\
    Forall (fun p => is_question_start p = false) pre /\
    is_question_start q = true.
Proof.
  induction paragraphs as [|p ps IH]; [left; constructor|].
  destruct (is_question_start p) eqn:E.
  - right. exists [], p, ps. auto.
  - destruct IH as [IH|(pre & q & post & -> & Hpre & Hq)].
    + left. now constructor.
    + right. exists (p :: pre), q, post. auto.
Qed.

(** X5.  [extract_questions] returns the empty list exactly when no
    paragraph of the document starts a question; the content limit has no
    part in it. *)
Theorem no_units_iff_no_question_start limit docx_text :
  extract_questions limit docx_text = [] <->
  Forall (fun p => is_question_start p = false) (paragraphs_of docx_text).
Proof.
  unfold extract_questions. split.
  - intros H. destruct (first_question (paragraphs_of docx_text))
      as [Hall|(pre & q & post & E & Hpre & Hq)]; [exact Hall|].
    rewrite E in H. exfalso. exact (@scan_first_question limit pre q post Hpre Hq H).
  - intros H. now rewrite scan_no_question.
Qed.

(** *** Indices *)

Lemma flush_indices a :
  map word_index (questions a) = seq 0 (length (questions a)) ->
  map word_index (flush a) = seq 0 (length (flush a)).
Proof.
  intros H. unfold flush. destruct (has_question a); [|exact H].
  rewrite map_app, length_app, H. cbn [map length word_index].
  now rewrite Nat.add_1_r, seq_S.
Qed.

Lemma scan_indices limit paragraphs :
  forall a,
    map word_index (questions a) = seq 0 (length (questions a)) ->
    map word_index (questions (scan limit paragraphs a))
    = seq 0 (length (questions (scan limit paragraphs a))).
Proof.
  induction paragraphs as [|p ps IH]; intros a Ha; [exact Ha|].
  cbn [scan]. destruct (is_question_start p).
  - apply IH. cbn. now apply flush_indices.
  - destruct (has_question a && truthy p)%bool; [|now apply IH].
    cbv zeta. destruct (_ <? _)%Z; [exact Ha | now apply IH].
Qed.

(** X6.  The [word_index] of a unit is its position in the returned list,
    counted from 0. *)
Theorem word_index_is_position limit docx_text :
  map word_index (extract_questions limit docx_text)
  = seq 0 (length (extract_questions limit docx_text)).
Proof. apply flush_indices, scan_indices. reflexivity. Qed.

(** *** Documents that come back as written *)

Lemma digit_not_newline d : is_digit d = true -> is_newline d = false.
Proof. destruct d as [[] [] [] [] [] [] [] []]; cbn; congruence. Qed.

Lemma q_line_clean digits text :
  Forall (fun d => is_digit d = true) digits -> plain_text text ->
  clean_line (q_line digits text).
Proof.
  intros Hd (Hc & Hend & Hnl).
  destruct text as [|c t]; [destruct Hc|].
  destruct Hc as (Hsp & _).
  assert (Happ : q_line digits (c :: t)
                 = (lit "Q" ++ digits ++ lit "." ++ lit " ") ++ c :: t).
  { unfold q_line, q_label. now rewrite <- !app_assoc. }
  split; [|split].
  - apply NormalizeFacts.strip_fixed; [reflexivity|].
    rewrite Happ, WordFacts.ends_clean_app by discriminate. exact Hend.
  - discriminate.
  - unfold q_line, q_label. repeat (apply Forall_app; split).
    + repeat constructor.
    + eapply Forall_impl; [|exact Hd]. exact digit_not_newline.
    + repeat constructor.
    + repeat constructor.
    + exact Hnl.
Qed.

Lemma entry_paragraphs entries :
  numbered_paragraphs
    (map (fun e : entry => let '(d, t, b) := e in (q_line d t, b)) entries)
  = flat_map entry_lines entries.
Proof.
  induction entries as [|[[d t] b] es IH]; [reflexivity|].
  cbn. now rewrite <- IH.
Qed.

Lemma written_parts limit d t b :
  written limit (d, t, b) ->
  is_question_start (q_line d t) = true /\
  extract_question_number (q_line d t) = q_label d /\
  extract_question_text (q_line d t) = t.
Proof.
  intros (Hne & Hd & (Hc & Hend & Hnl) & _).
  destruct t as [|c t]; [destruct Hc|].
  destruct Hc as (Hsp & Hdg & Hdp & HQ).
  now apply WordFacts.q_line_parts.
Qed.

Lemma entry_numbered limit entries :
  Forall (written limit) entries ->
  forall i,
    numbered_units i
      (map (fun e : entry => let '(d, t, b) := e in (q_line d t, b)) entries)
    = entry_units i entries.
Proof.
  induction 1 as [|[[d t] b] es He _ IH]; intros i; [reflexivity|].
  cbn [map numbered_units entry_units entry_unit].
  destruct (written_parts He) as (_ & -> & ->).
  now rewrite IH.
Qed.

(** X7.  A document of lines [Q<digits>. <text>], each followed by one body
    line that starts no question, the two within the content limit, is taken
    apart into exactly its written questions: label, text, both lines as
    content, numbered from 0. *)
Theorem written_document_round_trip limit entries :
  Forall (written limit) entries ->
  extract_questions limit (document entries) = entry_units 0 entries.
Proof.
  intros H. unfold document.
  rewrite <- entry_paragraphs, <- (entry_numbered H).
  apply WordFacts.extract_questions_numbered.
  - induction H as [|[[d t] b] es He _ IH]; cbn [map]; constructor; [|exact IH].
    destruct He as (_ & Hd & Ht & Hb & _).
    split; [now apply q_line_clean | exact Hb].
  - induction H as [|[[d t] b] es He _ IH]; cbn [map]; constructor; [|exact IH].
    destruct (written_parts He) as (Hq & _).
    destruct He as (_ & _ & _ & (_ & Hb & _) & Hnot & Hlim).
    auto.
Qed.

Lemma sample_entries_written : Forall (written 2000) sample_entries.
Proof.
  unfold sample_entries.
  repeat (apply Forall_cons); [| | apply Forall_nil];
    (split; [discriminate|]);
    (split; [repeat constructor|]);
    (split; [split; [repeat split | split; [reflexivity | repeat constructor]]|]);
    (split; [split; [reflexivity | split; [discriminate | repeat constructor]]|]);
    (split; [vm_compute; reflexivity | vm_compute; discriminate]).
Defined.

Lemma written_document_round_trip_witness :
  Forall (written 2000) sample_entries /\
  extract_questions 2000 (document sample_entries) = entry_units 0 sample_entries.
Proof.
  split; [exact sample_entries_written|].
  exact (@written_document_round_trip 2000 sample_entries sample_entries_written).
Defined.

(** *** The content limit *)

Lemma split_lines_no_newline s :
  Forall (Forall (fun c => is_newline c = false)) (split_lines s).
Proof.
  induction s as [|c s IH]; [repeat constructor|].
  cbn [split_lines]. destruct (is_newline c) eqn:E.
  - constructor; [constructor | exact IH].
  - destruct (split_lines s) as [|l ls]; [repeat constructor; exact E|].
    inversion IH; subst. constructor; [|assumption].
    constructor; assumption.
Qed.

Lemma paragraphs_clean docx_text : Forall clean_line (paragraphs_of docx_text).
Proof.
  unfold paragraphs_of.
  pose proof (split_lines_no_newline docx_text) as H.
  induction H as [|p ps Hp _ IH]; [constructor|].
  cbn [filter]. destruct (truthy (strip p)) eqn:E; [|exact IH].
  cbn [map]. constructor; [|exact IH].
  split; [|split].
  - apply NormalizeFacts.strip_fixed.
    + apply NormalizeFacts.strip_starts_clean.
    + apply TextFacts.ends_clean_strip.
  - now apply WordFacts.truthy_nonempty.
  - now apply NormalizeFacts.strip_chars.
Qed.

Lemma total_chars_app c d : total_chars (c ++ d) = (total_chars c + total_chars d)%Z.
Proof.
  unfold total_chars. rewrite map_app, list_sum_app. apply Nat2Z.inj_add.
Qed.

Lemma total_chars_nonneg c : (0 <= total_chars c)%Z.
Proof. unfold total_chars. apply Nat2Z.is_nonneg. Qed.

Lemma fits_within limit content :
  content <> [] -> Forall clean_line content -> within limit content ->
  fits limit (join_lines content).
Proof.
  intros Hne Hclean H. unfold fits. cbv zeta.
  rewrite WordFacts.split_join_lines by assumption. exact H.
Qed.

Lemma overshoots_within limit content para :
  Forall clean_line (content ++ [para]) -> within limit content ->
  overshoots_by_a_line limit (join_lines (content ++ [para])).
Proof.
  intros Hclean H. unfold overshoots_by_a_line, but_last. cbv zeta.
  rewrite WordFacts.split_join_lines;
    [|destruct content; discriminate | exact Hclean].
  rewrite removelast_last, length_app. cbn [length].
  destruct H as [H|H]; [left; lia | now right].
Qed.

Lemma fits_overshoots limit content :
  fits limit content -> overshoots_by_a_line limit content.
Proof.
  unfold fits, overshoots_by_a_line, but_last. cbv zeta.
  intros [H|H]; [left; lia | right].
  destruct (split_lines content) as [|l ls _] using rev_ind; [exact H|].
  rewrite removelast_last. rewrite total_chars_app in H.
  pose proof (total_chars_nonneg [l]). lia.
Qed.

Lemma flush_running limit a :
  running limit a ->
  Forall (fun q => fits limit (full_content q)) (flush a).
Proof.
  intros (Hq & Hclean & Hopen). unfold flush.
  destruct (has_question a) eqn:E; [|exact Hq].
  destruct (Hopen eq_refl) as (Hne & Hin).
  apply Forall_app. split; [exact Hq|].
  constructor; [|constructor]. cbn [full_content].
  now apply fits_within.
Qed.

Lemma scan_running limit paragraphs :
  Forall clean_line paragraphs ->
  forall a,
    running limit a ->
    running limit (scan limit paragraphs a) \/
    broken limit (scan limit paragraphs a).
Proof.
  induction 1 as [|p ps Hp _ IH]; intros a Ha; [now left|].
  cbn [scan]. destruct (is_question_start p) eqn:E.
  - apply IH. split; [|split]; cbn.
    + now apply flush_running.
    + now constructor.
    + intros _. split; [discriminate|]. left. cbn. lia.
  - destruct (has_question a && truthy p)%bool eqn:F; [|now apply IH].
    apply andb_true_iff in F. destruct F as [F _]. cbv zeta.
    destruct Ha as (Hq & Hclean & Hopen).
    destruct (Hopen F) as (Hne & Hin).
    assert (Hall : Forall clean_line (current_content a ++ [p])).
    { apply Forall_app. split; [exact Hclean | now constructor]. }
    destruct (_ <? _)%Z eqn:L.
    + right. split; [exact Hq|]. split; [exact F|].
      exists (current_content a), p. auto.
    + apply IH. split; [exact Hq|]. split; [exact Hall|].
      intros _. split.
      * destruct (current_content a); discriminate.
      * right. apply Z.ltb_ge in L. exact L.
Qed.

Lemma flush_broken limit a :
  broken limit a ->
  Forall (fun q => fits limit (full_content q)) (removelast (flush a)) /\
  Forall (fun q => overshoots_by_a_line limit (full_content q)) (flush a).
Proof.
  intros (Hq & Hopen & content & para & Hc & Hclean & Hin).
  unfold flush. rewrite Hopen, removelast_last. split; [exact Hq|].
  apply Forall_app. split.
  - eapply Forall_impl; [|exact Hq]. intros q. apply fits_overshoots.
  - constructor; [|constructor]. cbn [full_content]. rewrite Hc.
    now apply overshoots_within.
Qed.

Lemma Forall_removelast (A : Type) (P : A -> Prop) l :
  Forall P l -> Forall P (removelast l).
Proof.
  induction 1 as [|x l Hx Hl IH]; [constructor|].
  cbn. destruct l; [constructor|]. now constructor.
Qed.

(** X8.  The content limit lets a unit run over by its last line only:
    of every unit, the lines before the last are within the limit together
    (or there are at most two lines), and every unit but the last one of the
    list is within the limit with all its lines (or is its question line
    alone). *)
Theorem content_limit_overshoot limit docx_text :
  Forall (fun q => fits limit (full_content q))
         (removelast (extract_questions limit docx_text)) /\
  Forall (fun q => overshoots_by_a_line limit (full_content q))
         (extract_questions limit docx_text).
Proof.
  unfold extract_questions.
  assert (Hstart : running limit start).
  { split; [constructor | split; [constructor|]]. intros H; discriminate H. }
  destruct (@scan_running limit _ (paragraphs_clean docx_text) start Hstart) as [H|H].
  - apply flush_running in H. split.
    + now apply Forall_removelast.
    + eapply Forall_impl; [|exact H]. intros q. apply fits_overshoots.
  - now apply flush_broken.
Qed.

End SegmenterFacts.

(** ** More on the structured extractor *)

Module UnitFacts.
Import Py Xml Vocabulary Notions XmlFacts.

Section Units.
Variable tostring : element -> str.

Lemma units_from_ids accepted :
  forall i,
    map id (units_from tostring i accepted)
    = map (fun ta => title_id (fst ta)) accepted.
Proof.
  induction accepted as [|ta accepted IH]; intros i; [reflexivity|].
  cbn [units_from map unit_of id]. now rewrite IH.
Qed.

Lemma units_from_indices accepted :
  forall i,
    map xml_index (units_from tostring i accepted) = seq i (length accepted).
Proof.
  induction accepted as [|ta accepted IH]; intros i; [reflexivity|].
  cbn [units_from map unit_of xml_index length seq]. now rewrite IH.
Qed.

Lemma units_from_length accepted :
  forall i, length (units_from tostring i accepted) = length accepted.
Proof.
  induction accepted as [|ta accepted IH]; intros i; [reflexivity|].
  cbn [units_from length]. now rewrite IH.
Qed.

Lemma extract_questions_accepted root :
  extract_questions tostring (Some root)
  = units_from tostring 0 (accepted_titles (select_titles [] root) []).
Proof. unfold extract_questions. now rewrite collect_accepted. Qed.

(** The identifiers the loop accepts are new to [seen] and to each
    other. *)
Lemma accepted_titles_fresh titles :
  forall seen,
    NoDup (map (fun ta => title_id (fst ta)) (accepted_titles titles seen)) /\
    forall ta, In ta (accepted_titles titles seen) ->
               existsb (str_eqb (title_id (fst ta))) seen = false.
Proof.
  induction titles as [|a rest IH]; intros seen.
  - split; [constructor | intros ta []].
  - cbn [accepted_titles].
    destruct (existsb (str_eqb (title_id (fst a))) seen || negb (has_text a))%bool
      eqn:E; [apply IH|].
    apply orb_false_iff in E. destruct E as [E _].
    destruct (IH (title_id (fst a) :: seen)) as [Hnd Hnew].
    split.
    + cbn [map]. constructor; [|exact Hnd].
      intros Hin. apply in_map_iff in Hin. destruct Hin as (ta & Hid & Hta).
      specialize (Hnew ta Hta). cbn [existsb] in Hnew.
      apply orb_false_iff in Hnew. destruct Hnew as [Hnew _].
      apply str_eqb_neq in Hnew. congruence.
    + intros ta [<-|Hta]; [exact E|].
      specialize (Hnew ta Hta). cbn [existsb] in Hnew.
      apply orb_false_iff in Hnew. apply Hnew.
Qed.

Lemma accepted_titles_subseq titles :
  forall seen, subseq (accepted_titles titles seen) titles.
Proof.
  induction titles as [|a rest IH]; intros seen; [constructor|].
  cbn [accepted_titles]. destruct (_ || _)%bool.
  - apply subseq_drop, IH.
  - apply subseq_keep, IH.
Qed.

Lemma subseq_map (A B : Type) (f : A -> B) l m :
  subseq l m -> subseq (map f l) (map f m).
Proof. induction 1; cbn; constructor; assumption. Qed.

Lemma units_with_id_in i (qs : list question) :
  In i (map id qs) <-> units_with_id i qs <> [].
Proof.
  unfold units_with_id. split.
  - intros Hin. apply in_map_iff in Hin. destruct Hin as (q & <- & Hq).
    intros E.
    assert (Hf : In q (filter (fun q' => str_eqb (id q') (id q)) qs)).
    { apply filter_In. split; [exact Hq | apply str_eqb_refl]. }
    rewrite E in Hf. destruct Hf.
  - intros Hne. destruct (filter _ qs) as [|q l] eqn:E; [congruence|].
    assert (Hf : In q (filter (fun q' => str_eqb (id q') i) qs)).
    { rewrite E. now left. }
    apply filter_In in Hf. destruct Hf as [Hq Hid].
    apply str_eqb_eq in Hid. rewrite <- Hid. now apply in_map.
Qed.

Lemma find_with_id i (titles : list (element * list element)) :
  (exists ta, find has_text (with_id i titles) = Some ta) <->
  (exists ta, In ta titles /\ title_id (fst ta) = i /\ has_text ta = true).
Proof.
  split.
  - intros (ta & H). apply find_some in H. destruct H as [Hin Ht].
    apply filter_In in Hin. destruct Hin as [Hin Hid].
    apply str_eqb_eq in Hid. eauto.
  - intros (ta & Hin & Hid & Ht).
    destruct (find has_text (with_id i titles)) as [tb|] eqn:E; [eauto|].
    exfalso.
    assert (Hw : In ta (with_id i titles)).
    { apply filter_In. split; [exact Hin | now apply str_eqb_eq]. }
    rewrite (find_none _ _ E ta Hw) in Ht. discriminate.
Qed.

End Units.

(** X9.  The identifiers of the units [extract_questions] returns are
    pairwise distinct, and the [xml_index] of a unit is its position in the
    list, counted from 0. *)
Theorem xml_units_distinct_and_numbered (tostring : element -> str) parsed :
  NoDup (map id (extract_questions tostring parsed)) /\
  map xml_index (extract_questions tostring parsed)
  = seq 0 (length (extract_questions tostring parsed)).
Proof.
  destruct parsed as [root|]; [|split; [constructor | reflexivity]].
  rewrite extract_questions_accepted. split.
  - rewrite units_from_ids. apply accepted_titles_fresh.
  - now rewrite units_from_indices, units_from_length.
Qed.

(** X10.  An identifier is among the returned units exactly when some
    selected title element carries it and has text left after trimming: no
    identifier with a usable title is lost, none is made up. *)
Theorem xml_identifiers_complete (tostring : element -> str) root i :
  In i (map id (extract_questions tostring (Some root))) <->
  exists ta,
    In ta (select_titles [] root) /\ title_id (fst ta) = i /\ has_text ta = true.
Proof.
  rewrite units_with_id_in, <- find_with_id.
  unfold extract_questions.
  destruct (collect_with_id tostring i (select_titles [] root) [] [])
    as (new & H1 & _ & H3).
  specialize (H3 eq_refl). cbn [units_with_id filter app] in H1.
  fold (units_with_id i (collect tostring (select_titles [] root) [] [])).
  rewrite H1.
  destruct (find has_text (with_id i (select_titles [] root))) as [ta|].
  - destruct H3 as (idx & ->). split; [eauto | discriminate].
  - subst new. split; [congruence | intros (ta & H); discriminate H].
Qed.

(** X11.  The units come in the document order of their title elements:
    their identifiers and texts, in order, are picked from those of the
    selected titles without reordering. *)
Theorem xml_units_in_document_order (tostring : element -> str) root :
  subseq (map (fun q => (id q, Xml.text q))
              (extract_questions tostring (Some root)))
         (map (fun ta => (title_id (fst ta), title_text (fst ta)))
              (select_titles [] root)).
Proof.
  rewrite extract_questions_accepted.
  assert (H : forall accepted k,
             map (fun q => (id q, Xml.text q)) (units_from tostring k accepted)
             = map (fun ta => (title_id (fst ta), title_text (fst ta))) accepted).
  { induction accepted as [|ta accepted IH]; intros k; [reflexivity|].
    cbn [units_from map unit_of id Xml.text]. now rewrite IH. }
  rewrite H. apply subseq_map, accepted_titles_subseq.
Qed.

End UnitFacts.

(** ** More on the aligner *)

Module AlignmentFacts.
Import Py Matcher Vocabulary Notions FloatOrder MatcherFacts.

Lemma subseq_refl (A : Type) (l : list A) : subseq l l.
Proof. induction l; constructor; assumption. Qed.

Lemma subseq_trans (A : Type) (l m n : list A) :
  subseq l m -> subseq m n -> subseq l n.
Proof.
  intros Hlm Hmn. revert l Hlm.
  induction Hmn as [|x m n _ IH|x m n _ IH]; intros l Hlm.
  - exact Hlm.
  - inversion Hlm; subst.
    + apply subseq_keep. now apply IH.
    + apply subseq_drop. now apply IH.
  - apply subseq_drop. now apply IH.
Qed.

Lemma list_remove_subseq x pool pool' :
  list_remove x pool = Some pool' -> subseq pool' pool.
Proof.
  revert pool'. induction pool as [|y pool IH]; intros pool' H; cbn in H.
  - discriminate.
  - destruct (xml_eq_dec x y) as [_|_].
    + injection H as <-. apply subseq_drop, subseq_refl.
    + destruct (list_remove x pool) as [rest|]; [|discriminate].
      injection H as <-. apply subseq_keep. now apply IH.
Qed.

Section Loop.
Variables fuzz_ratio fuzz_partial_ratio fuzz_token_sort_ratio : str -> str -> Z.
Variable similarity_threshold : float.

Abbreviation similarity :=
  (calculate_similarity fuzz_ratio fuzz_partial_ratio fuzz_token_sort_ratio).
Abbreviation find_best_match :=
  (Matcher.find_best_match fuzz_ratio fuzz_partial_ratio fuzz_token_sort_ratio
     similarity_threshold).
Abbreviation match_loop :=
  (Matcher.match_loop fuzz_ratio fuzz_partial_ratio fuzz_token_sort_ratio
     similarity_threshold).
Abbreviation match_questions :=
  (Matcher.match_questions fuzz_ratio fuzz_partial_ratio fuzz_token_sort_ratio
     similarity_threshold).

(** The loop only appends to [matches] and [unmatched_word], one of the
    two per question, and only takes from the pool. *)
Lemma match_loop_deals ws :
  forall a r,
    match_loop ws a = Returns r ->
    exists ms us,
      matches r = matches a ++ ms /\
      unmatched_word r = unmatched_word a ++ us /\
      dealt (map word_question ms) us ws /\
      subseq (unmatched_xml r) (unmatched_xml a).
Proof.
  induction ws as [|w ws IH]; intros a r H.
  - cbn in H. injection H as <-. exists [], [].
    rewrite !app_nil_r. repeat split; [constructor | apply subseq_refl].
  - rewrite match_loop_cons in H.
    destruct (find_best_match w (unmatched_xml a)) as [[[x|] s]|] eqn:Hf.
    + destruct (list_remove x (unmatched_xml a)) as [pool|] eqn:Hr;
        [|discriminate].
      apply IH in H. destruct H as (ms & us & Hm & Hu & Hd & Hs).
      cbn [matches unmatched_word unmatched_xml] in Hm, Hu, Hs.
      exists (Pair w x s :: ms), us.
      split; [now rewrite Hm, <- app_assoc|].
      split; [exact Hu|].
      split; [cbn [map word_question]; now apply dealt_left|].
      eapply subseq_trans; [exact Hs|]. eapply list_remove_subseq. exact Hr.
    + discriminate.
    + apply IH in H. destruct H as (ms & us & Hm & Hu & Hd & Hs).
      cbn [matches unmatched_word unmatched_xml] in Hm, Hu, Hs.
      exists ms, (w :: us).
      split; [exact Hm|].
      split; [now rewrite Hu, <- app_assoc|].
      split; [now apply dealt_right | exact Hs].
Qed.

(** What the candidate loop ends with: the pair it started from, or a
    candidate of the pool with its score. *)
Lemma best_of_score wt pool :
  forall best,
    best_of fuzz_ratio fuzz_partial_ratio fuzz_token_sort_ratio wt pool best = best \/
    exists x,
      In x pool /\
      best_of fuzz_ratio fuzz_partial_ratio fuzz_token_sort_ratio wt pool best
      = (Some x, similarity wt (Xml.text x)).
Proof.
  induction pool as [|z pool IH]; intros best; [now left|].
  rewrite best_of_cons. destruct (PrimFloat.ltb _ _).
  - right. destruct (IH (Some z, similarity wt (Xml.text z))) as [E|(x & Hx & E)].
    + exists z. split; [now left | exact E].
    + exists x. split; [now right | exact E].
  - destruct (IH best) as [E|(x & Hx & E)]; [now left|].
    right. exists x. split; [now right | exact E].
Qed.

Lemma find_best_match_cases w pool :
  (0 <? similarity_threshold)%float = true ->
  find_best_match w pool = None \/
  exists x,
    In x pool /\
    (similarity_threshold <=? similarity (Word.text w) (Xml.text x))%float = true /\
    find_best_match w pool = Some (Some x, similarity (Word.text w) (Xml.text x)).
Proof.
  intros Hth. unfold Matcher.find_best_match. cbv zeta.
  destruct (best_of_score (Word.text w) pool (None, 0%float)) as [E|(x & Hx & E)];
    rewrite E; cbn [snd].
  - left. now rewrite (ltb_not_leb Hth).
  - destruct (similarity_threshold <=? _)%float eqn:Hle; [|now left].
    right. exists x. auto.
Qed.

(** With nothing at or above the threshold, every question goes to
    [unmatched_word]. *)
Lemma match_loop_none ws :
  (0 <? similarity_threshold)%float = true ->
  forall a,
    Forall (fun w =>
              Forall (fun x => (similarity_threshold
                                <=? similarity (Word.text w) (Xml.text x))%float
                               = false) (unmatched_xml a)) ws ->
    match_loop ws a
    = Returns (Alignment (matches a) (unmatched_word a ++ ws) (unmatched_xml a)).
Proof.
  intros Hth. induction ws as [|w ws IH]; intros a Hall.
  - cbn. rewrite app_nil_r. now destruct a.
  - inversion Hall as [|? ? Hw Hws]; subst.
    rewrite match_loop_cons.
    destruct (find_best_match_cases w (unmatched_xml a) Hth)
      as [E|(x & Hx & Hle & E)]; rewrite E.
    + rewrite IH by exact Hws.
      cbn [matches unmatched_word unmatched_xml]. now rewrite <- app_assoc.
    + rewrite Forall_forall in Hw. rewrite (Hw x Hx) in Hle. discriminate.
Qed.

End Loop.

(** X12.  When [match_questions] returns, every word question has gone to
    exactly one of [matches] and [unmatched_word], and both lists keep the
    order of the input. *)
Theorem word_questions_dealt_in_order
  (fuzz_ratio fuzz_partial_ratio fuzz_token_sort_ratio : str -> str -> Z)
  (similarity_threshold : float) word_questions xml_questions r :
  Matcher.match_questions fuzz_ratio fuzz_partial_ratio fuzz_token_sort_ratio
    similarity_threshold word_questions xml_questions = Returns r ->
  dealt (map word_question (matches r)) (unmatched_word r) word_questions.
Proof.
  intros H. apply match_loop_deals in H.
  destruct H as (ms & us & Hm & Hu & Hd & _).
  cbn [matches unmatched_word app] in Hm, Hu. now rewrite Hm, Hu.
Qed.

Lemma word_questions_dealt_in_order_witness :
  Matcher.match_questions Samples.fuzz_equal Samples.fuzz_equal Samples.fuzz_equal
    Samples.default_threshold [Samples.word_abc; Samples.word_def]
    [Samples.xml_xyz; Samples.xml_abc]
  = Returns (Alignment [Pair Samples.word_abc Samples.xml_abc 1%float]
                       [Samples.word_def] [Samples.xml_xyz]) /\
  dealt [Samples.word_abc] [Samples.word_def] [Samples.word_abc; Samples.word_def].
Proof.
  assert (H : Matcher.match_questions Samples.fuzz_equal Samples.fuzz_equal
                Samples.fuzz_equal Samples.default_threshold
                [Samples.word_abc; Samples.word_def]
                [Samples.xml_xyz; Samples.xml_abc]
              = Returns (Alignment [Pair Samples.word_abc Samples.xml_abc 1%float]
                                   [Samples.word_def] [Samples.xml_xyz])).
  { vm_compute. reflexivity. }
  split; [exact H|].
  exact (@word_questions_dealt_in_order _ _ _ _ _ _ _ H).
Defined.

(** X13.  The units left in [unmatched_xml] are units of the input, in
    the order of the input: the loop takes from the pool and never adds to
    it or reorders it. *)
Theorem unmatched_xml_keeps_order
  (fuzz_ratio fuzz_partial_ratio fuzz_token_sort_ratio : str -> str -> Z)
  (similarity_threshold : float) word_questions xml_questions r :
  Matcher.match_questions fuzz_ratio fuzz_partial_ratio fuzz_token_sort_ratio
    similarity_threshold word_questions xml_questions = Returns r ->
  subseq (unmatched_xml r) xml_questions.
Proof.
  intros H. apply match_loop_deals in H.
  destruct H as (ms & us & _ & _ & _ & Hs). exact Hs.
Qed.

Lemma unmatched_xml_keeps_order_witness :
  Matcher.match_questions Samples.fuzz_equal Samples.fuzz_equal Samples.fuzz_equal
    Samples.default_threshold [Samples.word_abc]
    [Samples.xml_xyz; Samples.xml_abc; Samples.xml_abc_page]
  = Returns (Alignment [Pair Samples.word_abc Samples.xml_abc 1%float]
                       [] [Samples.xml_xyz; Samples.xml_abc_page]) /\
  subseq [Samples.xml_xyz; Samples.xml_abc_page]
         [Samples.xml_xyz; Samples.xml_abc; Samples.xml_abc_page].
Proof.
  assert (H : Matcher.match_questions Samples.fuzz_equal Samples.fuzz_equal
                Samples.fuzz_equal Samples.default_threshold [Samples.word_abc]
                [Samples.xml_xyz; Samples.xml_abc; Samples.xml_abc_page]
              = Returns (Alignment [Pair Samples.word_abc Samples.xml_abc 1%float]
                                   [] [Samples.xml_xyz; Samples.xml_abc_page])).
  { vm_compute. reflexivity. }
  split; [exact H|].
  exact (@unmatched_xml_keeps_order _ _ _ _ _ _ _ H).
Defined.

(** X14.  With a threshold above zero [match_questions] returns for every
    two lists, and the score of each match is [calculate_similarity] of the
    texts of its two questions. *)
Theorem positive_threshold_returns
  (fuzz_ratio fuzz_partial_ratio fuzz_token_sort_ratio : str -> str -> Z)
  (similarity_threshold : float) word_questions xml_questions :
  (0 <? similarity_threshold)%float = true ->
  exists r,
    Matcher.match_questions fuzz_ratio fuzz_partial_ratio fuzz_token_sort_ratio
      similarity_threshold word_questions xml_questions = Returns r /\
    Forall (fun m =>
              Matcher.similarity_score m =
              calculate_similarity fuzz_ratio fuzz_partial_ratio
                fuzz_token_sort_ratio (Word.text (word_question m))
                (Xml.text (xml_question m)))
           (matches r).
Proof.
  intros Hth.
  destruct (@match_loop_returns fuzz_ratio fuzz_partial_ratio
              fuzz_token_sort_ratio similarity_threshold word_questions Hth
              (Alignment [] [] xml_questions)) as (r & H).
  exists r. split; [exact H|].
  eapply match_loop_scored; [exact H | constructor].
Qed.

Lemma positive_threshold_returns_witness :
  (0 <? Samples.default_threshold)%float = true /\
  exists r,
    Matcher.match_questions Samples.fuzz_equal Samples.fuzz_equal
      Samples.fuzz_equal Samples.default_threshold
      [Samples.word_abc; Samples.word_def] [Samples.xml_xyz; Samples.xml_abc]
    = Returns r /\
    Forall (fun m =>
              Matcher.similarity_score m =
              calculate_similarity Samples.fuzz_equal Samples.fuzz_equal
                Samples.fuzz_equal (Word.text (word_question m))
                (Xml.text (xml_question m)))
           (matches r).
Proof.
  assert (H : (0 <? Samples.default_threshold)%float = true) by reflexivity.
  split; [exact H|].
  exact (@positive_threshold_returns Samples.fuzz_equal Samples.fuzz_equal
           Samples.fuzz_equal Samples.default_threshold
           [Samples.word_abc; Samples.word_def]
           [Samples.xml_xyz; Samples.xml_abc] H).
Defined.

(** X15.  With a threshold above zero that no pair of a word question and
    a structured unit reaches, [match_questions] matches nothing: all word
    questions come back in [unmatched_word] and the pool comes back as it
    was; an empty pool is the plainest case. *)
Theorem nothing_reaches_threshold
  (fuzz_ratio fuzz_partial_ratio fuzz_token_sort_ratio : str -> str -> Z)
  (similarity_threshold : float) word_questions xml_questions :
  (0 <? similarity_threshold)%float = true ->
  Forall (fun w =>
            Forall (fun x =>
                      (similarity_threshold
                       <=? calculate_similarity fuzz_ratio fuzz_partial_ratio
                             fuzz_token_sort_ratio (Word.text w) (Xml.text x))%float
                      = false) xml_questions) word_questions ->
  Matcher.match_questions fuzz_ratio fuzz_partial_ratio fuzz_token_sort_ratio
    similarity_threshold word_questions xml_questions
  = Returns (Alignment [] word_questions xml_questions).
Proof.
  intros Hth Hall. unfold Matcher.match_questions.
  now rewrite match_loop_none.
Qed.

Lemma nothing_reaches_threshold_witness :
  ((0 <? Samples.default_threshold)%float = true /\
   Forall (fun w =>
             Forall (fun x =>
                       (Samples.default_threshold
                        <=? calculate_similarity Samples.fuzz_equal
                              Samples.fuzz_equal Samples.fuzz_equal
                              (Word.text w) (Xml.text x))%float = false)
                    [Samples.xml_xyz]) [Samples.word_abc; Samples.word_def]) /\
  Matcher.match_questions Samples.fuzz_equal Samples.fuzz_equal Samples.fuzz_equal
    Samples.default_threshold [Samples.word_abc; Samples.word_def] [Samples.xml_xyz]
  = Returns (Alignment [] [Samples.word_abc; Samples.word_def] [Samples.xml_xyz]).
Proof.
  assert (H1 : (0 <? Samples.default_threshold)%float = true) by reflexivity.
  assert (H2 : Forall (fun w =>
             Forall (fun x =>
                       (Samples.default_threshold
                        <=? calculate_similarity Samples.fuzz_equal
                              Samples.fuzz_equal Samples.fuzz_equal
                              (Word.text w) (Xml.text x))%float = false)
                    [Samples.xml_xyz]) [Samples.word_abc; Samples.word_def]).
  { constructor; [constructor; [vm_compute; reflexivity | constructor]|].
    constructor; [constructor; [vm_compute; reflexivity | constructor]|].
    constructor. }
  split; [split; assumption|].
  exact (@nothing_reaches_threshold Samples.fuzz_equal Samples.fuzz_equal
           Samples.fuzz_equal Samples.default_threshold
           [Samples.word_abc; Samples.word_def] [Samples.xml_xyz] H1 H2).
Defined.

(** X16.  With the three ratios percentages and a threshold above 1, no
    question is ever matched. *)
Theorem threshold_above_one_matches_nothing
  (fuzz_ratio fuzz_partial_ratio fuzz_token_sort_ratio : str -> str -> Z)
  (similarity_threshold : float) word_questions xml_questions :
  (forall a b, (0 <= fuzz_ratio a b <= 100)%Z) ->
  (forall a b, (0 <= fuzz_partial_ratio a b <= 100)%Z) ->
  (forall a b, (0 <= fuzz_token_sort_ratio a b <= 100)%Z) ->
  (1 <? similarity_threshold)%float = true ->
  Matcher.match_questions fuzz_ratio fuzz_partial_ratio fuzz_token_sort_ratio
    similarity_threshold word_questions xml_questions
  = Returns (Alignment [] word_questions xml_questions).
Proof.
  intros Hr Hp Ht Hth. unfold Matcher.match_questions.
  rewrite match_loop_none; [reflexivity | |].
  - eapply ltb_trans; [|exact Hth]. reflexivity.
  - apply Forall_forall. intros w _. apply Forall_forall. intros x _.
    cbn [unmatched_xml].
    destruct (similarity_threshold <=? _)%float eqn:Hle; [|reflexivity].
    destruct (@similarity_bounds fuzz_ratio fuzz_partial_ratio
                fuzz_token_sort_ratio Hr Hp Ht (Word.text w) (Xml.text x))
      as [_ Hone].
    pose proof (leb_trans Hle Hone) as F.
    rewrite (ltb_not_leb Hth) in F. discriminate.
Qed.

Lemma threshold_above_one_matches_nothing_witness :
  (1 <? 2)%float = true /\
  Matcher.match_questions Samples.fuzz_equal Samples.fuzz_equal Samples.fuzz_equal
    2%float [Samples.word_abc] [Samples.xml_abc]
  = Returns (Alignment [] [Samples.word_abc] [Samples.xml_abc]).
Proof.
  assert (H : (1 <? 2)%float = true) by reflexivity.
  split; [exact H|].
  exact (@threshold_above_one_matches_nothing Samples.fuzz_equal
           Samples.fuzz_equal Samples.fuzz_equal 2%float
           [Samples.word_abc] [Samples.xml_abc]
           fuzz_equal_range fuzz_equal_range fuzz_equal_range H).
Defined.

(** X17.  With the three ratios percentages and a threshold above zero,
    [find_best_match] returns the first of the candidates that no other
    outscores, with its score, when that score reaches the threshold, and
    [None] exactly when no candidate reaches it; [list.remove] then takes
    the returned candidate itself out of the pool. *)
Theorem best_candidate_is_first_highest
  (fuzz_ratio fuzz_partial_ratio fuzz_token_sort_ratio : str -> str -> Z)
  (similarity_threshold : float) w pool :
  (forall a b, (0 <= fuzz_ratio a b <= 100)%Z) ->
  (forall a b, (0 <= fuzz_partial_ratio a b <= 100)%Z) ->
  (forall a b, (0 <= fuzz_token_sort_ratio a b <= 100)%Z) ->
  (0 <? similarity_threshold)%float = true ->
  (exists pre x post,
      pool = pre ++ x :: post /\
      Matcher.find_best_match fuzz_ratio fuzz_partial_ratio fuzz_token_sort_ratio
        similarity_threshold w pool
      = Some (Some x, calculate_similarity fuzz_ratio fuzz_partial_ratio
                        fuzz_token_sort_ratio (Word.text w) (Xml.text x)) /\
      (similarity_threshold
       <=? calculate_similarity fuzz_ratio fuzz_partial_ratio
             fuzz_token_sort_ratio (Word.text w) (Xml.text x))%float = true /\
      Forall (fun y =>
                (calculate_similarity fuzz_ratio fuzz_partial_ratio
                   fuzz_token_sort_ratio (Word.text w) (Xml.text y)
                 <=? calculate_similarity fuzz_ratio fuzz_partial_ratio
                       fuzz_token_sort_ratio (Word.text w) (Xml.text x))%float
                = true) pool /\
      Forall (fun y =>
                (calculate_similarity fuzz_ratio fuzz_partial_ratio
                   fuzz_token_sort_ratio (Word.text w) (Xml.text y)
                 <? calculate_similarity fuzz_ratio fuzz_partial_ratio
                      fuzz_token_sort_ratio (Word.text w) (Xml.text x))%float
                = true) pre /\
      list_remove x pool = Some (pre ++ post))
  \/
  (Matcher.find_best_match fuzz_ratio fuzz_partial_ratio fuzz_token_sort_ratio
     similarity_threshold w pool = None /\
   Forall (fun y =>
             (similarity_threshold
              <=? calculate_similarity fuzz_ratio fuzz_partial_ratio
                    fuzz_token_sort_ratio (Word.text w) (Xml.text y))%float
             = false) pool).
Proof.
  intros Hr Hp Ht Hth.
  exact (@find_best_match_positive fuzz_ratio fuzz_partial_ratio
           fuzz_token_sort_ratio similarity_threshold Hr Hp Ht w pool Hth).
Qed.

Lemma best_candidate_is_first_highest_witness :
  (0 <? Samples.default_threshold)%float = true /\
  ((exists pre x post,
       [Samples.xml_xyz; Samples.xml_abc] = pre ++ x :: post /\
       Matcher.find_best_match Samples.fuzz_equal Samples.fuzz_equal
         Samples.fuzz_equal Samples.default_threshold Samples.word_abc
         [Samples.xml_xyz; Samples.xml_abc]
       = Some (Some x, calculate_similarity Samples.fuzz_equal Samples.fuzz_equal
                         Samples.fuzz_equal (Word.text Samples.word_abc)
                         (Xml.text x)) /\
       (Samples.default_threshold
        <=? calculate_similarity Samples.fuzz_equal Samples.fuzz_equal
              Samples.fuzz_equal (Word.text Samples.word_abc)
              (Xml.text x))%float = true /\
       Forall (fun y =>
                 (calculate_similarity Samples.fuzz_equal Samples.fuzz_equal
                    Samples.fuzz_equal (Word.text Samples.word_abc) (Xml.text y)
                  <=? calculate_similarity Samples.fuzz_equal Samples.fuzz_equal
                        Samples.fuzz_equal (Word.text Samples.word_abc)
                        (Xml.text x))%float = true)
              [Samples.xml_xyz; Samples.xml_abc] /\
       Forall (fun y =>
                 (calculate_similarity Samples.fuzz_equal Samples.fuzz_equal
                    Samples.fuzz_equal (Word.text Samples.word_abc) (Xml.text y)
                  <? calculate_similarity Samples.fuzz_equal Samples.fuzz_equal
                       Samples.fuzz_equal (Word.text Samples.word_abc)
                       (Xml.text x))%float = true) pre /\
       list_remove x [Samples.xml_xyz; Samples.xml_abc] = Some (pre ++ post))
   \/
   (Matcher.find_best_match Samples.fuzz_equal Samples.fuzz_equal
      Samples.fuzz_equal Samples.default_threshold Samples.word_abc
      [Samples.xml_xyz; Samples.xml_abc] = None /\
    Forall (fun y =>
              (Samples.default_threshold
               <=? calculate_similarity Samples.fuzz_equal Samples.fuzz_equal
                     Samples.fuzz_equal (Word.text Samples.word_abc)
                     (Xml.text y))%float = false)
           [Samples.xml_xyz; Samples.xml_abc])).
Proof.
  assert (H : (0 <? Samples.default_threshold)%float = true) by reflexivity.
  split; [exact H|].
  exact (@best_candidate_is_first_highest Samples.fuzz_equal Samples.fuzz_equal
           Samples.fuzz_equal Samples.default_threshold Samples.word_abc
           [Samples.xml_xyz; Samples.xml_abc]
           fuzz_equal_range fuzz_equal_range fuzz_equal_range H).
Defined.

End AlignmentFacts.

(** ** The driver and the training pairs *)

Module CorpusFacts.
Import Py Matcher Vocabulary Notions Documents.

Lemma dealt_all_right (A : Type) (l : list A) : dealt [] l l.
Proof. induction l; constructor; assumption. Qed.

Lemma dealt_length (A : Type) (l1 l2 m : list A) :
  dealt l1 l2 m -> length l1 + length l2 = length m.
Proof. induction 1; cbn; lia. Qed.

Lemma dealt_subseq (A : Type) (l1 l2 m : list A) : dealt l1 l2 m -> subseq l1 m.
Proof. induction 1; constructor; assumption. Qed.

Lemma subseq_in (A : Type) (l m : list A) x : subseq l m -> In x l -> In x m.
Proof.
  induction 1 as [|y l m _ IH|y l m _ IH]; intros Hin.
  - exact Hin.
  - destruct Hin as [->|Hin]; [now left | right; auto].
  - right. auto.
Qed.

Lemma subseq_sorted (A : Type) (R : A -> A -> Prop) l m :
  subseq l m -> StronglySorted R m -> StronglySorted R l.
Proof.
  induction 1 as [|y l m Hs IH|y l m Hs IH]; intros Hm.
  - constructor.
  - inversion Hm as [|? ? Hm' Hall]; subst. constructor; [auto|].
    apply Forall_forall. intros z Hz. rewrite Forall_forall in Hall.
    apply Hall. eapply subseq_in; eassumption.
  - inversion Hm; subst. auto.
Qed.

Lemma seq_sorted n : forall a, StronglySorted lt (seq a n).
Proof.
  induction n as [|n IH]; intros a; [constructor|].
  cbn [seq]. constructor; [apply IH|].
  apply Forall_forall. intros y Hy. apply in_seq in Hy. lia.
Qed.

Section Driver.
Variables fuzz_ratio fuzz_partial_ratio fuzz_token_sort_ratio : str -> str -> Z.
Variable fromstring : str -> option Xml.element.
Variable tostring : Xml.element -> str.
Variable similarity_threshold : float.
Variable content_limit : Z.

Abbreviation run_pair :=
  (Splitter.process_survey_pair fuzz_ratio fuzz_partial_ratio
     fuzz_token_sort_ratio fromstring tostring similarity_threshold content_limit).

(** [process_survey_pair] is [match_questions] on the two extracted lists,
    but for an empty side, where the alignment is made without it. *)
Lemma process_survey_pair_unfold survey_title word_text xml_content :
  run_pair survey_title word_text xml_content =
  let ws := Word.extract_questions content_limit word_text in
  let xs := Xml.extract_questions tostring (fromstring xml_content) in
  match ws, xs with
  | [], _ => Returns (survey_title, Alignment [] [] xs)
  | _ :: _, [] => Returns (survey_title, Alignment [] ws [])
  | _ :: _, _ :: _ =>
      match Matcher.match_loop fuzz_ratio fuzz_partial_ratio
              fuzz_token_sort_ratio similarity_threshold ws
              (Alignment [] [] xs) with
      | Returns results => Returns (survey_title, results)
      | ValueError => ValueError
      end
  end.
Proof. reflexivity. Qed.

Lemma process_survey_pair_sound survey_title word_text xml_content title r :
  run_pair survey_title word_text xml_content = Returns (title, r) ->
  title = survey_title /\
  dealt (map word_question (matches r)) (unmatched_word r)
        (Word.extract_questions content_limit word_text) /\
  Permutation (map xml_question (matches r) ++ unmatched_xml r)
              (Xml.extract_questions tostring (fromstring xml_content)) /\
  subseq (unmatched_xml r)
         (Xml.extract_questions tostring (fromstring xml_content)).
Proof.
  rewrite process_survey_pair_unfold. cbv zeta.
  destruct (Word.extract_questions content_limit word_text) as [|w ws] eqn:Ew.
  - intros H. injection H as <- <-. cbn.
    repeat split; [constructor | apply Permutation_refl
                   | apply AlignmentFacts.subseq_refl].
  - destruct (Xml.extract_questions tostring (fromstring xml_content))
      as [|x xs] eqn:Ex.
    + intros H. injection H as <- <-. cbn [matches unmatched_word unmatched_xml map app].
      repeat split; [apply dealt_all_right | constructor | constructor].
    + destruct (Matcher.match_loop _ _ _ _ _ _) as [res|] eqn:E; [|discriminate].
      intros H. injection H as <- <-.
      split; [reflexivity|].
      pose proof (MatcherFacts.match_loop_partition _ _ _ _ _ _ E) as Hp.
      apply AlignmentFacts.match_loop_deals in E.
      destruct E as (ms & us & Hm & Hu & Hd & Hs).
      cbn [matches unmatched_word unmatched_xml app map] in Hm, Hu, Hs, Hp.
      rewrite Hm, Hu at 1. auto.
Qed.

Lemma process_survey_pair_returns survey_title word_text xml_content :
  (0 <? similarity_threshold)%float = true ->
  exists r, run_pair survey_title word_text xml_content = Returns (survey_title, r).
Proof.
  intros Hth. rewrite process_survey_pair_unfold. cbv zeta.
  destruct (Word.extract_questions content_limit word_text) as [|w ws]; [eauto|].
  destruct (Xml.extract_questions tostring (fromstring xml_content))
    as [|x xs]; [eauto|].
  destruct (@MatcherFacts.match_loop_returns fuzz_ratio fuzz_partial_ratio
              fuzz_token_sort_ratio similarity_threshold (w :: ws) Hth
              (Alignment [] [] (x :: xs))) as (r & ->).
  eauto.
Qed.

Lemma word_indices_sorted word_text :
  StronglySorted lt
    (map Word.word_index (Word.extract_questions content_limit word_text)).
Proof.
  assert (H : map Word.word_index (Word.extract_questions content_limit word_text)
              = seq 0 (length (Word.extract_questions content_limit word_text))).
  { apply SegmenterFacts.flush_indices, SegmenterFacts.scan_indices. reflexivity. }
  rewrite H. apply seq_sorted.
Qed.

Lemma xml_ids_distinct parsed :
  NoDup (map Xml.id (Xml.extract_questions tostring parsed)).
Proof.
  destruct parsed as [root|]; [|constructor].
  rewrite UnitFacts.extract_questions_accepted, UnitFacts.units_from_ids.
  apply UnitFacts.accepted_titles_fresh.
Qed.

(** The matches of a survey, seen from the two extracted lists. *)
Lemma process_survey_pair_matches survey_title word_text xml_content title r :
  (forall e, tostring e <> []) ->
  run_pair survey_title word_text xml_content = Returns (title, r) ->
  Forall (fun m => Word.full_content (word_question m) <> [] /\
                   Xml.full_section (xml_question m) <> []) (matches r) /\
  NoDup (map (fun m => Xml.id (xml_question m)) (matches r)) /\
  StronglySorted lt (map (fun m => Word.word_index (word_question m)) (matches r)).
Proof.
  intros Hts H. apply process_survey_pair_sound in H.
  destruct H as (_ & Hd & Hp & _).
  split; [|split].
  - apply Forall_forall. intros m Hm. split.
    + pose proof (WordFacts.word_questions_nonempty content_limit word_text) as Hw.
      rewrite Forall_forall in Hw.
      apply (Hw (word_question m)).
      eapply subseq_in; [eapply dealt_subseq; exact Hd|]. now apply in_map.
    + pose proof (@XmlFacts.xml_questions_nonempty tostring
                    (fromstring xml_content) Hts) as Hx.
      rewrite Forall_forall in Hx.
      apply (Hx (xml_question m)).
      eapply Permutation_in; [exact Hp|].
      apply in_or_app. left. now apply in_map.
  - pose proof (xml_ids_distinct (fromstring xml_content)) as Hnd.
    apply (Permutation_map Xml.id) in Hp.
    apply Permutation_sym in Hp.
    apply (Permutation_NoDup Hp) in Hnd.
    rewrite map_app in Hnd. apply NoDup_app_remove_r in Hnd.
    now rewrite map_map in Hnd.
  - rewrite <- map_map.
    eapply subseq_sorted; [|apply (word_indices_sorted word_text)].
    apply UnitFacts.subseq_map. eapply dealt_subseq. exact Hd.
Qed.

End Driver.

Lemma list_sum_map_cons (A : Type) (f : A -> nat) x l :
  list_sum (map f (x :: l)) = f x + list_sum (map f l).
Proof. reflexivity. Qed.

Lemma total_matches_cons survey debug_data :
  Corpus.total_matches (survey :: debug_data)
  = length (matches (snd survey)) + Corpus.total_matches debug_data.
Proof. reflexivity. Qed.

Lemma total_unmatched_word_cons survey debug_data :
  Corpus.total_unmatched_word (survey :: debug_data)
  = length (unmatched_word (snd survey)) + Corpus.total_unmatched_word debug_data.
Proof. reflexivity. Qed.

Lemma total_unmatched_xml_cons survey debug_data :
  Corpus.total_unmatched_xml (survey :: debug_data)
  = length (unmatched_xml (snd survey)) + Corpus.total_unmatched_xml debug_data.
Proof. reflexivity. Qed.

Section MainLoop.
Variables fuzz_ratio fuzz_partial_ratio fuzz_token_sort_ratio : str -> str -> Z.
Variable fromstring : str -> option Xml.element.
Variable tostring : Xml.element -> str.
Variable threshold : float.

Abbreviation main_loop' :=
  (Corpus.main_loop fuzz_ratio fuzz_partial_ratio fuzz_token_sort_ratio
     fromstring tostring threshold).

Lemma main_loop_cons sd rest ps ds r :
  Corpus.splitter_process fuzz_ratio fuzz_partial_ratio fuzz_token_sort_ratio
    fromstring tostring threshold (Corpus.sd_survey_title sd)
    (Corpus.sd_natural_language sd) (Corpus.sd_xml_code sd)
  = Returns (Corpus.sd_survey_title sd, r) ->
  main_loop' (sd :: rest) ps ds =
  main_loop' rest
    (ps ++ Corpus.create_training_pairs (Corpus.sd_survey_title sd) (matches r))
    (ds ++ [(Corpus.sd_survey_title sd, r)]).
Proof.
  intros E. cbn [Corpus.main_loop]. rewrite E. cbn [snd].
  destruct (matches r); [|reflexivity].
  cbn [Corpus.create_training_pairs map]. now rewrite app_nil_r.
Qed.

(** What the loop of [main] adds to its two lists. *)
Lemma main_loop_adds training_data :
  (0 <? threshold)%float = true ->
  forall ps ds,
  exists ps' new,
    main_loop' training_data ps ds = Returns (ps ++ ps', ds ++ new) /\
    map fst new = map Corpus.sd_survey_title training_data /\
    length ps' = Corpus.total_matches new /\
    Corpus.total_matches new + Corpus.total_unmatched_word new
    = list_sum (map (fun sd => length (Word.extract_questions 2000
                                         (Corpus.sd_natural_language sd)))
                    training_data) /\
    Corpus.total_matches new + Corpus.total_unmatched_xml new
    = list_sum (map (fun sd => length (Xml.extract_questions tostring
                                         (fromstring (Corpus.sd_xml_code sd))))
                    training_data).
Proof.
  intros Hth. induction training_data as [|sd rest IH]; intros ps ds.
  - exists [], []. rewrite !app_nil_r. repeat split; reflexivity.
  - destruct (@process_survey_pair_returns fuzz_ratio fuzz_partial_ratio
                fuzz_token_sort_ratio fromstring tostring threshold 2000%Z
                (Corpus.sd_survey_title sd) (Corpus.sd_natural_language sd)
                (Corpus.sd_xml_code sd) Hth) as (r & E).
    rewrite (main_loop_cons sd rest ps ds E).
    destruct (IH (ps ++ Corpus.create_training_pairs
                         (Corpus.sd_survey_title sd) (matches r))
                 (ds ++ [(Corpus.sd_survey_title sd, r)]))
      as (ps' & new & Hrun & Htitles & Hlen & Hw & Hx).
    apply process_survey_pair_sound in E.
    destruct E as (_ & Hd & Hp & _).
    apply dealt_length in Hd. apply Permutation_length in Hp.
    rewrite length_app in Hp. rewrite !length_map in Hd, Hp.
    exists (Corpus.create_training_pairs (Corpus.sd_survey_title sd) (matches r)
            ++ ps'),
           ((Corpus.sd_survey_title sd, r) :: new).
    split; [|split; [|split; [|split]]].
    + rewrite Hrun, <- !app_assoc. reflexivity.
    + cbn [map fst]. now rewrite Htitles.
    + rewrite length_app. unfold Corpus.create_training_pairs.
      rewrite length_map, total_matches_cons. cbn [snd]. lia.
    + rewrite total_matches_cons, total_unmatched_word_cons, list_sum_map_cons.
      cbn [snd]. lia.
    + rewrite total_matches_cons, total_unmatched_xml_cons, list_sum_map_cons.
      cbn [snd]. lia.
Qed.

End MainLoop.

(** X19.  With a threshold above zero [process_survey_pair] returns for
    every survey, under the title it was given; the word questions of the
    text are dealt, in order, to [matches] and [unmatched_word], and the
    units of the structured text are those of [matches] and
    [unmatched_xml], each once. *)
Theorem process_survey_pair_conserves
  (fuzz_ratio fuzz_partial_ratio fuzz_token_sort_ratio : str -> str -> Z)
  (fromstring : str -> option Xml.element) (tostring : Xml.element -> str)
  (similarity_threshold : float) (content_limit : Z)
  survey_title word_text xml_content :
  (0 <? similarity_threshold)%float = true ->
  exists r,
    Splitter.process_survey_pair fuzz_ratio fuzz_partial_ratio
      fuzz_token_sort_ratio fromstring tostring similarity_threshold
      content_limit survey_title word_text xml_content
    = Returns (survey_title, r) /\
    dealt (map word_question (matches r)) (unmatched_word r)
          (Word.extract_questions content_limit word_text) /\
    Permutation (map xml_question (matches r) ++ unmatched_xml r)
                (Xml.extract_questions tostring (fromstring xml_content)).
Proof.
  intros Hth.
  destruct (@process_survey_pair_returns fuzz_ratio fuzz_partial_ratio
              fuzz_token_sort_ratio fromstring tostring similarity_threshold
              content_limit survey_title word_text xml_content Hth) as (r & E).
  exists r. split; [exact E|].
  apply process_survey_pair_sound in E. destruct E as (_ & Hd & Hp & _).
  auto.
Qed.

Lemma process_survey_pair_conserves_witness :
  (0 <? Samples.default_threshold)%float = true /\
  exists r,
    Splitter.process_survey_pair Samples.fuzz_equal Samples.fuzz_equal
      Samples.fuzz_equal parse_page Samples.serialize Samples.default_threshold
      2000 (lit "Census") (document sample_entries) (lit "<page/>")
    = Returns (lit "Census", r) /\
    dealt (map word_question (matches r)) (unmatched_word r)
          (Word.extract_questions 2000 (document sample_entries)) /\
    Permutation (map xml_question (matches r) ++ unmatched_xml r)
                (Xml.extract_questions Samples.serialize
                   (parse_page (lit "<page/>"))).
Proof.
  assert (H : (0 <? Samples.default_threshold)%float = true) by reflexivity.
  split; [exact H|].
  exact (@process_survey_pair_conserves Samples.fuzz_equal Samples.fuzz_equal
           Samples.fuzz_equal parse_page Samples.serialize
           Samples.default_threshold 2000%Z (lit "Census")
           (document sample_entries) (lit "<page/>") H).
Defined.

(** X20.  The training pairs made from the matches of one survey: each
    carries the survey title, a [natural_language] and an [xml_code] that are
    not empty (the serializer never yielding the empty string); no two share
    an [xml_id]; and their [word_index] grows strictly along the list. *)
Theorem training_pairs_of_a_survey
  (fuzz_ratio fuzz_partial_ratio fuzz_token_sort_ratio : str -> str -> Z)
  (fromstring : str -> option Xml.element) (tostring : Xml.element -> str)
  (similarity_threshold : float) (content_limit : Z)
  survey_title word_text xml_content title r :
  (forall e, tostring e <> []) ->
  Splitter.process_survey_pair fuzz_ratio fuzz_partial_ratio
    fuzz_token_sort_ratio fromstring tostring similarity_threshold content_limit
    survey_title word_text xml_content = Returns (title, r) ->
  Forall (fun p => Corpus.survey_title p = title /\
                   Corpus.natural_language p <> [] /\
                   Corpus.xml_code p <> [])
         (Corpus.create_training_pairs title (matches r)) /\
  NoDup (map (fun p => Corpus.xml_id (Corpus.pair_metadata p))
             (Corpus.create_training_pairs title (matches r))) /\
  StronglySorted lt
    (map (fun p => Corpus.word_index (Corpus.pair_metadata p))
         (Corpus.create_training_pairs title (matches r))).
Proof.
  intros Hts H.
  destruct (process_survey_pair_matches _ _ _ _ _ _ _ _ _ _ Hts H)
    as (Hne & Hnd & Hsorted).
  unfold Corpus.create_training_pairs. rewrite !map_map.
  cbn [Corpus.pair_metadata Corpus.xml_id Corpus.word_index].
  split; [|split; assumption].
  apply Forall_map. eapply Forall_impl; [|exact Hne].
  cbn. intros m [Hw Hx]. auto.
Qed.

Lemma training_pairs_of_a_survey_witness :
  Splitter.process_survey_pair Samples.fuzz_equal Samples.fuzz_equal
    Samples.fuzz_equal parse_page Samples.serialize Samples.default_threshold
    2000 (lit "Census") (document sample_entries) (lit "<page/>")
  = Returns (lit "Census", sample_alignment) /\
  (Forall (fun p => Corpus.survey_title p = lit "Census" /\
                    Corpus.natural_language p <> [] /\
                    Corpus.xml_code p <> [])
          (Corpus.create_training_pairs (lit "Census") (matches sample_alignment)) /\
   NoDup (map (fun p => Corpus.xml_id (Corpus.pair_metadata p))
              (Corpus.create_training_pairs (lit "Census")
                 (matches sample_alignment))) /\
   StronglySorted lt
     (map (fun p => Corpus.word_index (Corpus.pair_metadata p))
          (Corpus.create_training_pairs (lit "Census")
             (matches sample_alignment)))).
Proof.
  assert (H : Splitter.process_survey_pair Samples.fuzz_equal Samples.fuzz_equal
                Samples.fuzz_equal parse_page Samples.serialize
                Samples.default_threshold 2000 (lit "Census")
                (document sample_entries) (lit "<page/>")
              = Returns (lit "Census", sample_alignment)).
  { vm_compute. reflexivity. }
  split; [exact H|].
  exact (@training_pairs_of_a_survey Samples.fuzz_equal Samples.fuzz_equal
           Samples.fuzz_equal parse_page Samples.serialize
           Samples.default_threshold 2000%Z (lit "Census")
           (document sample_entries) (lit "<page/>") _ _
           XmlFacts.serialize_nonempty H).
Defined.

(** X21.  With a threshold above zero the loop of [main] runs through the
    whole input: the debug list holds one entry per survey, in order and
    under its title; the number of training pairs is the matched count of the
    summary; and the matched and unmatched counts of the summary add up to
    the questions extracted from the word texts and to the units extracted
    from the structured texts. *)
Theorem main_loop_accounts
  (fuzz_ratio fuzz_partial_ratio fuzz_token_sort_ratio : str -> str -> Z)
  (fromstring : str -> option Xml.element) (tostring : Xml.element -> str)
  (threshold : float) training_data :
  (0 <? threshold)%float = true ->
  exists all_training_pairs debug_data,
    Corpus.main_loop fuzz_ratio fuzz_partial_ratio fuzz_token_sort_ratio
      fromstring tostring threshold training_data [] []
    = Returns (all_training_pairs, debug_data) /\
    map fst debug_data = map Corpus.sd_survey_title training_data /\
    length all_training_pairs = Corpus.total_matches debug_data /\
    Corpus.total_matches debug_data + Corpus.total_unmatched_word debug_data
    = list_sum (map (fun sd => length (Word.extract_questions 2000
                                         (Corpus.sd_natural_language sd)))
                    training_data) /\
    Corpus.total_matches debug_data + Corpus.total_unmatched_xml debug_data
    = list_sum (map (fun sd => length (Xml.extract_questions tostring
                                         (fromstring (Corpus.sd_xml_code sd))))
                    training_data).
Proof.
  intros Hth.
  destruct (@main_loop_adds fuzz_ratio fuzz_partial_ratio fuzz_token_sort_ratio
              fromstring tostring threshold training_data Hth [] [])
    as (ps & new & H). cbn [app] in H.
  exists ps, new. exact H.
Qed.

Lemma main_loop_accounts_witness :
  (0 <? Samples.default_threshold)%float = true /\
  exists all_training_pairs debug_data,
    Corpus.main_loop Samples.fuzz_equal Samples.fuzz_equal Samples.fuzz_equal
      parse_page Samples.serialize Samples.default_threshold
      [sample_survey; empty_survey] [] []
    = Returns (all_training_pairs, debug_data) /\
    map fst debug_data
    = map Corpus.sd_survey_title [sample_survey; empty_survey] /\
    length all_training_pairs = Corpus.total_matches debug_data /\
    Corpus.total_matches debug_data + Corpus.total_unmatched_word debug_data
    = list_sum (map (fun sd => length (Word.extract_questions 2000
                                         (Corpus.sd_natural_language sd)))
                    [sample_survey; empty_survey]) /\
    Corpus.total_matches debug_data + Corpus.total_unmatched_xml debug_data
    = list_sum (map (fun sd => length (Xml.extract_questions Samples.serialize
                                         (parse_page (Corpus.sd_xml_code sd))))
                    [sample_survey; empty_survey]).
Proof.
  assert (H : (0 <? Samples.default_threshold)%float = true) by reflexivity.
  split; [exact H|].
  exact (@main_loop_accounts Samples.fuzz_equal Samples.fuzz_equal
           Samples.fuzz_equal parse_page Samples.serialize
           Samples.default_threshold [sample_survey; empty_survey] H).
Defined.

End CorpusFacts.

(** ** The three methods on one paragraph *)

Module ParagraphFacts.
Import Py Re Word Vocabulary Notions.





End ParagraphFacts.
